(** * muoviti: grid compositing, slicing and frame/time mapping

    A shallow embedding of [src/core/grid_utils.py] and of the two
    frame/time converters of [src/core/video.py], with the properties the
    specification states about them.

    Python integers are [Z]; [//] and [%] are [Z.div] and [Z.modulo] (both
    round towards minus infinity, like Python) guarded by the
    [ZeroDivisionError] Python raises on a zero divisor.  Python floats are
    IEEE 754 binary64 numbers, taken from the Standard Library's
    [SpecFloat].  Exceptions are the [Raise] results of an error monad.

    The callers of that code are embedded as well: frame extraction
    ([src/core/video.py]), the time label and frame stepping of the player
    ([src/ui/video_player.py]), the grid texts and the frame selector
    ([src/ui/frame_selector.py], [src/ui/generation_panel.py]) and the
    template generation of the client ([src/core/genai_client.py]). *)

From Stdlib Require Import ZArith QArith Qround Lia Ascii.
From Stdlib Require Import Lqa Qpower Qabs.
From Stdlib Require Import Floats.SpecFloat.
From stdpp Require Import base list strings pretty gmap.

Open Scope Z_scope.

(** ** Exceptions *)

Inductive exn : Type :=
| ZeroDivisionError
| ValueError (msg : string)
| OverflowError
| FileNotFoundError
| UnidentifiedImageError
| SystemError (msg : string)
| MemoryError
| DecompressionBombError.

Inductive result (A : Type) : Type :=
| Ok (a : A)
| Raise (e : exn).
Arguments Ok {A} a.
Arguments Raise {A} e.

#[global] Instance result_ret : MRet result := @Ok.
#[global] Instance result_bind : MBind result := fun A B f m =>
  match m with
  | Ok a => f a
  | Raise e => Raise e
  end.

Definition is_Ok {A} (r : result A) : Prop := exists a, r = Ok a.

(** ** Python integer arithmetic and loops *)

Module Py.

(** [a // b] *)
Definition floordiv (a b : Z) : result Z :=
  if b =? 0 then Raise ZeroDivisionError else Ok (a / b).

(** [a % b] *)
Definition mod_ (a b : Z) : result Z :=
  if b =? 0 then Raise ZeroDivisionError else Ok (a mod b).

(** [range(n)]: empty when [n <= 0]. *)
Definition range (n : Z) : list Z := seqZ 0 n.

(** [for x in xs: s = body(x, s)]: the state is threaded through the
    iterations and the first exception ends the loop. *)
Fixpoint for_ {A S : Type} (xs : list A) (body : A -> S -> result S) (s : S)
  : result S :=
  match xs with
  | [] => Ok s
  | x :: xs' => s' ← body x s; for_ xs' body s'
  end.

(** [for idx, x in enumerate(xs): if stop(idx): break; s = body(idx, x, s)],
    entered with the counter at [idx]. *)
Fixpoint for_enumerate_from {A S : Type} (idx : Z) (xs : list A)
    (stop : Z -> bool) (body : Z -> A -> S -> result S) (s : S) : result S :=
  match xs with
  | [] => Ok s
  | x :: xs' =>
      if stop idx then Ok s
      else s' ← body idx x s; for_enumerate_from (idx + 1) xs' stop body s'
  end.

Definition for_enumerate {A S : Type} :=
  @for_enumerate_from A S 0.

(** [f"{n:02d}"]: decimal, zero-padded to two characters (a minus sign
    counts towards the width). *)
Definition format_02d (n : Z) : string :=
  if (0 <=? n) && (n <? 10) then "0" +:+ pretty n else pretty n.

End Py.

(** ** Geometry *)

(** [calculate_sprite_size(resolution, cols, rows)] *)
Definition calculate_sprite_size (resolution cols rows : Z) : result Z :=
  Py.floordiv resolution (Z.max cols rows).

(** [calculate_grid_resolution(sprite_size, cols, rows)] *)
Definition calculate_grid_resolution (sprite_size cols rows : Z) : Z * Z :=
  (sprite_size * cols, sprite_size * rows).

(** ** Rasters and files: the part of Pillow and pathlib the module uses *)

(** Colour models of the images the module creates ([Image.new("RGB", ..)],
    [Image.new("RGBA", ..)], [convert("RGB")]). *)
Inductive Mode : Type := RGB | RGBA.

(** A pixel is (red, green, blue, alpha). *)
Definition Pixel : Type := Z * Z * Z * Z.

(** An in-memory image: [im.mode], [im.size] and the pixel at each
    coordinate ([pix] is only read inside the extent). *)
Record Image : Type := {
  mode : Mode;
  width : Z;
  height : Z;
  pix : Z -> Z -> Pixel
}.

(** A [pathlib.Path] by its components; [dir / name] appends one. *)
Abbreviation Path := (list string).

(** The image files on disk. *)
Abbreviation FileStore := (gmap Path Image).

Definition path_join (dir : Path) (name : string) : Path := dir ++ [name].

Module PIL.

(** A pixel of an image of mode [src] as an image of mode [dst] holds it:
    [RGB] has no transparency, so only [RGBA] to [RGBA] keeps the alpha
    channel and every other pixel is opaque. *)
Definition to_mode (src dst : Mode) (p : Pixel) : Pixel :=
  match src, dst with
  | RGBA, RGBA => p
  | _, _ => let '(r, g, b, _) := p in (r, g, b, 255)
  end.

Definition inside (im : Image) (x y : Z) : bool :=
  (0 <=? x) && (x <? width im) && (0 <=? y) && (y <? height im).

(** [im.getpixel((x, y))]; [None] stands for the [IndexError]. *)
Definition getpixel (im : Image) (x y : Z) : option Pixel :=
  if inside im x y then Some (pix im x y) else None.

(** [Image.MAX_IMAGE_PIXELS], and the largest C [int]. *)
Definition MAX_IMAGE_PIXELS : Z := 89478485.
Definition INT_MAX : Z := 2147483647.

(** [_decompression_bomb_check(size)]: a raster of more than twice
    [MAX_IMAGE_PIXELS] pixels is refused (above [MAX_IMAGE_PIXELS] there is
    a warning only). *)
Definition decompression_bomb_check (size : Z * Z) : result unit :=
  let pixels := Z.max 1 size.1 * Z.max 1 size.2 in
  if 2 * MAX_IMAGE_PIXELS <? pixels then Raise DecompressionBombError
  else Ok tt.

(** [Image.new(mode, (w, h), color)], the colour given with its alpha.
    The extents go to the C layer as [int]s, and the C layer refuses a line
    of more than [INT_MAX / 4 - 1] pixels.  (Beyond these checks memory is
    taken to be sufficient.) *)
Definition new (m : Mode) (size : Z * Z) (color : Pixel) : result Image :=
  let '(w, h) := size in
  if (w <? 0) || (h <? 0)
  then Raise (ValueError "Width and height must be >= 0")
  else if (INT_MAX <? w) || (INT_MAX <? h) then Raise OverflowError
  else if INT_MAX / 4 - 1 <? w then Raise MemoryError
  else Ok {| mode := m; width := w; height := h;
             pix := fun _ _ => to_mode RGBA m color |}.

(** [im.crop((x0, y0, x1, y1))], the box being (left, upper, right, lower):
    the extent of the box goes through the decompression bomb check, and
    the part of the box outside the image is zero-filled. *)
Definition crop (im : Image) (box : Z * Z * Z * Z) : result Image :=
  let '(x0, y0, x1, y1) := box in
  if x1 <? x0
  then Raise (ValueError "Coordinate 'right' is less than 'left'")
  else if y1 <? y0
  then Raise (ValueError "Coordinate 'lower' is less than 'upper'")
  else
    _ ← decompression_bomb_check (Z.abs (x1 - x0), Z.abs (y1 - y0));
    Ok {| mode := mode im; width := x1 - x0; height := y1 - y0;
          pix := fun x y =>
            if inside im (x + x0) (y + y0)
            then pix im (x + x0) (y + y0)
            else (0, 0, 0, 0) |}.

(** [im.convert(mode)] *)
Definition convert (im : Image) (m : Mode) : Image :=
  {| mode := m; width := width im; height := height im;
     pix := fun x y => to_mode (mode im) m (pix im x y) |}.

(** [dst.paste(src, (x0, y0))] without a mask: the pixels of [src], in the
    mode of [dst], overwrite the rectangle at [(x0, y0)]; what falls outside
    [dst] is clipped. *)
Definition paste (dst src : Image) (at_ : Z * Z) : Image :=
  let '(x0, y0) := at_ in
  {| mode := mode dst; width := width dst; height := height dst;
     pix := fun x y =>
       if inside src (x - x0) (y - y0)
       then to_mode (mode src) (mode dst) (pix src (x - x0) (y - y0))
       else pix dst x y |}.

(** [Image.open(path)]: an image file decodes to a raster of positive
    extent, whose size goes through the decompression bomb check. *)
Definition open_ (fs : FileStore) (path : Path) : result Image :=
  match fs !! path with
  | None => Raise FileNotFoundError
  | Some im =>
      if (1 <=? width im) && (1 <=? height im) then
        _ ← decompression_bomb_check (width im, height im);
        Ok im
      else Raise UnidentifiedImageError
  end.

(** [im.save(path)]: the encoder refuses a raster of zero width or
    height. *)
Definition save (fs : FileStore) (path : Path) (im : Image)
  : result FileStore :=
  if (width im <? 1) || (height im <? 1)
  then Raise (SystemError "tile cannot extend outside image")
  else Ok (<[path := im]> fs).

Section Resampling.

(** The Lanczos filter: the pixel at [(x, y)] of the image resampled to
    [w] by [h].  Its arithmetic is floating point and is left open. *)
Variable lanczos : Image -> Z -> Z -> Z -> Z -> Pixel.

(** [im.resize((w, h), Image.Resampling.LANCZOS)].  Its callers resize to
    a cell of a canvas [new] has returned, so the limits of [new] come
    first. *)
Definition resize (im : Image) (size : Z * Z) : result Image :=
  let '(w, h) := size in
  if (w <? 1) || (h <? 1)
  then Raise (ValueError "height and width must be > 0")
  else Ok {| mode := mode im; width := w; height := h;
             pix := lanczos im w h |}.

End Resampling.

End PIL.

(** ** Slicing and composing ([src/core/grid_utils.py]) *)

(** [f"frame_{row:02d}_{col:02d}.png"] *)
Definition frame_name (row col : Z) : string :=
  "frame_" +:+ Py.format_02d row +:+ "_" +:+ Py.format_02d col +:+ ".png".

(** The body of the inner loop of [slice_grid]: crop one cell, save it and
    append its path. *)
Definition slice_cell (img : Image) (cell_width cell_height : Z)
    (output_dir : Path) (row col : Z) (st : FileStore * list Path)
  : result (FileStore * list Path) :=
  let '(fs, frames) := st in
  let left := col * cell_width in
  let upper := row * cell_height in
  let right := left + cell_width in
  let lower := upper + cell_height in
  cell ← PIL.crop img (left, upper, right, lower);
  let frame_path := path_join output_dir (frame_name row col) in
  fs' ← PIL.save fs frame_path cell;
  Ok (fs', frames ++ [frame_path]).

(** [slice_grid(image_path, cols, rows, output_dir)]: the paths of the
    cells in row-major order, and the file store with the cells saved.
    ([output_dir.mkdir] creates directories only, which the store does not
    record.) *)
Definition slice_grid (fs : FileStore) (image_path : Path) (cols rows : Z)
    (output_dir : Path) : result (list Path * FileStore) :=
  img ← PIL.open_ fs image_path;
  cell_width ← Py.floordiv (width img) cols;
  cell_height ← Py.floordiv (height img) rows;
  '(fs', frames) ← Py.for_ (Py.range rows) (fun row =>
      Py.for_ (Py.range cols) (fun col =>
        slice_cell img cell_width cell_height output_dir row col))
    (fs, []);
  Ok (frames, fs').

(** The local variables of [center_crop_square]: the crop box. *)
Definition center_crop_box (image : Image) : Z * Z * Z * Z :=
  let size := Z.min (width image) (height image) in
  let left := (width image - size) / 2 in
  let top := (height image - size) / 2 in
  let right := left + size in
  let bottom := top + size in
  (left, top, right, bottom).

(** [center_crop_square(image)] *)
Definition center_crop_square (image : Image) : result Image :=
  PIL.crop image (center_crop_box image).

Section Compose.

Variable lanczos : Image -> Z -> Z -> Z -> Z -> Pixel.

(** The body of the loop of [compose_grid] after the [break] test. *)
Definition compose_cell (fs : FileStore) (cols sprite_size : Z)
    (idx : Z) (frame_path : Path) (grid : Image) : result Image :=
  row ← Py.floordiv idx cols;
  col ← Py.mod_ idx cols;
  frame ← PIL.open_ fs frame_path;
  frame ← PIL.resize lanczos frame (sprite_size, sprite_size);
  let x := col * sprite_size in
  let y := row * sprite_size in
  Ok (PIL.paste grid frame (x, y)).

(** [compose_grid(frames, cols, rows, sprite_size)] *)
Definition compose_grid (fs : FileStore) (frames : list Path)
    (cols rows sprite_size : Z) : result Image :=
  let grid_width := cols * sprite_size in
  let grid_height := rows * sprite_size in
  grid ← PIL.new RGBA (grid_width, grid_height) (0, 0, 0, 0);
  Py.for_enumerate frames (fun idx => idx >=? cols * rows)
    (compose_cell fs cols sprite_size) grid.

(** The body of the loop of [create_reference_grid] after the [break]
    test. *)
Definition reference_cell (fs : FileStore) (cols cell_size : Z)
    (idx : Z) (frame_path : Path) (grid : Image) : result Image :=
  row ← Py.floordiv idx cols;
  col ← Py.mod_ idx cols;
  frame ← PIL.open_ fs frame_path;
  let frame := PIL.convert frame RGB in
  frame ← center_crop_square frame;
  frame ← PIL.resize lanczos frame (cell_size, cell_size);
  let x := col * cell_size in
  let y := row * cell_size in
  Ok (PIL.paste grid frame (x, y)).

(** [create_reference_grid(frames, cols, rows, resolution)] *)
Definition create_reference_grid (fs : FileStore) (frames : list Path)
    (cols rows resolution : Z) : result Image :=
  match frames with
  | [] => Raise (ValueError "No frames provided")
  | _ =>
      cell_size ← Py.floordiv resolution (Z.max cols rows);
      let grid_size := cell_size * Z.max cols rows in
      grid ← PIL.new RGB (grid_size, grid_size) (255, 255, 255, 255);
      Py.for_enumerate frames (fun idx => idx >=? cols * rows)
        (reference_cell fs cols cell_size) grid
  end.

End Compose.

(** ** Python floats: IEEE 754 binary64 *)

Module Float.

Definition prec : Z := 53.
Definition emax : Z := 1024.

Abbreviation float := spec_float.

(** [float(n)] for an integer [n]: the nearest binary64 number (ties to
    even); an integer beyond the range raises. *)
Definition of_int (n : Z) : result float :=
  match binary_normalize prec emax n 0 false with
  | S754_infinity _ => Raise OverflowError
  | x => Ok x
  end.

Definition is_zero (x : float) : bool :=
  match x with
  | S754_zero _ => true
  | _ => false
  end.

Definition is_finite (x : float) : bool :=
  match x with
  | S754_zero _ | S754_finite _ _ _ => true
  | _ => false
  end.

(** [x * y] *)
Definition mul (x y : float) : float := SFmul prec emax x y.

(** [x / y] on floats *)
Definition truediv (x y : float) : result float :=
  if is_zero y then Raise ZeroDivisionError else Ok (SFdiv prec emax x y).

(** [int(x)]: the integer part, rounding towards zero. *)
Definition int_ (x : float) : result Z :=
  match x with
  | S754_zero _ => Ok 0
  | S754_finite s m e =>
      let a := match e with
               | Zneg p => Z.shiftr (Zpos m) (Zpos p)
               | _ => Z.shiftl (Zpos m) e
               end in
      Ok (if s then - a else a)
  | S754_infinity _ => Raise OverflowError
  | S754_nan => Raise (ValueError "cannot convert float NaN to integer")
  end.

(** [x > 0.0] *)
Definition positive (x : float) : bool := SFltb (S754_zero false) x.

(** The rational number a finite float stands for. *)
Definition to_Q (x : float) : Q :=
  match x with
  | S754_finite s m e =>
      let n := if s then Zneg m else Zpos m in
      match e with
      | Zneg p => Qmake n (2 ^ p)%positive
      | _ => inject_Z (n * 2 ^ e)
      end
  | _ => 0%Q
  end.

(** The float a decimal literal [n / d] denotes, for integers that are
    floats themselves: the division rounds once, as the parser does. *)
Definition literal (n d : Z) : float :=
  SFdiv prec emax (binary_normalize prec emax n 0 false)
                  (binary_normalize prec emax d 0 false).

End Float.

(** ** Frame/time mapping ([VideoHandler] in [src/core/video.py]) *)

(** [time_to_frame(time_sec, fps)] *)
Definition time_to_frame (time_sec fps : Float.float) : result Z :=
  Float.int_ (Float.mul time_sec fps).

(** [frame_to_time(frame_num, fps)] *)
Definition frame_to_time (frame_num : Z) (fps : Float.float)
  : result Float.float :=
  x ← Float.of_int frame_num;
  Float.truediv x fps.

(** Frame index to timestamp and back. *)
Definition frame_round_trip (frame_num : Z) (fps : Float.float) : result Z :=
  t ← frame_to_time frame_num fps;
  time_to_frame t fps.

(** ** Squaring by padding ([pad_to_square] of [src/core/grid_utils.py]) *)

(** [pad_to_square(image, fill_color)] *)
Definition pad_to_square (image : Image) (fill_color : Pixel) : result Image :=
  let size := Z.max (width image) (height image) in
  padded ← PIL.new RGBA (size, size) fill_color;
  let x := (size - width image) / 2 in
  let y := (size - height image) / 2 in
  Ok (PIL.paste padded image (x, y)).

(** ** Frame extraction ([extract_frame] and [extract_frames_batch] of
    [src/core/video.py]) *)

(** [s.zfill]-style padding: zeros in front of [s] up to [w] characters. *)
Fixpoint zero_pad (n : nat) (s : string) : string :=
  match n with
  | O => s
  | S n' => String "0" (zero_pad n' s)
  end.

(** [f"{n:04d}"]: decimal, zero-padded to four characters (a minus sign
    counts towards the width and stays in front). *)
Definition format_04d (n : Z) : string :=
  if n <? 0
  then String "-" (zero_pad (3 - String.length (pretty (- n))) (pretty (- n)))
  else zero_pad (4 - String.length (pretty n)) (pretty n).

Section Video.

(** One run of [ffmpeg -y -ss time_sec -i video_path -frames:v 1 -q:v 2
    output] under [subprocess.run(.., check=True)]: the file store after it,
    or [None] for the [CalledProcessError] of a failed run. *)
Variable ffmpeg : FileStore -> Path -> Float.float -> Path -> option FileStore.

(** [f"{time_sec:.3f}"] and [video_path.stem], left open. *)
Variable format_3f : Float.float -> string.
Variable stem : Path -> string.

(** [self.frames_dir] *)
Variable frames_dir : Path.

(** [extract_frame(video_path, time_sec, output)] *)
Definition extract_frame (fs : FileStore) (video_path : Path)
    (time_sec : Float.float) (output : option Path)
  : option (Path * FileStore) :=
  let output :=
    match output with
    | None =>
        let video_name := stem video_path in
        let frame_name :=
          video_name +:+ "_" +:+ format_3f time_sec +:+ ".png" in
        path_join frames_dir frame_name
    | Some output => output
    end in
  fs' ← ffmpeg fs video_path time_sec output;
  Some (output, fs').

(** The loop of [extract_frames_batch], entered with the counter at
    [idx]. *)
Fixpoint extract_frames_from (fs : FileStore) (video_path output_dir : Path)
    (idx : Z) (times : list Float.float) (frames : list Path)
  : option (list Path * FileStore) :=
  match times with
  | [] => Some (frames, fs)
  | time_sec :: times' =>
      let output :=
        path_join output_dir ("frame_" +:+ format_04d idx +:+ ".png") in
      '(_, fs') ← extract_frame fs video_path time_sec (Some output);
      extract_frames_from fs' video_path output_dir (idx + 1) times'
        (frames ++ [output])
  end.

(** [extract_frames_batch(video_path, times, output_dir)] *)
Definition extract_frames_batch (fs : FileStore) (video_path : Path)
    (times : list Float.float) (output_dir : option Path)
  : option (list Path * FileStore) :=
  let output_dir :=
    match output_dir with
    | None => path_join frames_dir (stem video_path)
    | Some output_dir => output_dir
    end in
  extract_frames_from fs video_path output_dir 0 times [].

End Video.

(** ** The video player's time label and frame stepping
    ([src/ui/video_player.py]) *)

(** [_update_time_label(position_ms)]: the text the label is set to. *)
Definition update_time_label (position_ms : Z) : string :=
  let secs := position_ms / 1000 in
  let mins := secs / 60 in
  let hours := mins / 60 in
  Py.format_02d hours +:+ ":" +:+ Py.format_02d (mins mod 60) +:+ ":"
  +:+ Py.format_02d (secs mod 60).

(** The metadata of a video ([VideoMetadata] of [src/core/video.py]). *)
Module VideoMetadata.
Record t := {
  path : Path;
  duration : Float.float;
  fps : Float.float;
  frame_count : Z;
  width : Z;
  height : Z
}.
End VideoMetadata.

(** The media player, as far as the stepping code drives it: whether it is
    playing and the position (in milliseconds) last requested. *)
Record MediaPlayer := {
  playing : bool;
  position : Z
}.

(** [_step_frames(count)], with the loaded metadata (if any), the value
    of the frame spin box and the player. *)
Definition step_frames (metadata : option VideoMetadata.t)
    (current_frame : Z) (player : MediaPlayer) (count : Z)
  : result MediaPlayer :=
  match metadata with
  | None => Ok player
  | Some metadata =>
      let player := {| playing := false; position := position player |} in
      let new_frame :=
        Z.max 0 (Z.min (current_frame + count)
                       (VideoMetadata.frame_count metadata - 1)) in
      t ← frame_to_time new_frame (VideoMetadata.fps metadata);
      k ← Float.of_int 1000;
      time_ms ← Float.int_ (Float.mul t k);
      Ok {| playing := false; position := time_ms |}
  end.

(** ** Grid texts and the frame selector ([src/ui/frame_selector.py],
    [src/ui/generation_panel.py]) *)

Module Str.

(** [s.split(sep)] for a separator of one character, as the first piece
    and the pieces after it (the list Python returns is never empty): the
    pieces are the stretches between the occurrences of [sep]. *)
Fixpoint split (sep : ascii) (s : string) : string * list string :=
  match s with
  | EmptyString => (EmptyString, [])
  | String c s' =>
      let '(piece, pieces) := split sep s' in
      if decide (c = sep) then (EmptyString, piece :: pieces)
      else (String c piece, pieces)
  end.

End Str.

(** [f"{cols}x{rows}"], the text [start_template_generation] looks up in
    the grid combo box. *)
Definition grid_text (cols rows : Z) : string :=
  pretty cols +:+ "x" +:+ pretty rows.

Section GridText.

(** Python's [int] on a string. *)
Variable int_of_str : string -> result Z.

(** [_get_grid_size()] on the current text of the grid combo box:
    [cols, rows = map(int, text.split("x"))].  The pieces are converted
    one by one as the unpacking asks for them, and it asks for a third
    piece to see that there is none. *)
Definition get_grid_size (text : string) : result (Z * Z) :=
  match Str.split "x" text with
  | (a, []) =>
      _ ← int_of_str a;
      Raise (ValueError "not enough values to unpack (expected 2, got 1)")
  | (a, [b]) =>
      cols ← int_of_str a;
      rows ← int_of_str b;
      Ok (cols, rows)
  | (a, b :: c :: _) =>
      _ ← int_of_str a;
      _ ← int_of_str b;
      _ ← int_of_str c;
      Raise (ValueError "too many values to unpack (expected 2)")
  end.

(** [_get_resolution()] on the current text of the resolution combo box:
    [int(text.split("x")[0])]. *)
Definition get_resolution (text : string) : result Z :=
  int_of_str (Str.split "x" text).1.

End GridText.

(** The frame selector widget, as far as its methods read and write it. *)
Module FrameSelector.

(** What a slot of the grid layout shows: the thumbnail of a frame
    ([FrameThumbnail(index, path)]) or a numbered placeholder label. *)
Inductive Slot :=
| Thumbnail (index : Z) (path : Path)
| Placeholder (text : string).

(** [frames]; the current text of [grid_combo]; [thumbnails]; the widgets
    added to [grid_layout] with their (row, column), in the order they
    were added; the text of [frame_count_label]; whether [btn_generate] is
    enabled. *)
Record t := {
  frames : list Path;
  grid_combo : string;
  thumbnails : list (Z * Path);
  grid_layout : list (Z * Z * Slot);
  frame_count_label : string;
  btn_generate : bool
}.

Section Methods.

Variable int_of_str : string -> result Z.

(** [_update_frame_count()] *)
Definition update_frame_count (self : t) : result t :=
  '(cols, rows) ← get_grid_size int_of_str (grid_combo self);
  let total := cols * rows in
  Ok {| frames := frames self;
        grid_combo := grid_combo self;
        thumbnails := thumbnails self;
        grid_layout := grid_layout self;
        frame_count_label :=
          pretty (Z.of_nat (length (frames self))) +:+ "/" +:+ pretty total
          +:+ " frames";
        btn_generate := bool_decide (0 < Z.of_nat (length (frames self))) |}.

(** [_rebuild_grid()]: the old thumbnails and slots are dropped, then one
    slot per grid cell is added.  [frames[idx]] is read only under the test
    [idx < len(frames)], with [idx >= 0] from the range. *)
Definition rebuild_grid (self : t) : result t :=
  '(cols, rows) ← get_grid_size int_of_str (grid_combo self);
  let total_slots := cols * rows in
  '(thumbs, layout) ← Py.for_ (Py.range total_slots)
    (fun idx '(thumbs, layout) =>
       row ← Py.floordiv idx cols;
       col ← Py.mod_ idx cols;
       if idx <? Z.of_nat (length (frames self)) then
         let path := nth (Z.to_nat idx) (frames self) [] in
         Ok (thumbs ++ [(idx, path)],
             layout ++ [(row, col, Thumbnail idx path)])
       else
         Ok (thumbs, layout ++ [(row, col, Placeholder (pretty (idx + 1)))]))
    ([], []);
  update_frame_count
    {| frames := frames self;
       grid_combo := grid_combo self;
       thumbnails := thumbs;
       grid_layout := layout;
       frame_count_label := frame_count_label self;
       btn_generate := btn_generate self |}.

Definition with_frames (self : t) (frames' : list Path) : t :=
  {| frames := frames';
     grid_combo := grid_combo self;
     thumbnails := thumbnails self;
     grid_layout := grid_layout self;
     frame_count_label := frame_count_label self;
     btn_generate := btn_generate self |}.

(** [add_frame(path, frame_num)] *)
Definition add_frame (self : t) (path : Path) (frame_num : Z) : result t :=
  '(cols, rows) ← get_grid_size int_of_str (grid_combo self);
  let total_slots := cols * rows in
  if Z.of_nat (length (frames self)) <? total_slots then
    rebuild_grid (with_frames self (frames self ++ [path]))
  else Ok self.

(** [_on_thumbnail_clicked(index)] *)
Definition on_thumbnail_clicked (self : t) (index : Z) : result t :=
  if (0 <=? index) && (index <? Z.of_nat (length (frames self))) then
    rebuild_grid (with_frames self (delete (Z.to_nat index) (frames self)))
  else Ok self.

(** [clear_frames()] *)
Definition clear_frames (self : t) : result t :=
  rebuild_grid (with_frames self []).

End Methods.

End FrameSelector.

(** ** The image generation client ([src/core/genai_client.py]) *)

Module GenAI.

(** A part of a response: [part.text] and what [part.as_image()]
    returns. *)
Record Part := {
  text : option string;
  as_image : option Image
}.

(** [RESOLUTION_MAP] *)
Definition RESOLUTION_MAP : gmap Z string :=
  list_to_map [(1024, "1K"); (2048, "2K"); (4096, "4K")].

(** [MuovitiGenAI.MODEL] *)
Definition MODEL : string := "gemini-3-pro-image-preview".

Definition newline : string := String "010" EmptyString.

(** The default prompt of [generate_template]. *)
Definition template_prompt (cols rows : Z) : string :=
  "The first image is a "
  +:+ pretty cols
  +:+ "x"
  +:+ pretty rows
  +:+ " grid of reference keyframes showing a subject in various "
  +:+ "poses."
  +:+ newline
  +:+ "The second image is a generic character made of colored "
  +:+ "body parts."
  +:+ newline
  +:+ newline
  +:+ "Create a "
  +:+ pretty cols
  +:+ "x"
  +:+ pretty rows
  +:+ " sprite sheet grid. For each cell:"
  +:+ newline
  +:+ "1. Identify the pose and position of the main subject in "
  +:+ "the corresponding reference keyframe"
  +:+ newline
  +:+ "2. Draw the generic character in that EXACT same pose and "
  +:+ "position"
  +:+ newline
  +:+ "3. Match the limb positions precisely using the color-coded "
  +:+ "body parts:"
  +:+ newline
  +:+ "   - Light blue = head"
  +:+ newline
  +:+ "   - Orange = torso"
  +:+ newline
  +:+ "   - Green = right arm, Purple = left arm"
  +:+ newline
  +:+ "   - Yellow = right leg, Red = left leg"
  +:+ newline
  +:+ newline
  +:+ "The output grid must have the same layout as the reference "
  +:+ "- each cell's pose must match the corresponding reference "
  +:+ "cell exactly."
  +:+ newline
  +:+ newline
  +:+ "Pixel art, Gameboy Advance style, pixel perfect, clean "
  +:+ "edges, no anti-aliasing, white background per cell.".

(** The default output file name of [generate_template]:
    [f"template_{cols}x{rows}_{resolution}.png"]. *)
Definition template_name (cols rows resolution : Z) : string :=
  "template_" +:+ pretty cols +:+ "x" +:+ pretty rows +:+ "_"
  +:+ pretty resolution +:+ ".png".

(** [_save_response_image(response, output_path)] on the parts of the
    response: the first part without text that holds an image is written
    to [output_path].  (Directories are not part of the file store.) *)
Fixpoint save_response_image (fs : FileStore) (parts : list Part)
    (output_path : Path) : result (Path * FileStore) :=
  match parts with
  | [] => Raise (ValueError "No image in response")
  | part :: parts' =>
      match text part with
      | Some _ => save_response_image fs parts' output_path
      | None =>
          match as_image part with
          | Some image => Ok (output_path, <[output_path := image]> fs)
          | None => save_response_image fs parts' output_path
          end
      end
  end.

Section Client.

Variable lanczos : Image -> Z -> Z -> Z -> Z -> Pixel.

(** [config.WORKSPACE] *)
Variable WORKSPACE : Path.

(** [client.models.generate_content] with the model name, the prompt, the
    two images of the contents and the image size of the configuration:
    the parts of the response, or the exception the call raises. *)
Variable generate_content :
  string -> string -> Image -> Image -> string -> result (list Part).

(** [config.TEMPLATES_DIR] *)
Definition TEMPLATES_DIR : Path := path_join WORKSPACE "templates".

(** [generate_template(source_frames, generic_character, grid_size,
    resolution, prompt_override, output_path)], called without a progress
    callback. *)
Definition generate_template (fs : FileStore) (source_frames : list Path)
    (generic_character : Path) (grid_size : Z * Z) (resolution : Z)
    (prompt_override : option string) (output_path : option Path)
  : result (Path * FileStore) :=
  let '(cols, rows) := grid_size in
  reference_grid ←
    create_reference_grid lanczos fs source_frames cols rows resolution;
  let reference_path :=
    path_join (path_join WORKSPACE "temp") "reference_grid.png" in
  fs ← PIL.save fs reference_path reference_grid;
  generic_char_img ← PIL.open_ fs generic_character;
  let prompt :=
    match prompt_override with
    | Some p => if decide (p = "") then template_prompt cols rows else p
    | None => template_prompt cols rows
    end in
  let res_str := default "2K" (RESOLUTION_MAP !! resolution) in
  response ←
    generate_content MODEL prompt reference_grid generic_char_img res_str;
  let output_path :=
    match output_path with
    | Some p => p
    | None => path_join TEMPLATES_DIR (template_name cols rows resolution)
    end in
  save_response_image fs response output_path.

End Client.

End GenAI.

(** ** Notions used to state the properties *)

(** [int(s)] for a string of decimal digits, read from the left with the
    value so far in [acc]. *)
Fixpoint parse_decimal_from (acc : N) (s : string) : N :=
  match s with
  | EmptyString => acc
  | String c s' => parse_decimal_from (acc * 10 + (N_of_ascii c - 48))%N s'
  end.

Definition parse_decimal : string -> N := parse_decimal_from 0.

(** The character [d] does not occur in [s]. *)
Fixpoint lacks (d : ascii) (s : string) : Prop :=
  match s with
  | EmptyString => True
  | String c s' => c <> d /\ lacks d s'
  end.

(** The (row, col) pairs the nested loops of [slice_grid] visit, in the
    order they visit them. *)
Definition row_major (rows cols : Z) : list (Z * Z) :=
  r ← Py.range rows; pair r <$> Py.range cols.

(** The crop box [(left, upper, right, lower)] of the cell at (row, col). *)
Definition cell_box (cell_width cell_height row col : Z) : Z * Z * Z * Z :=
  (col * cell_width, row * cell_height,
   col * cell_width + cell_width, row * cell_height + cell_height).

(** The file [slice_grid] saves the cell at (row, col) to. *)
Definition cell_path (output_dir : Path) (rc : Z * Z) : Path :=
  path_join output_dir (frame_name rc.1 rc.2).


(** The rational [N / D] lies at the mantissa [m] with the location [l]:
    [m <= N / D < m + 1], and [l] tells whether it is [m] or on which side
    of [m + 1/2] it lies. *)
Definition located (N D m : Z) (l : location) : Prop :=
  0 < D /\ m * D <= N < (m + 1) * D /\
  match l with
  | loc_Exact => N = m * D
  | loc_Inexact c => N <> m * D /\ (2 * N ?= (2 * m + 1) * D) = c
  end.

Definition located_rec (N D : Z) (r : shr_record) : Prop :=
  0 <= shr_m r /\ located N D (shr_m r) (loc_of_shr_record r).

(** The sign bit of a float is [s] (a NaN has none). *)
Definition has_sign (s : bool) (x : Float.float) : Prop :=
  match x with
  | S754_zero s' | S754_infinity s' | S754_finite s' _ _ => s' = s
  | S754_nan => True
  end.

(** The pixel [(X, Y)] lies in the cell of index [i] of a grid with [cols]
    columns of [s]-by-[s] cells. *)
Definition in_cell (cols s i X Y : Z) : Prop :=
  i mod cols * s <= X < i mod cols * s + s /\
  i / cols * s <= Y < i / cols * s + s.

(** What a compositor loop keeps true of its canvas after [k] frames: the
    canvas keeps its mode and size, cell [i < k] holds the pixels
    [content i] gives for frame [i], and every pixel outside those cells
    still has the background colour. *)
Definition composed (m : Mode) (w h : Z) (background : Pixel)
    (content : Z -> Z -> Z -> option Pixel) (cols s k : Z) (grid : Image)
  : Prop :=
  mode grid = m /\ width grid = w /\ height grid = h /\
  (forall i x y p, 0 <= i < k -> 0 <= x < s -> 0 <= y < s ->
     content i x y = Some p ->
     pix grid (i mod cols * s + x) (i / cols * s + y) = p) /\
  (forall X Y, (forall i, 0 <= i < k -> ~ in_cell cols s i X Y) ->
     pix grid X Y = background).


(** The same in reference mode: the frame converted to [RGB], centre-cropped
    and resampled to [s] by [s]. *)
Definition reference_content (lanczos : Image -> Z -> Z -> Z -> Z -> Pixel)
    (fs : FileStore) (frames : list Path) (s : Z) (i x y : Z)
  : option Pixel :=
  match frames !! Z.to_nat i with
  | Some frame_path =>
      match PIL.open_ fs frame_path with
      | Ok frame =>
          match center_crop_square (PIL.convert frame RGB) with
          | Ok sq => Some (PIL.to_mode RGB RGB (lanczos sq s s x y))
          | Raise _ => None
          end
      | Raise _ => None
      end
  | None => None
  end.

(** What slot [idx] of the selector shows for the frame list [frames]. *)
Definition slot_of (frames : list Path) (idx : Z) : FrameSelector.Slot :=
  match frames !! Z.to_nat idx with
  | Some path => FrameSelector.Thumbnail idx path
  | None => FrameSelector.Placeholder (pretty (idx + 1))
  end.

(** The widgets of the selector show its frame list on a cols x rows
    grid: one slot per cell in row-major order, the frames first. *)
Definition shows (cols rows : Z) (self : FrameSelector.t) : Prop :=
  let frames := FrameSelector.frames self in
  FrameSelector.grid_layout self
  = (fun idx => (idx / cols, idx mod cols, slot_of frames idx))
    <$> Py.range (cols * rows) /\
  FrameSelector.thumbnails self
  = omap (fun idx => pair idx <$> frames !! Z.to_nat idx)
         (Py.range (cols * rows)) /\
  FrameSelector.frame_count_label self
  = pretty (Z.of_nat (length frames)) +:+ "/" +:+ pretty (cols * rows)
    +:+ " frames" /\
  FrameSelector.btn_generate self = bool_decide (frames <> []).

(** The selector is in step with its cols x rows grid text: the text
    parses, the frames fit the grid and the widgets show them. *)
Definition consistent (int_of_str : string -> result Z) (cols rows : Z)
    (self : FrameSelector.t) : Prop :=
  get_grid_size int_of_str (FrameSelector.grid_combo self) = Ok (cols, rows) /\
  Z.of_nat (length (FrameSelector.frames self)) <= Z.max 0 (cols * rows) /\
  shows cols rows self.

(** A part the saving loop passes over: it has text or holds no image. *)
Definition skipped (part : GenAI.Part) : Prop :=
  GenAI.text part <> None \/ GenAI.as_image part = None.

(** ** Concrete inputs for the examples *)

Module Demo.

(** A resampling filter to run the compositor with: nearest neighbour. *)
Definition nearest (im : Image) (w h x y : Z) : Pixel :=
  pix im (x * width im / w) (y * height im / h).

(** An image whose pixel at [(x, y)] is [(x, y, tag, 255)]. *)
Definition gradient (m : Mode) (w h tag : Z) : Image :=
  {| mode := m; width := w; height := h;
     pix := fun x y => (x, y, tag, 255) |}.

Definition frame_a : Path := ["frames"; "frame_0000.png"].
Definition frame_b : Path := ["frames"; "frame_0001.png"].
Definition frame_c : Path := ["frames"; "frame_0002.png"].
Definition sheet : Path := ["out"; "sheet.png"].
Definition tiny : Path := ["out"; "tiny.png"].
Definition cells : Path := ["out"; "cells"].

Definition store : FileStore :=
  <[frame_a := gradient RGB 1920 1080 1]>
  (<[frame_b := gradient RGB 640 480 2]>
  (<[frame_c := gradient RGBA 64 64 3]>
  (<[sheet := gradient RGBA 7 5 4]>
  (<[tiny := gradient RGBA 1 1 5]> ∅)))).

Definition fps_30 : Float.float := Float.literal 30 1.
Definition fps_29_97 : Float.float := Float.literal 2997 100.

End Demo.

(** ** Sample inputs for the video, selector and client code *)

Module Sample.

(** An [ffmpeg] that always succeeds and writes a 4x4 frame. *)
Definition ffmpeg (fs : FileStore) (video_path : Path) (time_sec : Float.float)
    (output : Path) : option FileStore :=
  Some (<[output := Demo.gradient RGB 4 4 0]> fs).

Definition format_3f (time_sec : Float.float) : string := "0.000".

Definition stem (p : Path) : string := default "" (last p).

Definition video : Path := ["videos"; "clip"].

Definition metadata : VideoMetadata.t :=
  {| VideoMetadata.path := video;
     VideoMetadata.duration := Float.literal 10 1;
     VideoMetadata.fps := Demo.fps_30;
     VideoMetadata.frame_count := 300;
     VideoMetadata.width := 1920;
     VideoMetadata.height := 1080 |}.

Definition player : MediaPlayer := {| playing := true; position := 4000 |}.

(** [int] on a string of decimal digits. *)
Definition int_decimal (s : string) : result Z := Ok (Z.of_N (parse_decimal s)).

(** The selector as it starts: no frames, a 2x2 grid of placeholders. *)
Definition selector : FrameSelector.t :=
  {| FrameSelector.frames := [];
     FrameSelector.grid_combo := "2x2";
     FrameSelector.thumbnails := [];
     FrameSelector.grid_layout :=
       [(0, 0, FrameSelector.Placeholder "1");
        (0, 1, FrameSelector.Placeholder "2");
        (1, 0, FrameSelector.Placeholder "3");
        (1, 1, FrameSelector.Placeholder "4")];
     FrameSelector.frame_count_label := "0/4 frames";
     FrameSelector.btn_generate := false |}.

(** A response of a text part followed by an image part. *)
Definition response : list GenAI.Part :=
  [ {| GenAI.text := Some "Here is the template.";
       GenAI.as_image := None |};
    {| GenAI.text := None;
       GenAI.as_image := Some (Demo.gradient RGB 32 32 9) |} ].

Definition generate_content (model prompt : string) (a b : Image)
    (image_size : string) : result (list GenAI.Part) :=
  Ok response.

Definition workspace : Path := ["workspace"].

End Sample.

(** * Properties *)

(** ** Geometry *)

Lemma floordiv_Ok (a b : Z) : b <> 0 -> Py.floordiv a b = Ok (a / b).
Proof.
  intros Hb. unfold Py.floordiv.
  destruct (Z.eqb_spec b 0); [contradiction | reflexivity].
Qed.

Lemma mod_Ok (a b : Z) : b <> 0 -> Py.mod_ a b = Ok (a mod b).
Proof.
  intros Hb. unfold Py.mod_.
  destruct (Z.eqb_spec b 0); [contradiction | reflexivity].
Qed.

(** C3: for cols, rows >= 1 and resolution > 0 the cell size c satisfies
    c * max(cols, rows) <= resolution < (c + 1) * max(cols, rows). *)
Theorem sprite_size_bounds (resolution cols rows : Z) :
  1 <= cols -> 1 <= rows -> 0 < resolution ->
  exists c, calculate_sprite_size resolution cols rows = Ok c /\
            c * Z.max cols rows <= resolution < (c + 1) * Z.max cols rows.
Proof.
  intros Hc Hr Hres. exists (resolution / Z.max cols rows).
  unfold calculate_sprite_size. rewrite floordiv_Ok by lia.
  split; [reflexivity |].
  pose proof (Z.div_mod resolution (Z.max cols rows) ltac:(lia)) as Hdm.
  pose proof (Z.mod_pos_bound resolution (Z.max cols rows) ltac:(lia)) as Hm.
  nia.
Qed.

Lemma sprite_size_bounds_witness :
  exists c, calculate_sprite_size 1000 3 2 = Ok c /\
            c * Z.max 3 2 <= 1000 < (c + 1) * Z.max 3 2.
Proof. apply (sprite_size_bounds 1000 3 2); lia. Defined.

(** C7, as stated, fails: with cols = 0 (< 1) and rows = 2 the function
    raises nothing and returns 512. *)
Lemma sprite_size_zero_cols_returns :
  (0 < 1 \/ 2 < 1) /\ calculate_sprite_size 1024 0 2 = Ok 512.
Proof. split; [left; lia | reflexivity]. Qed.

(** C7, amended: [calculate_sprite_size] does not validate cols and rows.
    It returns resolution // max(cols, rows) whenever max(cols, rows) is not
    zero, divisible or not (in particular for cols, rows >= 1, where the
    result is the floor of the quotient), and raises [ZeroDivisionError]
    exactly when max(cols, rows) = 0. *)
Theorem sprite_size_floor_division (resolution cols rows : Z) :
  (Z.max cols rows <> 0 ->
     calculate_sprite_size resolution cols rows
     = Ok (resolution / Z.max cols rows)) /\
  (Z.max cols rows = 0 ->
     calculate_sprite_size resolution cols rows = Raise ZeroDivisionError) /\
  (1 <= cols -> 1 <= rows ->
     exists c, calculate_sprite_size resolution cols rows = Ok c /\
               c = resolution / Z.max cols rows /\
               resolution = c * Z.max cols rows
                            + resolution mod Z.max cols rows /\
               0 <= resolution mod Z.max cols rows < Z.max cols rows).
Proof.
  unfold calculate_sprite_size. split; [| split].
  - apply floordiv_Ok.
  - intros ->. reflexivity.
  - intros Hc Hr. eexists. rewrite floordiv_Ok by lia.
    split; [reflexivity |]. split; [reflexivity |].
    pose proof (Z.div_mod resolution (Z.max cols rows) ltac:(lia)).
    pose proof (Z.mod_pos_bound resolution (Z.max cols rows) ltac:(lia)).
    split; lia.
Qed.

Lemma sprite_size_floor_division_witness :
  calculate_sprite_size 1000 0 3 = Ok 333 /\
  calculate_sprite_size 1000 0 0 = Raise ZeroDivisionError /\
  exists c, calculate_sprite_size 1000 3 2 = Ok c /\ c = 333.
Proof.
  destruct (sprite_size_floor_division 1000 0 3) as [H1 _].
  destruct (sprite_size_floor_division 1000 0 0) as [_ [H2 _]].
  destruct (sprite_size_floor_division 1000 3 2) as [_ [_ H3]].
  split; [exact (H1 ltac:(discriminate)) |].
  split; [exact (H2 eq_refl) |].
  destruct (H3 ltac:(lia) ltac:(lia)) as [c [Hc [Hq _]]].
  exists c. split; [exact Hc | exact Hq].
Defined.

(** ** Frame/time mapping *)

Lemma Qle_bool_0_inject_Z (z : Z) : Qle_bool 0 (inject_Z z) = (0 <=? z).
Proof. unfold Qle_bool. cbn. f_equal. lia. Qed.

Lemma Qle_bool_0_Qmake (n : Z) (d : positive) :
  Qle_bool 0 (Qmake n d) = (0 <=? n).
Proof. unfold Qle_bool. cbn. f_equal. lia. Qed.

(** [int(x)] is the floor of a non-negative float and the ceiling of a
    negative one. *)
Lemma int_rounds_towards_zero (x : Float.float) :
  Float.is_finite x = true ->
  Float.int_ x = Ok (if Qle_bool 0 (Float.to_Q x)
                     then Qfloor (Float.to_Q x)
                     else Qceiling (Float.to_Q x)).
Proof.
  destruct x as [s | s | | s m e]; try discriminate; intros _.
  { reflexivity. }
  unfold Float.int_, Float.to_Q.
  assert (Hnonneg : 0 <= e ->
    Ok (if s then - Z.shiftl (Z.pos m) e else Z.shiftl (Z.pos m) e)
    = Ok (let q := inject_Z ((if s then Z.neg m else Z.pos m) * 2 ^ e) in
          if Qle_bool 0 q then Qfloor q else Qceiling q)).
  { intros He. cbv zeta. rewrite Qle_bool_0_inject_Z, Qfloor_Z, Qceiling_Z.
    rewrite Z.shiftl_mul_pow2 by lia.
    assert (0 < 2 ^ e) by (apply Z.pow_pos_nonneg; lia).
    destruct s.
    - destruct (Z.leb_spec 0 (Z.neg m * 2 ^ e)); f_equal; nia.
    - destruct (Z.leb_spec 0 (Z.pos m * 2 ^ e)); f_equal; nia. }
  destruct e as [| p | p].
  - apply Hnonneg. lia.
  - apply Hnonneg. lia.
  - rewrite Qle_bool_0_Qmake. rewrite Z.shiftr_div_pow2 by lia.
    rewrite <- Pos2Z.inj_pow.
    destruct s; cbn [Z.leb Z.compare]; unfold Qceiling, Qfloor, Qopp;
      cbn [Qnum Qden Z.opp]; reflexivity.
Qed.

(** C8, as stated, fails: with fps = -1.0 both converters return a value
    ([int(2.5 * -1.0) = -2] and [1 / -1.0 = -1.0]), and with fps = 0.0
    [time_to_frame] returns 0. *)
Lemma time_mapper_accepts_non_positive_fps :
  Float.positive (Float.literal (-1) 1) = false /\
  Float.positive (Float.literal 0 1) = false /\
  time_to_frame (Float.literal 25 10) (Float.literal (-1) 1) = Ok (-2) /\
  frame_to_time 1 (Float.literal (-1) 1) = Ok (Float.literal (-1) 1) /\
  time_to_frame (Float.literal 25 10) (Float.literal 0 1) = Ok 0.
Proof. vm_compute. repeat split. Qed.

(** C8, amended: neither converter checks the sign of fps.
    [time_to_frame] returns [int(timestamp * fps)] for every fps whose
    product with the timestamp is finite: the floor of the product when it
    is non-negative, its ceiling otherwise.  [frame_to_time] returns
    [frameIndex / fps] for every non-zero fps, negative ones included, and
    raises [ZeroDivisionError] for fps = 0. *)
Theorem time_mapper_spec (time_sec fps : Float.float) (frame_num : Z)
    (x : Float.float) :
  Float.is_finite (Float.mul time_sec fps) = true ->
  Float.of_int frame_num = Ok x ->
  let p := Float.to_Q (Float.mul time_sec fps) in
  time_to_frame time_sec fps
    = Ok (if Qle_bool 0 p then Qfloor p else Qceiling p) /\
  frame_to_time frame_num fps
    = (if Float.is_zero fps then Raise ZeroDivisionError
       else Ok (SFdiv Float.prec Float.emax x fps)).
Proof.
  intros Hfin Hx p. split.
  - unfold time_to_frame. apply int_rounds_towards_zero, Hfin.
  - unfold frame_to_time. rewrite Hx. reflexivity.
Qed.

Lemma time_mapper_spec_witness :
  time_to_frame (Float.literal 25 10) Demo.fps_30 = Ok 75 /\
  frame_to_time 75 Demo.fps_30 = Ok (Float.literal 25 10).
Proof.
  exact (time_mapper_spec (Float.literal 25 10) Demo.fps_30 75
           (Float.literal 75 1) eq_refl eq_refl).
Defined.

(** C6, as stated, fails: at fps = 30.0 and f = 123 the quotient 123 / 30
    rounds to 4.1 and 4.1 * 30 rounds to a float just below 123, so the
    round trip returns 122; at fps = 29.97 it returns 60 for f = 61. *)
Lemma frame_round_trip_drifts :
  Float.positive Demo.fps_30 = true /\
  0 <= 123 /\
  frame_round_trip 123 Demo.fps_30 = Ok 122 /\
  Float.positive Demo.fps_29_97 = true /\
  frame_round_trip 61 Demo.fps_29_97 = Ok 60.
Proof. vm_compute. repeat split; discriminate. Qed.

Lemma binary_round_aux_sign (s : bool) (m e : Z) (l : location) :
  has_sign s (binary_round_aux Float.prec Float.emax s m e l).
Proof.
  unfold binary_round_aux.
  destruct (shr_fexp _ _ m e l) as [mrs' e'].
  destruct (shr_fexp _ _ _ e' loc_Exact) as [mrs'' e''].
  destruct (shr_m mrs''); cbn; [reflexivity | | exact I].
  destruct (e'' <=? _); reflexivity.
Qed.

Lemma mul_sign (a b : bool) (x y : Float.float) :
  has_sign a x -> has_sign b y -> has_sign (xorb a b) (Float.mul x y).
Proof.
  destruct x, y; cbn; intros; subst; try reflexivity; try exact I.
  apply binary_round_aux_sign.
Qed.

Lemma div_sign (a b : bool) (x y : Float.float) :
  has_sign a x -> has_sign b y ->
  has_sign (xorb a b) (SFdiv Float.prec Float.emax x y).
Proof.
  destruct x, y; cbn -[SFdiv_core_binary]; intros; subst;
    try reflexivity; try exact I.
  destruct (SFdiv_core_binary _ _ _ _ _ _) as [[mz ez] lz].
  apply binary_round_aux_sign.
Qed.

Lemma of_int_sign (n : Z) (x : Float.float) :
  0 <= n -> Float.of_int n = Ok x -> has_sign false x.
Proof.
  intros Hn. unfold Float.of_int, binary_normalize.
  destruct n as [| p | p]; [| | lia].
  - intros [= <-]. reflexivity.
  - unfold binary_round.
    destruct (shl_align _ _ _) as [mz ez].
    pose proof (binary_round_aux_sign false (Z.pos mz) ez loc_Exact) as Hs.
    destruct (binary_round_aux _ _ _ _ _ _); intros [= <-]; exact Hs.
Qed.

Lemma has_sign_twice (s : bool) (x : Float.float) :
  has_sign (xorb (xorb false s) s) x -> Qle_bool 0 (Float.to_Q x) = true.
Proof.
  replace (xorb (xorb false s) s) with false by (destruct s; reflexivity).
  destruct x as [| | | s' m e]; try reflexivity.
  cbn. intros ->. destruct e.
  - rewrite Qle_bool_0_inject_Z. apply Z.leb_le. lia.
  - rewrite Qle_bool_0_inject_Z. apply Z.leb_le. lia.
  - reflexivity.
Qed.

Lemma has_some_sign (x : Float.float) : exists s, has_sign s x.
Proof.
  destruct x as [s | s | | s m e]; try (exists s; reflexivity).
  exists true. exact I.
Qed.

(** The float [(f / fps) * fps] is never negative for f >= 0. *)
Lemma round_trip_product_nonneg (f : Z) (fps t : Float.float) :
  0 <= f -> frame_to_time f fps = Ok t ->
  Qle_bool 0 (Float.to_Q (Float.mul t fps)) = true.
Proof.
  intros Hf. unfold frame_to_time.
  destruct (Float.of_int f) as [x |] eqn:Hx; [| discriminate].
  cbn [mbind result_bind]. unfold Float.truediv.
  destruct (Float.is_zero fps); [discriminate |]. intros [= <-].
  destruct (has_some_sign fps) as [s Hs].
  apply (has_sign_twice s), mul_sign; [| exact Hs].
  apply div_sign; [| exact Hs]. eapply of_int_sign; eassumption.
Qed.

(** ** Rounding error of the round trip *)

Lemma compare_eq_spec (a b : Z) (c : comparison) :
  (a ?= b) = c <->
  match c with Lt => a < b | Eq => a = b | Gt => b < a end.
Proof.
  destruct c.
  - apply Z.compare_eq_iff.
  - apply Z.compare_lt_iff.
  - apply Z.compare_gt_iff.
Qed.

Lemma shr_1_located (N D : Z) (r : shr_record) :
  located_rec N D r -> located_rec N (2 * D) (shr_1 r).
Proof.
  destruct r as [m rb sb]. unfold located_rec, located.
  cbn [shr_m loc_of_shr_record].
  intros (Hm0 & HD & Hm & Hl).
  assert (Hcases : exists k b, m = 2 * k + Z.b2z b /\ 0 <= k /\
            shr_1 {| shr_m := m; shr_r := rb; shr_s := sb |}
            = {| shr_m := k; shr_r := b; shr_s := rb || sb |}).
  { destruct m as [| p | p]; [| | lia].
    - exists 0, false. repeat split; try lia.
    - destruct p as [p | p |].
      + exists (Z.pos p), true. rewrite Pos2Z.inj_xI. cbn [Z.b2z].
        repeat split; lia.
      + exists (Z.pos p), false. rewrite Pos2Z.inj_xO. cbn [Z.b2z].
        repeat split; lia.
      + exists 0, true. repeat split; lia. }
  destruct Hcases as (k & b & -> & Hk & ->). cbn [shr_m].
  split; [exact Hk |]. split; [lia |].
  assert (HkD : (2 * k + Z.b2z b) * D = 2 * (k * D) + Z.b2z b * D) by ring.
  assert (HkD1 : (2 * k + Z.b2z b + 1) * D
                 = 2 * (k * D) + Z.b2z b * D + D) by ring.
  assert (HkD2 : (2 * (2 * k + Z.b2z b) + 1) * D
                 = 4 * (k * D) + 2 * (Z.b2z b * D) + D) by ring.
  assert (Hk2 : k * (2 * D) = 2 * (k * D)) by ring.
  assert (Hk3 : (k + 1) * (2 * D) = 2 * (k * D) + 2 * D) by ring.
  assert (Hk4 : (2 * k + 1) * (2 * D) = 4 * (k * D) + 2 * D) by ring.
  rewrite HkD, HkD1 in Hm. rewrite Hk2, Hk3, Hk4.
  set (KD := k * D) in *.
  destruct b; cbn [Z.b2z] in *; rewrite ?Z.mul_1_l, ?Z.mul_0_l, ?Z.add_0_r in *.
  - split; [lia |].
    destruct rb, sb; cbn [orb loc_of_shr_record] in *;
      rewrite ?HkD, ?HkD2 in Hl; cbn [Z.b2z] in Hl;
      rewrite ?Z.mul_1_l in Hl; fold KD in Hl;
      try match type of Hl with _ /\ _ => destruct Hl as [? Hl] end;
      try rewrite compare_eq_spec in Hl;
      (split; [lia | rewrite compare_eq_spec; lia]).
  - split; [lia |].
    destruct rb, sb; cbn [orb loc_of_shr_record] in *;
      rewrite ?HkD, ?HkD2 in Hl; cbn [Z.b2z] in Hl;
      rewrite ?Z.mul_0_l, ?Z.add_0_r in Hl; fold KD in Hl;
      try match type of Hl with _ /\ _ => destruct Hl as [? Hl] end;
      try rewrite compare_eq_spec in Hl;
      try lia; (split; [lia | rewrite compare_eq_spec; lia]).
Qed.

Lemma iter_shr_1_located (p : positive) :
  forall N D r, located_rec N D r ->
    located_rec N (D * 2 ^ Z.pos p) (SpecFloat.iter_pos shr_1 p r).
Proof.
  induction p as [p IH | p IH |]; intros N D r Hr; cbn [SpecFloat.iter_pos].
  - apply shr_1_located in Hr. apply IH, IH in Hr.
    assert (H : 2 ^ Z.pos p~1 = 2 * 2 ^ Z.pos p * 2 ^ Z.pos p).
    { rewrite <- Z.mul_assoc, <- Z.pow_add_r, <- Z.pow_succ_r by lia.
      f_equal. lia. }
    rewrite H.
    replace (D * (2 * 2 ^ Z.pos p * 2 ^ Z.pos p))
      with (2 * D * 2 ^ Z.pos p * 2 ^ Z.pos p) by ring.
    exact Hr.
  - apply IH, IH in Hr.
    assert (H : 2 ^ Z.pos p~0 = 2 ^ Z.pos p * 2 ^ Z.pos p).
    { rewrite <- Z.pow_add_r by lia. f_equal. lia. }
    rewrite H, Z.mul_assoc. exact Hr.
  - apply shr_1_located in Hr. rewrite Z.pow_1_r, Z.mul_comm. exact Hr.
Qed.

Lemma shr_located (N D : Z) (r : shr_record) (e n : Z) :
  located_rec N D r ->
  located_rec N (D * 2 ^ Z.max 0 n) (fst (shr r e n)) /\
  snd (shr r e n) = e + Z.max 0 n.
Proof.
  intros Hr. destruct n as [| p | p]; cbn [shr fst snd].
  - rewrite Z.max_id, Z.pow_0_r, Z.mul_1_r, Z.add_0_r.
    split; [exact Hr | reflexivity].
  - rewrite Z.max_r by lia. split; [| reflexivity].
    apply iter_shr_1_located, Hr.
  - rewrite Z.max_l by lia. rewrite Z.pow_0_r, Z.mul_1_r, Z.add_0_r.
    split; [exact Hr | reflexivity].
Qed.

Lemma digits2_pos_bounds (p : positive) :
  2 ^ (Z.pos (digits2_pos p) - 1) <= Z.pos p < 2 ^ Z.pos (digits2_pos p).
Proof.
  induction p as [p IH | p IH |]; cbn [digits2_pos].
  - rewrite Pos2Z.inj_succ. pose proof (Pos2Z.inj_xI p) as Hp.
    replace (Z.succ (Z.pos (digits2_pos p)) - 1)
      with (Z.pos (digits2_pos p)) by lia.
    rewrite Z.pow_succ_r by lia.
    assert (H : 2 ^ Z.pos (digits2_pos p)
                = 2 * 2 ^ (Z.pos (digits2_pos p) - 1)).
    { rewrite <- Z.pow_succ_r by lia. f_equal. lia. }
    lia.
  - rewrite Pos2Z.inj_succ. pose proof (Pos2Z.inj_xO p) as Hp.
    replace (Z.succ (Z.pos (digits2_pos p)) - 1)
      with (Z.pos (digits2_pos p)) by lia.
    rewrite Z.pow_succ_r by lia.
    assert (H : 2 ^ Z.pos (digits2_pos p)
                = 2 * 2 ^ (Z.pos (digits2_pos p) - 1)).
    { rewrite <- Z.pow_succ_r by lia. f_equal. lia. }
    lia.
  - cbn. lia.
Qed.

Lemma Zdigits2_bounds (m : Z) :
  0 < m -> 0 < Zdigits2 m /\ 2 ^ (Zdigits2 m - 1) <= m < 2 ^ Zdigits2 m.
Proof.
  destruct m as [| p | p]; try lia. intros _. cbn [Zdigits2].
  split; [lia | apply digits2_pos_bounds].
Qed.

Lemma Zdigits2_nonneg (m : Z) : 0 <= m -> 0 <= Zdigits2 m.
Proof. destruct m; cbn; lia. Qed.

Lemma Zdigits2_le (m k : Z) : 0 <= k -> 0 <= m < 2 ^ k -> Zdigits2 m <= k.
Proof.
  intros Hk [Hm0 Hm].
  destruct (Z.eq_dec m 0) as [-> | Hne]; [cbn; lia |].
  destruct (Zdigits2_bounds m ltac:(lia)) as (Hd & Hlo & _).
  destruct (Z.le_gt_cases (Zdigits2 m) k) as [| Hgt]; [assumption |].
  assert (2 ^ k <= 2 ^ (Zdigits2 m - 1)) by (apply Z.pow_le_mono_r; lia).
  lia.
Qed.

Lemma round_nearest_even_located (N D m : Z) (l : location) :
  located N D m l ->
  let mr := round_nearest_even m l in
  m <= mr <= m + 1 /\ 2 * Z.abs (mr * D - N) <= D.
Proof.
  unfold located. intros (HD & Hm & Hl). cbn zeta.
  assert (H1 : (m + 1) * D = m * D + D) by ring.
  assert (H2 : (2 * m + 1) * D = 2 * (m * D) + D) by ring.
  rewrite H1 in Hm. rewrite H2 in Hl. 
  destruct l as [| c]; cbn [round_nearest_even].
  - split; [lia |]. rewrite Hl, Z.sub_diag. cbn. lia.
  - destruct Hl as [Hne Hc]. rewrite compare_eq_spec in Hc.
    destruct c.
    + destruct (Z.even m); (split; [lia |]); rewrite ?H1; lia.
    + split; [lia |]. lia.
    + split; [lia |]. rewrite H1. lia.
Qed.

Lemma fexp_eq (e : Z) :
  fexp Float.prec Float.emax e = Z.max (e - 53) (-1074).
Proof. reflexivity. Qed.

Lemma shr_record_of_loc_located (N D m : Z) (l : location) :
  0 <= m -> located N D m l -> located_rec N D (shr_record_of_loc m l).
Proof.
  intros Hm Hl. unfold located_rec.
  destruct l as [| []]; cbn; split; assumption.
Qed.

Lemma shr_nonpos (r : shr_record) (e n : Z) : n <= 0 -> shr r e n = (r, e).
Proof. destruct n; try reflexivity; lia. Qed.

Lemma shr_1_double (k : positive) :
  shr_1 {| shr_m := Z.pos k~0; shr_r := false; shr_s := false |}
  = {| shr_m := Z.pos k; shr_r := false; shr_s := false |}.
Proof. reflexivity. Qed.

(** What [binary_round_aux] returns for a non-negative mantissa [m] at
    exponent [e] that stands, with its location, for the rational
    [N / D * 2 ^ e]: a mantissa [mr] at the exponent [e1] within half a
    unit of [e1] of that rational. *)
Lemma round_aux_spec (m e N D : Z) (l : location) :
  0 <= m -> located N D m l ->
  let e1 := Z.max e (fexp Float.prec Float.emax (Zdigits2 m + e)) in
  exists mr,
    0 <= mr <= 2 ^ 53 /\
    2 * Z.abs (mr * (D * 2 ^ (e1 - e)) - N) <= D * 2 ^ (e1 - e) /\
    binary_round_aux Float.prec Float.emax false m e l
    = if mr =? 0 then S754_zero false
      else if mr =? 2 ^ 53
      then if e1 + 1 <=? 971
           then S754_finite false (2 ^ 52)%positive (e1 + 1)
           else S754_infinity false
      else if e1 <=? 971 then S754_finite false (Z.to_pos mr) e1
           else S754_infinity false.
Proof.
  intros Hm Hl e1.
  pose proof (Zdigits2_nonneg m Hm) as Hd0.
  set (d := Zdigits2 m) in *.
  assert (He1 : e1 = e + Z.max 0 (fexp Float.prec Float.emax (d + e) - e))
    by (unfold e1; lia).
  assert (Hemin : -1074 <= e1) by (unfold e1; rewrite fexp_eq; lia).
  assert (Hk : d - 53 <= e1 - e) by (unfold e1; rewrite fexp_eq; lia).
  assert (Hk0 : 0 <= e1 - e) by (unfold e1; lia).
  unfold binary_round_aux, shr_fexp. fold d.
  destruct (shr_located N D (shr_record_of_loc m l) e
              (fexp Float.prec Float.emax (d + e) - e)
              (shr_record_of_loc_located N D m l Hm Hl)) as [Hloc He].
  destruct (shr (shr_record_of_loc m l) e _) as [r1 e1'].
  cbn [fst snd] in Hloc, He. rewrite <- He1 in He. subst e1'.
  replace (Z.max 0 (fexp Float.prec Float.emax (d + e) - e)) with (e1 - e)
    in Hloc by lia.
  destruct Hloc as [Hm1 Hloc].
  set (m1 := shr_m r1) in *. set (D1 := D * 2 ^ (e1 - e)) in *.
  destruct (round_nearest_even_located N D1 m1 _ Hloc) as [Hmr Herr].
  set (mr := round_nearest_even m1 (loc_of_shr_record r1)) in *.
  assert (HD : 0 < D) by (destruct Hl as [HD _]; exact HD).
  assert (Hpow : 0 < 2 ^ (e1 - e)) by (apply Z.pow_pos_nonneg; lia).
  assert (Hm1lt : m1 < 2 ^ 53).
  { destruct (Z.lt_ge_cases m1 (2 ^ 53)) as [| Hge]; [assumption | exfalso].
    destruct Hloc as (_ & [Hlo _] & _). destruct Hl as (_ & [_ Hhi] & _).
    assert (Hmd : m + 1 <= 2 ^ d).
    { destruct (Z.eq_dec m 0) as [-> | Hne].
      - pose proof (Z.pow_pos_nonneg 2 d ltac:(lia) Hd0). lia.
      - destruct (Zdigits2_bounds m ltac:(lia)) as (_ & _ & H). fold d in H.
        lia. }
    assert (H1 : 2 ^ d <= 2 ^ (53 + (e1 - e)))
      by (apply Z.pow_le_mono_r; lia).
    rewrite Z.pow_add_r in H1 by lia.
    assert (H2 : 2 ^ 53 * 2 ^ (e1 - e) <= m1 * 2 ^ (e1 - e))
      by (apply Z.mul_le_mono_nonneg_r; lia).
    assert (H3 : (m + 1) * D <= m1 * 2 ^ (e1 - e) * D)
      by (apply Z.mul_le_mono_nonneg_r; lia).
    unfold D1 in Hlo. lia. }
  exists mr. split; [lia |]. split; [exact Herr |].
  destruct (Z.eqb_spec mr 0) as [Hz | Hnz].
  - rewrite Hz. cbn [Zdigits2 shr_record_of_loc].
    rewrite shr_nonpos by (rewrite fexp_eq; lia). reflexivity.
  - destruct (Z.eqb_spec mr (2 ^ 53)) as [Hc | Hnc].
    + rewrite Hc. change (Zdigits2 (2 ^ 53)) with 54.
      replace (fexp Float.prec Float.emax (54 + e1) - e1) with 1
        by (rewrite fexp_eq; lia).
      change (2 ^ 53) with (Z.pos (2 ^ 52)~0).
      cbn [shr shr_record_of_loc SpecFloat.iter_pos]. rewrite shr_1_double.
      cbn [shr_m]. reflexivity.
    + assert (Hdr : Zdigits2 mr <= 53) by (apply Zdigits2_le; lia).
      pose proof (Zdigits2_nonneg mr ltac:(lia)).
      rewrite shr_nonpos by (rewrite fexp_eq; lia).
      cbn [shr_record_of_loc shr_m].
      destruct mr as [| p | p]; [lia | reflexivity | lia].
Qed.

Lemma pow2_pos (e : Z) : (0 < 2 ^ e)%Q.
Proof. apply Qpower_0_lt. reflexivity. Qed.

Lemma pow2_add (a b : Z) : (2 ^ (a + b) == 2 ^ a * 2 ^ b)%Q.
Proof. apply Qpower_plus. discriminate. Qed.

Lemma pow2_le (a b : Z) : a <= b -> (2 ^ a <= 2 ^ b)%Q.
Proof. intros H. apply Qpower_le_compat_l; [exact H | discriminate]. Qed.

Lemma pow2_inject (k : Z) : 0 <= k -> (inject_Z (2 ^ k) == 2 ^ k)%Q.
Proof. intros Hk. apply (Zpower_Qpower 2 k Hk). Qed.

Lemma pow2_half (e : Z) : (2 ^ e == 2 * 2 ^ (e - 1))%Q.
Proof.
  replace e with (1 + (e - 1)) at 1 by lia. rewrite pow2_add. reflexivity.
Qed.

(** The value of a non-negative finite float. *)
Lemma to_Q_finite (p : positive) (e : Z) :
  (Float.to_Q (S754_finite false p e) == inject_Z (Z.pos p) * 2 ^ e)%Q.
Proof.
  unfold Float.to_Q. destruct e as [| n | n].
  - rewrite Z.pow_0_r, Z.mul_1_r. cbn [Qpower]. ring.
  - rewrite inject_Z_mult, pow2_inject by lia. reflexivity.
  - change (2 ^ Z.neg n)%Q with (/ (2 ^ Z.pos n))%Q.
    rewrite <- pow2_inject by lia. rewrite Qmake_Qdiv.
    rewrite Pos2Z.inj_pow. reflexivity.
Qed.

Lemma round_aux_value (m e N D : Z) (l : location) :
  0 <= m -> located N D m l ->
  let e1 := Z.max e (fexp Float.prec Float.emax (Zdigits2 m + e)) in
  let x := binary_round_aux Float.prec Float.emax false m e l in
  exists mr,
    0 <= mr /\
    2 * Z.abs (mr * (D * 2 ^ (e1 - e)) - N) <= D * 2 ^ (e1 - e) /\
    (Float.is_finite x = true ->
     (Float.to_Q x == inject_Z mr * 2 ^ e1)%Q).
Proof.
  intros Hm Hl e1 x.
  destruct (round_aux_spec m e N D l Hm Hl) as (mr & Hmr & Herr & Hx).
  fold e1 in Herr, Hx. fold x in Hx.
  exists mr. split; [lia |]. split; [exact Herr |].
  rewrite Hx. destruct (Z.eqb_spec mr 0) as [-> | Hnz].
  - intros _. cbn [Float.to_Q]. change (inject_Z 0) with 0%Q. ring.
  - destruct (Z.eqb_spec mr (2 ^ 53)) as [-> | Hnc].
    + destruct (e1 + 1 <=? 971); [| discriminate]. intros _.
      rewrite to_Q_finite, pow2_add.
      change (2 ^ 1)%Q with 2%Q.
      change (inject_Z (Z.pos (2 ^ 52))) with (inject_Z (2 ^ 52)).
      change (inject_Z (2 ^ 53)) with (inject_Z (2 * 2 ^ 52)).
      rewrite inject_Z_mult. change (inject_Z 2) with 2%Q. ring.
    + destruct (e1 <=? 971); [| discriminate]. intros _.
      rewrite to_Q_finite, Z2Pos.id by lia. reflexivity.
Qed.

Lemma half_ulp (mr N D e e1 : Z) :
  0 < D -> e <= e1 ->
  2 * Z.abs (mr * (D * 2 ^ (e1 - e)) - N) <= D * 2 ^ (e1 - e) ->
  (Qabs (inject_Z mr * 2 ^ e1 - inject_Z N / inject_Z D * 2 ^ e)
   <= 2 ^ (e1 - 1))%Q.
Proof.
  intros HD He Herr.
  assert (Hk : (2 ^ e1 == 2 ^ e * inject_Z (2 ^ (e1 - e)))%Q).
  { rewrite pow2_inject by lia. rewrite <- pow2_add.
    replace (e + (e1 - e)) with e1 by lia. reflexivity. }
  assert (Hh : (2 ^ (e1 - 1) == 2 ^ e * inject_Z (2 ^ (e1 - e)) * (1 # 2))%Q).
  { rewrite <- Hk, (pow2_half e1). field. }
  rewrite Hh, Hk.
  set (K := 2 ^ (e1 - e)) in *.
  assert (HK : 0 < K) by (apply Z.pow_pos_nonneg; lia).
  pose proof (pow2_pos e) as Ha. set (a := (2 ^ e)%Q) in *.
  assert (HDq : (0 < inject_Z D)%Q) by (rewrite <- (Zlt_Qlt 0); exact HD).
  assert (Hlo : - (D * K) <= 2 * (mr * (D * K) - N)) by lia.
  assert (Hhi : 2 * (mr * (D * K) - N) <= D * K) by lia.
  rewrite Zle_Qle in Hlo. rewrite Zle_Qle in Hhi.
  unfold Z.sub in Hlo, Hhi.
  repeat first [ rewrite inject_Z_mult in Hlo | rewrite inject_Z_plus in Hlo
               | rewrite inject_Z_opp in Hlo ].
  repeat first [ rewrite inject_Z_mult in Hhi | rewrite inject_Z_plus in Hhi
               | rewrite inject_Z_opp in Hhi ].
  change (inject_Z 2) with 2%Q in Hlo, Hhi.
  set (dq := inject_Z D) in *. set (k := inject_Z K) in *.
  set (n := inject_Z N) in *. set (r := inject_Z mr) in *.
  assert (Hn : (n == n / dq * dq)%Q)
    by (field; apply Qnot_eq_sym, Qlt_not_eq; exact HDq).
  set (y := (n / dq)%Q) in *.
  assert (H1 : (- k <= 2 * (r * k - y))%Q) by nra.
  assert (H2 : (2 * (r * k - y) <= k)%Q) by nra.
  apply Qabs_Qle_condition. split; nra.
Qed.

(** Rounding to nearest: the error of [binary_round_aux] relative to the
    rational it rounds, when the mantissa is exact or long enough for its
    exponent. *)
Lemma round_aux_error (m e N D : Z) (l : location) :
  0 <= m -> located N D m l ->
  l = loc_Exact \/ e <= fexp Float.prec Float.emax (Zdigits2 m + e) ->
  let v := (inject_Z N / inject_Z D * 2 ^ e)%Q in
  let x := binary_round_aux Float.prec Float.emax false m e l in
  Float.is_finite x = true ->
  (0 <= v /\ Qabs (Float.to_Q x - v) <= v * 2 ^ (-53) + 2 ^ (-1075))%Q.
Proof.
  intros Hm Hl Hcase v x Hfin.
  destruct (round_aux_value m e N D l Hm Hl) as (mr & Hmr & Herr & Hval).
  specialize (Hval Hfin). fold x in Hval.
  set (e1 := Z.max e (fexp Float.prec Float.emax (Zdigits2 m + e))) in *.
  pose proof Hl as (HD & [Hlo Hhi] & Hloc).
  assert (HDq : (0 < inject_Z D)%Q) by (rewrite <- (Zlt_Qlt 0); exact HD).
  pose proof (pow2_pos e) as Ha.
  assert (Hmv : (inject_Z m * 2 ^ e <= v)%Q).
  { unfold v. apply Qmult_le_compat_r; [| apply Qlt_le_weak, Ha].
    apply Qle_shift_div_l; [exact HDq |].
    rewrite <- inject_Z_mult, <- Zle_Qle. exact Hlo. }
  assert (Hv : (0 <= v)%Q).
  { eapply Qle_trans; [| exact Hmv].
    apply Qmult_le_0_compat; [| apply Qlt_le_weak, Ha].
    rewrite <- (Zle_Qle 0). exact Hm. }
  split; [exact Hv |].
  pose proof (pow2_pos (-53)) as Hu. pose proof (pow2_pos (-1075)) as Hs.
  rewrite fexp_eq in Hcase.
  assert (He1 : e1 = Z.max e (Z.max (Zdigits2 m + e - 53) (-1074)))
    by (unfold e1; rewrite fexp_eq; reflexivity).
  pose proof (Zdigits2_nonneg m Hm) as Hd0.
  destruct (Z.lt_ge_cases (Z.max (Zdigits2 m + e - 53) (-1074)) e)
    as [Hshort | Hlong].
  - (* no shift: the mantissa is exact *)
    destruct Hcase as [-> | Hcase]; [| lia].
    assert (Hee : e1 - e = 0) by lia. rewrite Hee, Z.pow_0_r, Z.mul_1_r in Herr.
    assert (Hmm : mr = m) by nia. subst mr.
    assert (Heq : (Float.to_Q x == v)%Q).
    { rewrite Hval. unfold v. replace e1 with e by lia.
      rewrite Hloc, inject_Z_mult. field.
      apply Qnot_eq_sym, Qlt_not_eq, HDq. }
    apply Qabs_Qle_condition. rewrite Heq. split; nra.
  - pose proof (half_ulp mr N D e e1 HD ltac:(lia) Herr) as Hhalf.
    fold v in Hhalf. rewrite <- Hval in Hhalf.
    eapply Qle_trans; [exact Hhalf |].
    destruct (Z.le_gt_cases (Zdigits2 m + e - 53) (-1074)) as [Hsub | Hnorm].
    + replace e1 with (-1074) by lia. change (-1074 - 1) with (-1075). nra.
    + assert (Hm1 : 0 < m).
      { destruct (Z.eq_dec m 0) as [-> | Hne];
          [cbn in Hnorm, Hlong; lia | lia]. }
      destruct (Zdigits2_bounds m Hm1) as (_ & Hdlo & _).
      replace (e1 - 1) with ((Zdigits2 m - 1) + e + -53) by lia.
      rewrite !pow2_add.
      assert (Hdq : (2 ^ (Zdigits2 m - 1) <= inject_Z m)%Q).
      { rewrite <- pow2_inject by lia. rewrite <- Zle_Qle. exact Hdlo. }
      set (b := (2 ^ (Zdigits2 m - 1))%Q) in *.
      set (a := (2 ^ e)%Q) in *. set (u := (2 ^ (-53))%Q) in *.
      set (s := (2 ^ (-1075))%Q) in *.
      assert (b * a <= inject_Z m * a)%Q
        by (apply Qmult_le_compat_r; [exact Hdq | apply Qlt_le_weak, Ha]).
      assert (b * a * u <= v * u)%Q
        by (apply Qmult_le_compat_r; [lra | apply Qlt_le_weak, Hu]).
      lra.
Qed.

Lemma new_location_located (a b : Z) :
  0 <= a -> 0 < b ->
  located a b (fst (Z.div_eucl a b)) (new_location b (snd (Z.div_eucl a b))).
Proof.
  intros Ha Hb. pose proof (Z_div_mod a b ltac:(lia)) as H.
  destruct (Z.div_eucl a b) as [q r]. destruct H as [Hab Hr].
  cbn [fst snd]. unfold located.
  assert (H1 : q * b = b * q) by ring.
  assert (H2 : (q + 1) * b = b * q + b) by ring.
  assert (H3 : (2 * q + 1) * b = 2 * (b * q) + b) by ring.
  rewrite H1, H2, H3. set (bq := b * q) in *.
  split; [exact Hb |]. split; [lia |].
  unfold new_location, new_location_even, new_location_odd.
  destruct (Z.even b) eqn:Heven.
  - destruct (Z.eqb_spec r 0) as [-> | Hr0]; [lia |].
    split; [lia |]. destruct (Z.compare_spec (2 * r) b);
      rewrite compare_eq_spec; lia.
  - destruct (Z.eqb_spec r 0) as [-> | Hr0]; [lia |].
    split; [lia |].
    assert (Hodd : Z.odd b = true)
      by (rewrite <- Z.negb_even, Heven; reflexivity).
    apply Z.odd_spec in Hodd as [k Hk].
    destruct (Z.compare_spec (2 * r + 1) b);
      rewrite compare_eq_spec; lia.
Qed.

Lemma pow2_lt_inv (a b : Z) : 0 <= b -> 2 ^ a < 2 ^ b -> a < b.
Proof.
  intros Hb H. destruct (Z.lt_ge_cases a b) as [| Hge]; [assumption |].
  assert (2 ^ b <= 2 ^ a) by (apply Z.pow_le_mono_r; lia). lia.
Qed.

(** The quotient [SFdiv_core_binary] hands to the rounding: a mantissa
    with its location that stands for [m1 * 2 ^ s / m2] at the exponent
    [e1 - e2 - s], and is long enough for that exponent. *)
Lemma div_core_spec (m1 m2 : positive) (e1 e2 : Z) :
  let '(q, e', l) :=
    SFdiv_core_binary Float.prec Float.emax (Z.pos m1) e1 (Z.pos m2) e2 in
  exists s,
    0 <= s /\ e' = e1 - e2 - s /\ 0 <= q /\
    located (Z.pos m1 * 2 ^ s) (Z.pos m2) q l /\
    e' <= fexp Float.prec Float.emax (Zdigits2 q + e').
Proof.
  unfold SFdiv_core_binary.
  set (d1 := Zdigits2 (Z.pos m1)). set (d2 := Zdigits2 (Z.pos m2)).
  set (e' := Z.min (fexp Float.prec Float.emax (d1 + e1 - (d2 + e2)))
                   (e1 - e2)).
  set (s := e1 - e2 - e').
  assert (Hs : 0 <= s) by (unfold s, e'; lia).
  set (m' := match s with
             | 0 => Z.pos m1
             | Z.pos _ => Z.shiftl (Z.pos m1) s
             | Z.neg _ => 0
             end).
  assert (Hm' : m' = Z.pos m1 * 2 ^ s).
  { unfold m'. destruct s as [| p | p]; [| | lia].
    - rewrite Z.pow_0_r. lia.
    - apply Z.shiftl_mul_pow2. lia. }
  assert (Hpow : 0 < 2 ^ s) by (apply Z.pow_pos_nonneg; lia).
  assert (Hm'0 : 0 <= m') by (rewrite Hm'; lia).
  pose proof (new_location_located m' (Z.pos m2) Hm'0 ltac:(lia)) as Hloc.
  pose proof (Z_div_mod m' (Z.pos m2) ltac:(lia)) as Hdiv.
  destruct (Z.div_eucl m' (Z.pos m2)) as [q r]. cbn [fst snd] in Hloc.
  destruct Hdiv as [Hdiv Hr].
  assert (Hq : 0 <= q) by nia.
  exists s. split; [exact Hs |]. split; [unfold s; lia |].
  split; [exact Hq |]. split; [rewrite <- Hm'; exact Hloc |].
  rewrite fexp_eq.
  destruct (Z.le_gt_cases e' (-1074)) as [Hsub | Hnorm]; [lia |].
  assert (Hs53 : 53 + d2 - d1 <= s).
  { unfold s. unfold e' in Hnorm |- *. rewrite fexp_eq in Hnorm |- *. lia. }
  destruct (Zdigits2_bounds (Z.pos m1) ltac:(lia)) as (Hd1 & Hlo1 & _).
  destruct (Zdigits2_bounds (Z.pos m2) ltac:(lia)) as (Hd2 & _ & Hhi2).
  fold d1 in Hd1, Hlo1. fold d2 in Hd2, Hhi2.
  assert (Hq52 : 2 ^ 52 <= q).
  { destruct (Z.le_gt_cases (2 ^ 52) q) as [| Hlt]; [assumption | exfalso].
    assert (H1 : 2 ^ (52 + d2) <= 2 ^ (d1 - 1 + s))
      by (apply Z.pow_le_mono_r; lia).
    rewrite !Z.pow_add_r in H1 by lia.
    assert (H2 : 2 ^ (d1 - 1) * 2 ^ s <= Z.pos m1 * 2 ^ s)
      by (apply Z.mul_le_mono_nonneg_r; lia).
    assert (H3 : (q + 1) * Z.pos m2 <= 2 ^ 52 * Z.pos m2)
      by (apply Z.mul_le_mono_nonneg_r; lia).
    assert (H4 : 2 ^ 52 * Z.pos m2 < 2 ^ 52 * 2 ^ d2)
      by (apply Z.mul_lt_mono_pos_l; lia).
    nia. }
  destruct (Zdigits2_bounds q ltac:(lia)) as (Hdq & _ & Hhiq).
  assert (52 < Zdigits2 q) by (apply pow2_lt_inv; lia).
  lia.
Qed.

Lemma iter_xO (m d : positive) :
  Z.pos (Pos.iter xO m d) = Z.pos m * 2 ^ Z.pos d.
Proof.
  induction d as [| d IH] using Pos.peano_ind.
  - cbn [Pos.iter]. rewrite Z.pow_1_r. lia.
  - rewrite Pos.iter_succ, Pos2Z.inj_succ, Z.pow_succ_r by lia.
    pose proof (Pos2Z.inj_xO (Pos.iter xO m d)) as H. rewrite H, IH. ring.
Qed.

Lemma shl_align_spec (mx : positive) (ex ex' : Z) :
  snd (shl_align mx ex ex') = Z.min ex ex' /\
  Z.pos (fst (shl_align mx ex ex'))
  = Z.pos mx * 2 ^ (ex - snd (shl_align mx ex ex')).
Proof.
  unfold shl_align. destruct (ex' - ex) as [| d | d] eqn:Hd; cbn [fst snd].
  - split; [lia |]. rewrite Z.sub_diag, Z.pow_0_r. lia.
  - split; [lia |]. rewrite Z.sub_diag, Z.pow_0_r. lia.
  - split; [lia |]. rewrite iter_xO. f_equal. f_equal. lia.
Qed.

(** [float(f)] is [f] itself for a frame number below 2^53. *)
Lemma of_int_exact (f : Z) :
  1 <= f < 2 ^ 53 ->
  exists mx ex,
    Float.of_int f = Ok (S754_finite false mx ex) /\
    ex <= 0 /\ Z.pos mx = f * 2 ^ (- ex).
Proof.
  intros Hf. destruct f as [| p | p]; try lia.
  unfold Float.of_int, binary_normalize, binary_round.
  destruct (shl_align_spec p 0
              (fexp Float.prec Float.emax (Z.pos (digits2_pos p) + 0)))
    as [Hez Hmz].
  destruct (shl_align p 0 _) as [mz ez]. cbn [fst snd] in Hez, Hmz.
  rewrite fexp_eq in Hez.
  destruct (Zdigits2_bounds (Z.pos p) ltac:(lia)) as (Hd & _ & Hhi).
  cbn [Zdigits2] in Hd, Hhi. set (d := Z.pos (digits2_pos p)) in *.
  assert (Hd53 : d <= 53).
  { pose proof (Zdigits2_le (Z.pos p) 53 ltac:(lia) ltac:(lia)) as H.
    exact H. }
  assert (Hez' : ez = d - 53) by lia.
  assert (Hlt : Z.pos mz < 2 ^ 53).
  { rewrite Hmz. replace (0 - ez) with (53 - d) by lia.
    assert (H : 2 ^ 53 = 2 ^ d * 2 ^ (53 - d)).
    { rewrite <- Z.pow_add_r by lia. f_equal. lia. }
    rewrite H. apply Z.mul_lt_mono_pos_r; [| exact Hhi].
    apply Z.pow_pos_nonneg; lia. }
  assert (Hloc : located (Z.pos mz) 1 (Z.pos mz) loc_Exact).
  { unfold located. lia. }
  destruct (round_aux_spec (Z.pos mz) ez (Z.pos mz) 1 loc_Exact
              ltac:(lia) Hloc) as (mr & Hmr & Herr & Hx).
  pose proof (Zdigits2_le (Z.pos mz) 53 ltac:(lia) ltac:(lia)) as Hdz.
  pose proof (Zdigits2_nonneg (Z.pos mz) ltac:(lia)) as Hdz0.
  rewrite fexp_eq in Herr, Hx.
  replace (Z.max ez (Z.max (Zdigits2 (Z.pos mz) + ez - 53) (-1074)))
    with ez in Herr, Hx by lia.
  rewrite Z.sub_diag, Z.pow_0_r, !Z.mul_1_r in Herr.
  assert (Hmm : mr = Z.pos mz) by lia. subst mr.
  rewrite Hx.
  destruct (Z.eqb_spec (Z.pos mz) 0) as [| _]; [lia |].
  destruct (Z.eqb_spec (Z.pos mz) (2 ^ 53)) as [| _]; [lia |].
  destruct (Z.leb_spec ez 971) as [_ |]; [| lia].
  exists mz, ez. split; [reflexivity |]. split; [lia |].
  rewrite Hmz. replace (0 - ez) with (- ez) by lia. reflexivity.
Qed.

(** Rounding a rational below 2^971 does not overflow. *)
Lemma round_aux_finite (m e N D : Z) (l : location) :
  0 <= m -> located N D m l ->
  (inject_Z N / inject_Z D * 2 ^ e < 2 ^ 971)%Q ->
  Float.is_finite (binary_round_aux Float.prec Float.emax false m e l) = true.
Proof.
  intros Hm Hl Hv.
  destruct (round_aux_spec m e N D l Hm Hl) as (mr & Hmr & Herr & Hx).
  set (e1 := Z.max e (fexp Float.prec Float.emax (Zdigits2 m + e))) in *.
  pose proof Hl as (HD & _).
  pose proof (half_ulp mr N D e e1 HD ltac:(unfold e1; lia) Herr) as Hhalf.
  apply Qabs_Qle_condition in Hhalf as [_ Hhalf].
  set (v := (inject_Z N / inject_Z D * 2 ^ e)%Q) in *.
  rewrite Hx. destruct (Z.eqb_spec mr 0) as [| Hnz]; [reflexivity |].
  pose proof (pow2_pos (e1 - 1)) as Hh. pose proof (pow2_half e1) as H2.
  destruct (Z.eqb_spec mr (2 ^ 53)) as [Hc | Hnc].
  - destruct (Z.leb_spec (e1 + 1) 971) as [| Hbig]; [reflexivity | exfalso].
    rewrite Hc, pow2_inject in Hhalf by lia.
    assert (H52 : (2 ^ 53 == 2 * 2 ^ 52)%Q) by reflexivity.
    assert (Hlt : (2 ^ (52 + e1) < 2 ^ 971)%Q).
    { rewrite pow2_add. set (a := (2 ^ e1)%Q) in *.
      set (h := (2 ^ (e1 - 1))%Q) in *. set (b := (2 ^ 52)%Q) in *.
      assert (0 < b)%Q by apply pow2_pos. nra. }
    apply Qpower_lt_compat_l_inv in Hlt; [lia | reflexivity].
  - destruct (Z.leb_spec e1 971) as [| Hbig]; [reflexivity | exfalso].
    assert (Hone : (1 <= inject_Z mr)%Q) by (rewrite <- (Zle_Qle 1); lia).
    assert (Hlt : (2 ^ (e1 - 1) < 2 ^ 971)%Q).
    { set (a := (2 ^ e1)%Q) in *. set (h := (2 ^ (e1 - 1))%Q) in *. nra. }
    apply Qpower_lt_compat_l_inv in Hlt; [lia | reflexivity].
Qed.

Lemma valid_finite_bound (mf : positive) (ef : Z) :
  valid_binary Float.prec Float.emax (S754_finite false mf ef) = true ->
  (inject_Z (Z.pos mf) * 2 ^ ef < 2 ^ 1024)%Q.
Proof.
  cbn [valid_binary]. unfold bounded, canonical_mantissa.
  intros H. apply andb_prop in H as [Hc He].
  apply Z.eqb_eq in Hc. apply Z.leb_le in He. rewrite fexp_eq in Hc.
  change (Float.emax - Float.prec) with 971 in He.
  destruct (digits2_pos_bounds mf) as [_ Hhi].
  assert (Hm : Z.pos mf < 2 ^ 53).
  { eapply Z.lt_le_trans; [exact Hhi |]. apply Z.pow_le_mono_r; lia. }
  assert (Hq : (inject_Z (Z.pos mf) < 2 ^ 53)%Q).
  { rewrite <- pow2_inject by lia. rewrite <- Zlt_Qlt. exact Hm. }
  pose proof (pow2_le ef 971 He) as Hle. pose proof (pow2_pos ef) as Hp.
  assert (H : (2 ^ 1024 == 2 ^ 53 * 2 ^ 971)%Q)
    by (rewrite <- pow2_add; reflexivity).
  rewrite H. set (a := (2 ^ ef)%Q) in *. set (b := (2 ^ 971)%Q) in *.
  set (c := (2 ^ 53)%Q) in *. set (g := inject_Z (Z.pos mf)) in *.
  assert (0 < c)%Q by apply pow2_pos.
  assert (0 < g)%Q by (unfold g; rewrite <- (Zlt_Qlt 0); lia).
  nra.
Qed.

Lemma pow2_opp (e : Z) : (2 ^ (- e) == / 2 ^ e)%Q.
Proof. apply Qpower_opp. Qed.

Lemma pow2_neq (e : Z) : ~ (2 ^ e == 0)%Q.
Proof. apply Qnot_eq_sym, Qlt_not_eq, pow2_pos. Qed.

(** The quotient [float(f) / fps] of a frame number below 2^53 and a
    positive finite fps: within a relative error of 2^-53 (and an absolute
    one of 2^-1075) of [f / fps]. *)
Lemma div_error (f : Z) (mf : positive) (ef : Z) :
  1 <= f < 2 ^ 53 ->
  let fps := S754_finite false mf ef in
  let v := (inject_Z f / Float.to_Q fps)%Q in
  exists t,
    frame_to_time f fps = Ok t /\ has_sign false t /\
    ((v < 2 ^ 971)%Q -> Float.is_finite t = true) /\
    (Float.is_finite t = true ->
     (Qabs (Float.to_Q t - v) <= v * 2 ^ (-53) + 2 ^ (-1075))%Q).
Proof.
  intros Hf fps v.
  destruct (of_int_exact f Hf) as (mx & ex & Hx & Hex & Hmx).
  unfold frame_to_time. rewrite Hx. cbn [mbind result_bind].
  unfold Float.truediv, fps. cbn [Float.is_zero SFdiv xorb].
  pose proof (div_core_spec mx mf ex ef) as Hcore.
  destruct (SFdiv_core_binary _ _ _ _ _ _) as [[q e'] l].
  destruct Hcore as (s & Hs & He' & Hq & Hloc & Hlong).
  eexists. split; [reflexivity |].
  split; [apply binary_round_aux_sign |].
  assert (Hv : (inject_Z (Z.pos mx * 2 ^ s) / inject_Z (Z.pos mf) * 2 ^ e'
                == v)%Q).
  { unfold v, fps. rewrite to_Q_finite, Hmx, He'.
    rewrite !inject_Z_mult, !pow2_inject by lia.
    replace (ex - ef - s) with (ex + (- ef + - s)) by lia.
    rewrite !pow2_add, !pow2_opp.
    assert (Hg : ~ (inject_Z (Z.pos mf) == 0)%Q).
    { apply Qnot_eq_sym, Qlt_not_eq. rewrite <- (Zlt_Qlt 0). lia. }
    field. repeat split; try apply pow2_neq; exact Hg. }
  split.
  - intros Hlt. apply (round_aux_finite q e' _ _ l Hq Hloc).
    rewrite Hv. exact Hlt.
  - intros Hfin.
    destruct (round_aux_error q e' _ _ l Hq Hloc (or_intror Hlong) Hfin)
      as [_ Herr].
    rewrite Hv in Herr. exact Herr.
Qed.

(** The product [t * fps] of two non-negative finite floats: within a
    relative error of 2^-53 (and an absolute one of 2^-1075) of the exact
    product. *)
Lemma mul_error (t : Float.float) (mf : positive) (ef : Z) :
  has_sign false t -> Float.is_finite t = true ->
  let fps := S754_finite false mf ef in
  let v := (Float.to_Q t * Float.to_Q fps)%Q in
  let p := Float.mul t fps in
  ((v < 2 ^ 971)%Q -> Float.is_finite p = true) /\
  (Float.is_finite p = true ->
   (Qabs (Float.to_Q p - v) <= v * 2 ^ (-53) + 2 ^ (-1075))%Q).
Proof.
  intros Hsign Hfin fps v p.
  pose proof (pow2_pos (-53)) as Hu. pose proof (pow2_pos (-1075)) as Hs.
  destruct t as [s | s | | s mt et]; try discriminate.
  - (* t is zero *)
    unfold p, v. set (G := Float.to_Q fps). unfold fps.
    cbn [Float.mul SFmul Float.to_Q Float.is_finite].
    split; [reflexivity |]. intros _. apply Qabs_Qle_condition.
    assert (H0 : (0 * G == 0)%Q) by ring. rewrite H0. split; lra.
  - cbn in Hsign. subst s.
    unfold p, fps. cbn [Float.mul SFmul xorb].
    assert (Hloc : located (Z.pos (mt * mf)) 1 (Z.pos (mt * mf)) loc_Exact)
      by (unfold located; lia).
    assert (Hv : (inject_Z (Z.pos (mt * mf)) / inject_Z 1 * 2 ^ (et + ef)
                  == v)%Q).
    { unfold v, fps. rewrite !to_Q_finite, Pos2Z.inj_mul, inject_Z_mult.
      rewrite pow2_add. change (inject_Z 1) with 1%Q. field. }
    split.
    + intros Hlt.
      apply (round_aux_finite (Z.pos (mt * mf)) (et + ef) _ 1 loc_Exact
               ltac:(lia) Hloc).
      rewrite Hv. exact Hlt.
    + intros Hfinp.
      destruct (round_aux_error (Z.pos (mt * mf)) (et + ef) _ 1 loc_Exact
                  ltac:(lia) Hloc (or_introl eq_refl) Hfinp) as [_ Herr].
      rewrite Hv in Herr. exact Herr.
Qed.

(** The float [(f / fps) * fps] for a frame number 1 <= f <= 2^51 and a
    positive finite fps: it exists, it is finite unless fps is tiny, and it
    lies strictly between f - 1 and f + 1. *)
Lemma round_trip_product (f : Z) (mf : positive) (ef : Z) :
  1 <= f <= 2 ^ 51 ->
  let fps := S754_finite false mf ef in
  valid_binary Float.prec Float.emax fps = true ->
  exists t,
    frame_to_time f fps = Ok t /\
    ((2 ^ (-900) <= Float.to_Q fps)%Q ->
     Float.is_finite (Float.mul t fps) = true) /\
    (Float.is_finite (Float.mul t fps) = true ->
     (inject_Z f - 1 < Float.to_Q (Float.mul t fps) < inject_Z f + 1)%Q).
Proof.
  intros Hf fps Hvalid.
  destruct (div_error f mf ef ltac:(lia)) as (t & Ht & Hsign & Htfin & Hterr).
  fold fps in Ht, Htfin, Hterr.
  exists t. split; [exact Ht |].
  pose proof (valid_finite_bound mf ef Hvalid) as HG.
  rewrite <- to_Q_finite in HG. fold fps in HG.
  assert (HG0 : (0 < Float.to_Q fps)%Q).
  { unfold fps. rewrite to_Q_finite.
    apply Qmult_lt_0_compat; [| apply pow2_pos].
    rewrite <- (Zlt_Qlt 0). lia. }
  set (G := Float.to_Q fps) in *.
  set (F := inject_Z f).
  assert (HF1 : (1 <= F)%Q) by (unfold F; rewrite <- (Zle_Qle 1); lia).
  assert (HF2 : (F <= 2 ^ 51)%Q).
  { unfold F. rewrite <- pow2_inject by lia. rewrite <- Zle_Qle. lia. }
  assert (Hv1 : (inject_Z f / G * G == F)%Q).
  { unfold F. field. apply Qnot_eq_sym, Qlt_not_eq, HG0. }
  set (v1 := (inject_Z f / G)%Q) in *.
  assert (Hv10 : (0 <= v1)%Q).
  { unfold v1. apply Qle_shift_div_l; [exact HG0 |]. fold F. lra. }
  (* numeric constants *)
  assert (Hu : (2 ^ (-53) == 1 # 9007199254740992)%Q) by reflexivity.
  assert (Hc : (2 ^ (-51) == 1 # 2251799813685248)%Q) by reflexivity.
  assert (H51 : (2 ^ 51 == inject_Z (2 ^ 51))%Q) by reflexivity.
  assert (Hs0 : (0 < 2 ^ (-1075))%Q) by apply pow2_pos.
  assert (Hsc : (2 ^ (-1075) <= 2 ^ (-51))%Q) by (apply pow2_le; lia).
  assert (HGs : (G * 2 ^ (-1075) <= 2 ^ (-51))%Q).
  { assert (H : (2 ^ (-51) == 2 ^ 1024 * 2 ^ (-1075))%Q)
      by (rewrite <- pow2_add; reflexivity).
    rewrite H. apply Qmult_le_compat_r; lra. }
  set (s0 := (2 ^ (-1075))%Q) in *.
  assert (Hprod : forall T,
            (Qabs (T - v1) <= v1 * 2 ^ (-53) + s0)%Q ->
            (F - (F * (1 # 9007199254740992) + (1 # 2251799813685248)) <= T * G
             <= F + (F * (1 # 9007199254740992) + (1 # 2251799813685248)))%Q).
  { intros T HT. apply Qabs_Qle_condition in HT as [Hlo Hhi].
    rewrite Hu in Hlo, Hhi. rewrite Hc in HGs.
    set (gs := (G * s0)%Q) in *.
    assert (H1 : (- (v1 * G * (1 # 9007199254740992) + gs) <= T * G - v1 * G)%Q)
      by (unfold gs; nra).
    assert (H2 : (T * G - v1 * G <= v1 * G * (1 # 9007199254740992) + gs)%Q)
      by (unfold gs; nra).
    rewrite Hv1 in H1, H2. split; lra. }
  rewrite Hc in HGs, Hsc. rewrite H51 in HF2.
  change (inject_Z (2 ^ 51)) with (2251799813685248 # 1)%Q in HF2.
  assert (Hmul := mul_error t mf ef Hsign). fold fps in Hmul. fold G in Hmul.
  assert (Hlast : Float.is_finite t = true ->
            (Float.to_Q t * G < 2 ^ 971)%Q /\
            (Float.is_finite (Float.mul t fps) = true ->
             (F - 1 < Float.to_Q (Float.mul t fps) < F + 1)%Q)).
  { intros Hfin. specialize (Hterr Hfin). fold G v1 in Hterr.
    apply Hprod in Hterr. destruct (Hmul Hfin) as [_ Herr].
    cbv zeta in Herr. fold G in Herr.
    set (P := (Float.to_Q t * G)%Q) in *. split.
    - assert (H52 : (2 ^ 52 <= 2 ^ 971)%Q) by (apply pow2_le; lia).
      assert (H52' : (2 ^ 52 == 4503599627370496 # 1)%Q) by reflexivity.
      rewrite H52' in H52. lra.
    - intros Hfinp. specialize (Herr Hfinp).
      apply Qabs_Qle_condition in Herr as [Hlo Hhi].
      rewrite Hu in Hlo, Hhi. fold s0 in Hlo, Hhi. split; lra. }
  split.
  - intros Hbig. fold G in Hbig.
    assert (Hv1lt : (v1 < 2 ^ 971)%Q).
    { assert (H900 : (v1 * 2 ^ (-900) <= F)%Q) by (rewrite <- Hv1; nra).
      assert (Hone : (2 ^ (-900) * 2 ^ 900 == 1)%Q)
        by (rewrite <- pow2_add; reflexivity).
      assert (H951 : (2251799813685248 * 2 ^ 900 < 2 ^ 971)%Q).
      { assert (H : (2251799813685248 * 2 ^ 900 == 2 ^ 951)%Q)
          by (change 951 with (51 + 900); rewrite pow2_add; reflexivity).
        rewrite H. apply Qpower_lt_compat_l; [lia | reflexivity]. }
      pose proof (pow2_pos 900) as H9. pose proof (pow2_pos (-900)) as H9'.
      set (a := (2 ^ 900)%Q) in *. set (b := (2 ^ (-900))%Q) in *.
      assert (Hv : (v1 == v1 * b * a)%Q)
        by (rewrite <- Qmult_assoc, Hone; ring).
      assert (Hle : (v1 * b * a <= F * a)%Q)
        by (apply Qmult_le_compat_r; lra).
      assert (Hle2 : (F * a <= 2251799813685248 * a)%Q)
        by (apply Qmult_le_compat_r; lra).
      lra. }
    specialize (Htfin Hv1lt). destruct (Hlast Htfin) as [HP _].
    destruct (Hmul Htfin) as [Hpfin _]. apply Hpfin. fold G. exact HP.
  - intros Hfinp.
    assert (Hfin : Float.is_finite t = true).
    { destruct t; try reflexivity; discriminate. }
    destruct (Hlast Hfin) as [_ H]. apply H, Hfinp.
Qed.

Lemma floor_within_one (f : Z) (p : Q) :
  (inject_Z f - 1 < p < inject_Z f + 1)%Q -> Qfloor p = f \/ Qfloor p = f - 1.
Proof.
  intros [Hlo Hhi].
  pose proof (Qfloor_le p) as H1. pose proof (Qlt_floor p) as H2.
  rewrite inject_Z_plus in H2. change (inject_Z 1) with 1%Q in H2.
  set (k := Qfloor p) in *.
  assert (Ha : (inject_Z k < inject_Z (f + 1))%Q).
  { rewrite inject_Z_plus. change (inject_Z 1) with 1%Q.
    eapply Qle_lt_trans; eassumption. }
  assert (Hb : (inject_Z (f + -1) < inject_Z (k + 1))%Q).
  { rewrite !inject_Z_plus. change (inject_Z 1) with 1%Q.
    change (inject_Z (-1)) with (-1)%Q.
    apply Qlt_trans with p; [exact Hlo | exact H2]. }
  rewrite <- Zlt_Qlt in Ha, Hb. lia.
Qed.

Lemma positive_cases (fps : Float.float) :
  Float.positive fps = true ->
  fps = S754_infinity false \/ exists mf ef, fps = S754_finite false mf ef.
Proof.
  destruct fps as [s | s | | s mf ef]; try discriminate.
  - destruct s; [discriminate |]. left. reflexivity.
  - destruct s; [discriminate |]. right. eauto.
Qed.

Lemma to_Q_pos_finite (fps : Float.float) :
  (0 < Float.to_Q fps)%Q -> exists mf ef, fps = S754_finite false mf ef.
Proof.
  destruct fps as [s | s | | s mf ef]; try (intros H; discriminate H).
  destruct s; [| eauto]. intros H. exfalso. revert H.
  cbn [Float.to_Q]. destruct ef as [| n | n]; intros H.
  - rewrite <- (Zlt_Qlt 0) in H. lia.
  - rewrite <- (Zlt_Qlt 0) in H. lia.
  - discriminate H.
Qed.

Lemma int_returns (p : Float.float) :
  Float.is_finite p = true -> is_Ok (Float.int_ p).
Proof. destruct p; try discriminate; intros _; eexists; reflexivity. Qed.

Lemma int_finite (p : Float.float) (r : Z) :
  Float.int_ p = Ok r -> Float.is_finite p = true.
Proof. destruct p; try discriminate; reflexivity. Qed.

(** The round trip of a frame number 0 <= f <= 2^51 through a positive
    fps returns f or f - 1 whenever it returns. *)
Lemma round_trip_drift (f : Z) (fps : Float.float) (r : Z) :
  0 <= f <= 2 ^ 51 ->
  valid_binary Float.prec Float.emax fps = true ->
  Float.positive fps = true ->
  frame_round_trip f fps = Ok r -> r = f \/ r = f - 1.
Proof.
  intros Hf Hvalid Hpos. unfold frame_round_trip.
  destruct (Z.eq_dec f 0) as [-> | Hf0].
  - destruct (positive_cases fps Hpos) as [-> | (mf & ef & ->)].
    + discriminate.
    + intros [= <-]. left. reflexivity.
  - destruct (positive_cases fps Hpos) as [-> | (mf & ef & ->)].
    + destruct (of_int_exact f ltac:(lia)) as (mx & ex & Hx & _).
      unfold frame_to_time. rewrite Hx. discriminate.
    + destruct (round_trip_product f mf ef ltac:(lia) Hvalid)
        as (t & Ht & _ & Hbounds).
      rewrite Ht. cbn [mbind result_bind]. unfold time_to_frame. intros Hr.
      pose proof (int_finite _ _ Hr) as Hfin. specialize (Hbounds Hfin).
      rewrite (int_rounds_towards_zero _ Hfin) in Hr.
      assert (H0 : Qle_bool 0 (Float.to_Q (Float.mul t
                     (S754_finite false mf ef))) = true).
      { apply Qle_bool_iff.
        assert (1 <= inject_Z f)%Q by (rewrite <- (Zle_Qle 1); lia). lra. }
      rewrite H0 in Hr. injection Hr as <-.
      apply floor_within_one, Hbounds.
Qed.

(** For an fps of at least 2^-900 the round trip returns. *)
Lemma round_trip_returns (f : Z) (fps : Float.float) :
  0 <= f <= 2 ^ 51 ->
  valid_binary Float.prec Float.emax fps = true ->
  (2 ^ (-900) <= Float.to_Q fps)%Q ->
  is_Ok (frame_round_trip f fps).
Proof.
  intros Hf Hvalid Hbig.
  destruct (to_Q_pos_finite fps) as (mf & ef & ->).
  { pose proof (pow2_pos (-900)). lra. }
  unfold frame_round_trip.
  destruct (Z.eq_dec f 0) as [-> | Hf0].
  - eexists. reflexivity.
  - destruct (round_trip_product f mf ef ltac:(lia) Hvalid)
      as (t & Ht & Hfin & _).
    rewrite Ht. cbn [mbind result_bind]. unfold time_to_frame.
    apply int_returns, Hfin, Hbig.
Qed.

(** C6, amended: the round trip of a frame index through
    [frame_to_time] and [time_to_frame] is not always exact, but it drifts
    by at most one frame, and only downwards.  For a frame index
    0 <= f <= 2 ** 51 and an fps that is a binary64 number greater than
    zero, the round trip returns f or f - 1 whenever it returns; it returns
    for every such fps of at least 2 ** -900; and it returns f exactly when
    the float [(f / fps) * fps] is not below f.  (For every f >= 0 and every
    fps for which that float is finite, it returns f exactly when the float
    lies in [[f, f + 1)].)  It is exact at the representative values
    (fps = 29.97 with f = 1000, fps = 30 with f = 75). *)
Theorem frame_round_trip_exact_iff (f : Z) (fps : Float.float) :
  0 <= f ->
  (forall t,
     frame_to_time f fps = Ok t ->
     Float.is_finite (Float.mul t fps) = true ->
     (frame_round_trip f fps = Ok f <->
      (inject_Z f <= Float.to_Q (Float.mul t fps) < inject_Z (f + 1))%Q)) /\
  (f <= 2 ^ 51 ->
   valid_binary Float.prec Float.emax fps = true ->
   Float.positive fps = true ->
   (forall r, frame_round_trip f fps = Ok r -> r = f \/ r = f - 1) /\
   ((2 ^ (-900) <= Float.to_Q fps)%Q -> is_Ok (frame_round_trip f fps)) /\
   (forall t,
      frame_to_time f fps = Ok t ->
      Float.is_finite (Float.mul t fps) = true ->
      (frame_round_trip f fps = Ok f <->
       (inject_Z f <= Float.to_Q (Float.mul t fps))%Q))) /\
  frame_round_trip 1000 Demo.fps_29_97 = Ok 1000 /\
  frame_round_trip 75 Demo.fps_30 = Ok 75.
Proof.
  intros Hf.
  assert (Hfloor : forall t,
    frame_to_time f fps = Ok t ->
    Float.is_finite (Float.mul t fps) = true ->
    frame_round_trip f fps = Ok (Qfloor (Float.to_Q (Float.mul t fps)))).
  { intros t Ht Hfin. unfold frame_round_trip. rewrite Ht.
    cbn [mbind result_bind]. unfold time_to_frame.
    rewrite (int_rounds_towards_zero _ Hfin).
    rewrite (round_trip_product_nonneg f fps t Hf Ht). reflexivity. }
  split; [| split; [| split; vm_compute; reflexivity]].
  - intros t Ht Hfin. rewrite (Hfloor t Ht Hfin).
    set (p := Float.to_Q (Float.mul t fps)).
    pose proof (Qfloor_le p) as Hlo. pose proof (Qlt_floor p) as Hhi.
    split.
    + intros [= <-]. split; assumption.
    + intros [H1 H2]. f_equal.
      assert (f <= Qfloor p).
      { rewrite <- (Qfloor_Z f). apply Qfloor_resp_le, H1. }
      assert (Qfloor p < f + 1).
      { rewrite Zlt_Qlt. eapply Qle_lt_trans; eassumption. }
      lia.
  - intros Hmax Hvalid Hpos. split; [| split].
    + intros r. apply round_trip_drift; [lia | exact Hvalid | exact Hpos].
    + apply round_trip_returns; [lia | exact Hvalid].
    + intros t Ht Hfin.
      pose proof (round_trip_drift f fps
                    (Qfloor (Float.to_Q (Float.mul t fps)))
                    ltac:(lia) Hvalid Hpos (Hfloor t Ht Hfin)) as Hdrift.
      rewrite (Hfloor t Ht Hfin).
      set (p := Float.to_Q (Float.mul t fps)) in *.
      pose proof (Qfloor_le p) as Hlo.
      split.
      * intros [= <-]. exact Hlo.
      * intros H1. f_equal.
        assert (f <= Qfloor p).
        { rewrite <- (Qfloor_Z f). apply Qfloor_resp_le, H1. }
        lia.
Qed.

Lemma frame_round_trip_exact_iff_witness :
  (forall r, frame_round_trip 123 Demo.fps_30 = Ok r ->
     r = 123 \/ r = 123 - 1) /\
  is_Ok (frame_round_trip 123 Demo.fps_30) /\
  (frame_round_trip 75 Demo.fps_30 = Ok 75 <->
   (inject_Z 75
    <= Float.to_Q (Float.mul (Float.literal 25 10) Demo.fps_30))%Q).
Proof.
  destruct (frame_round_trip_exact_iff 123 Demo.fps_30 ltac:(lia))
    as (_ & Hbound & _).
  destruct (Hbound ltac:(lia) eq_refl eq_refl) as (Hdrift & Hreturns & _).
  destruct (frame_round_trip_exact_iff 75 Demo.fps_30 ltac:(lia))
    as (_ & Hbound' & _).
  destruct (Hbound' ltac:(lia) eq_refl eq_refl) as (_ & _ & Hexact).
  split; [exact Hdrift |]. split.
  - apply Hreturns. vm_compute. discriminate.
  - exact (Hexact (Float.literal 25 10) eq_refl eq_refl).
Defined.


(** ** Centre crop *)

Lemma center_crop_box_inside (image : Image) :
  0 < width image -> 0 < height image ->
  let side := Z.min (width image) (height image) in
  let left := (width image - side) / 2 in
  let top := (height image - side) / 2 in
  0 < side /\ 0 <= left /\ 0 <= top /\
  left + side <= width image /\ top + side <= height image.
Proof.
  intros Hw Hh side left top.
  assert (0 <= left) by (apply Z.div_pos; lia).
  assert (0 <= top) by (apply Z.div_pos; lia).
  assert (2 * left <= width image - side) by (apply Z.mul_div_le; lia).
  assert (2 * top <= height image - side) by (apply Z.mul_div_le; lia).
  lia.
Qed.

Lemma bomb_check_Ok (w h : Z) :
  Z.max 1 w * Z.max 1 h <= 2 * PIL.MAX_IMAGE_PIXELS ->
  PIL.decompression_bomb_check (w, h) = Ok tt.
Proof.
  intros H. unfold PIL.decompression_bomb_check. cbn [fst snd].
  destruct (Z.ltb_spec (2 * PIL.MAX_IMAGE_PIXELS) (Z.max 1 w * Z.max 1 h));
    [lia | reflexivity].
Qed.

Lemma bomb_check_raises (w h : Z) :
  2 * PIL.MAX_IMAGE_PIXELS < Z.max 1 w * Z.max 1 h ->
  PIL.decompression_bomb_check (w, h) = Raise DecompressionBombError.
Proof.
  intros H. unfold PIL.decompression_bomb_check. cbn [fst snd].
  destruct (Z.ltb_spec (2 * PIL.MAX_IMAGE_PIXELS) (Z.max 1 w * Z.max 1 h));
    [reflexivity | lia].
Qed.

(** A crop whose box is in order and within the size limit returns. *)
Lemma crop_returns (img : Image) (x0 y0 x1 y1 : Z) :
  x0 <= x1 -> y0 <= y1 ->
  Z.max 1 (x1 - x0) * Z.max 1 (y1 - y0) <= 2 * PIL.MAX_IMAGE_PIXELS ->
  PIL.crop img (x0, y0, x1, y1)
  = Ok {| mode := mode img; width := x1 - x0; height := y1 - y0;
          pix := fun x y =>
            if PIL.inside img (x + x0) (y + y0)
            then pix img (x + x0) (y + y0)
            else (0, 0, 0, 0) |}.
Proof.
  intros Hx Hy Hsize. unfold PIL.crop.
  destruct (Z.ltb_spec x1 x0); [lia |].
  destruct (Z.ltb_spec y1 y0); [lia |].
  rewrite bomb_check_Ok by (rewrite !Z.abs_eq by lia; exact Hsize).
  reflexivity.
Qed.

Lemma center_crop_square_returns (image : Image) :
  0 < width image -> 0 < height image ->
  Z.min (width image) (height image) * Z.min (width image) (height image)
  <= 2 * PIL.MAX_IMAGE_PIXELS ->
  is_Ok (center_crop_square image).
Proof.
  intros Hw Hh Hsize.
  destruct (center_crop_box_inside image Hw Hh) as (Hside & _).
  unfold center_crop_square, center_crop_box.
  rewrite crop_returns; [eexists; reflexivity | lia | lia |].
  rewrite !Z.add_simpl_l, !Z.max_r by lia. exact Hsize.
Qed.

(** C9, as stated, fails: the crop of a 13378x13378 image (both extents
    positive) has more than twice [MAX_IMAGE_PIXELS] pixels, and
    [center_crop_square] raises instead of returning it. *)
Lemma center_crop_square_oversize_raises :
  let image := Demo.gradient RGB 13378 13378 0 in
  0 < width image /\ 0 < height image /\
  2 * PIL.MAX_IMAGE_PIXELS < 13378 * 13378 /\
  center_crop_square image = Raise DecompressionBombError.
Proof. repeat split. Qed.

(** C9, amended: for an image of positive width w and height h whose
    square of side min(w, h) has at most twice [MAX_IMAGE_PIXELS] pixels,
    [center_crop_square] returns a square image of side min(w, h) whose
    pixels are those of the input at horizontal offset (w - side) // 2 and
    vertical offset (h - side) // 2; a 1920x1080 input gives a 1080x1080
    crop at offsets 420 and 0.  For a larger square it raises
    [DecompressionBombError]. *)
Theorem center_crop_square_spec (image : Image) :
  0 < width image -> 0 < height image ->
  let side := Z.min (width image) (height image) in
  let left := (width image - side) / 2 in
  let top := (height image - side) / 2 in
  (side * side <= 2 * PIL.MAX_IMAGE_PIXELS ->
   exists sq,
     center_crop_square image = Ok sq /\
     width sq = side /\ height sq = side /\ mode sq = mode image /\
     center_crop_box image = (left, top, left + side, top + side) /\
     (forall x y, 0 <= x < side -> 0 <= y < side ->
        PIL.getpixel sq x y = PIL.getpixel image (x + left) (y + top)) /\
     (width image = 1920 -> height image = 1080 ->
        side = 1080 /\ left = 420 /\ top = 0)) /\
  (2 * PIL.MAX_IMAGE_PIXELS < side * side ->
   center_crop_square image = Raise DecompressionBombError).
Proof.
  intros Hw Hh side left top.
  destruct (center_crop_box_inside image Hw Hh)
    as (Hside & Hl & Ht & Hl' & Ht').
  fold side in Hside, Hl, Ht, Hl', Ht'.
  fold left in Hl, Hl'. fold top in Ht, Ht'.
  split.
  - intros Hsize. unfold center_crop_square, center_crop_box.
    fold side. fold left. fold top.
    rewrite crop_returns;
      [| lia | lia | rewrite !Z.add_simpl_l, !Z.max_r by lia; exact Hsize].
    eexists. split; [reflexivity |]. cbn [width height mode].
    split; [lia |]. split; [lia |]. split; [reflexivity |].
    split; [reflexivity |]. split.
    + intros x y Hx Hy. unfold PIL.getpixel, PIL.inside.
      cbn [width height pix]. unfold PIL.inside.
      repeat match goal with
             | |- context [Z.leb ?a ?b] => destruct (Z.leb_spec a b); try lia
             | |- context [Z.ltb ?a ?b] => destruct (Z.ltb_spec a b); try lia
             end.
      reflexivity.
    + intros H1920 H1080. subst left top side.
      rewrite H1920, H1080. repeat split; reflexivity.
  - intros Hsize. unfold center_crop_square, center_crop_box, PIL.crop.
    fold side. fold left. fold top.
    destruct (Z.ltb_spec (left + side) left); [lia |].
    destruct (Z.ltb_spec (top + side) top); [lia |].
    rewrite bomb_check_raises; [reflexivity |].
    rewrite !Z.add_simpl_l, !Z.abs_eq, !Z.max_r by lia. exact Hsize.
Qed.

Lemma center_crop_square_spec_witness :
  exists sq,
    center_crop_square (Demo.gradient RGB 1920 1080 1) = Ok sq /\
    width sq = 1080 /\ height sq = 1080 /\
    PIL.getpixel sq 0 0 = Some (420, 0, 1, 255).
Proof.
  destruct (center_crop_square_spec (Demo.gradient RGB 1920 1080 1))
    as [Hfits _]; [cbn; lia | cbn; lia |].
  destruct Hfits as [sq [Hsq [Hw [Hh [_ [_ [Hpix _]]]]]]];
    [vm_compute; discriminate |].
  exists sq. split; [exact Hsq |]. split; [exact Hw |]. split; [exact Hh |].
  rewrite (Hpix 0 0); [reflexivity | cbn; lia | cbn; lia].
Defined.

(** ** Loops *)

Lemma bind_Ok {A B} (m : result A) (f : A -> result B) (b : B) :
  m ≫= f = Ok b <-> exists a, m = Ok a /\ f a = Ok b.
Proof.
  destruct m as [a | e]; cbn.
  - split; [eauto | intros [a' [[= <-] H]]; exact H].
  - split; [discriminate | intros [a [[=] _]]].
Qed.

(** A loop that breaks at index [n] never looks at the elements from [n]
    on. *)
Lemma for_enumerate_from_take {A S} (body : Z -> A -> S -> result S)
    (n : Z) (xs : list A) :
  forall (idx : Z) (s : S), idx <= n ->
    Py.for_enumerate_from idx xs (fun i => i >=? n) body s
    = Py.for_enumerate_from idx (take (Z.to_nat (n - idx)) xs)
        (fun i => i >=? n) body s.
Proof.
  induction xs as [| x xs IH]; intros idx s Hidx.
  - rewrite take_nil. reflexivity.
  - cbn [Py.for_enumerate_from]. rewrite Z.geb_leb.
    destruct (Z.leb_spec n idx) as [Hge | Hlt].
    + replace (n - idx) with 0 by lia. reflexivity.
    + replace (Z.to_nat (n - idx)) with (Datatypes.S (Z.to_nat (n - (idx + 1))))
        by lia.
      cbn [take Py.for_enumerate_from]. rewrite Z.geb_leb.
      destruct (Z.leb_spec n idx); [lia |].
      destruct (body idx x s) as [s' | e]; cbn; [| reflexivity].
      apply IH. lia.
Qed.

(** A property of the loop state that every iteration keeps holds of the
    result. *)
Lemma for_enumerate_from_preserves {A S} (P : S -> Prop)
    (stop : Z -> bool) (body : Z -> A -> S -> result S) :
  (forall i x s s', P s -> body i x s = Ok s' -> P s') ->
  forall (xs : list A) (idx : Z) (s s' : S),
    P s -> Py.for_enumerate_from idx xs stop body s = Ok s' -> P s'.
Proof.
  intros Hbody. induction xs as [| x xs IH]; intros idx s s' Hs; cbn.
  - intros [= <-]. exact Hs.
  - destruct (stop idx); [intros [= <-]; exact Hs |].
    intros Hloop. apply bind_Ok in Hloop as [s1 [H1 H2]].
    eapply IH; [| exact H2]. eapply Hbody; eassumption.
Qed.

Lemma for__app {A S} (body : A -> S -> result S) (xs ys : list A) :
  forall s, Py.for_ (xs ++ ys) body s = Py.for_ xs body s ≫= Py.for_ ys body.
Proof.
  induction xs as [| x xs IH]; intros s; cbn; [reflexivity |].
  destruct (body x s) as [s' | e]; cbn; [apply IH | reflexivity].
Qed.

Lemma for__fmap {A B S} (f : A -> B) (body : B -> S -> result S)
    (xs : list A) :
  forall s, Py.for_ (f <$> xs) body s = Py.for_ xs (fun x => body (f x)) s.
Proof.
  induction xs as [| x xs IH]; intros s; cbn; [reflexivity |].
  destruct (body (f x) s) as [s' | e]; cbn; [apply IH | reflexivity].
Qed.

Lemma for__nested {A B S} (body : A -> B -> S -> result S)
    (xs : list A) (ys : list B) :
  forall s,
    Py.for_ xs (fun x => Py.for_ ys (body x)) s
    = Py.for_ (x ← xs; pair x <$> ys) (fun xy => body xy.1 xy.2) s.
Proof.
  induction xs as [| x xs IH]; intros s; [reflexivity |].
  rewrite bind_cons, for__app, for__fmap. cbn.
  destruct (Py.for_ ys (body x) s) as [s' | e]; cbn; [apply IH | reflexivity].
Qed.

Lemma for__total {A S} (P : list A -> S -> Prop) (body : A -> S -> result S)
    (xs : list A) :
  (forall done x rest s, xs = done ++ x :: rest -> P done s ->
     exists s', body x s = Ok s' /\ P (done ++ [x]) s') ->
  forall s, P [] s -> exists s', Py.for_ xs body s = Ok s' /\ P xs s'.
Proof.
  intros Hbody.
  cut (forall rest done s, xs = done ++ rest -> P done s ->
         exists s', Py.for_ rest body s = Ok s' /\ P xs s').
  { intros H s Hs. apply (H xs [] s); [reflexivity | exact Hs]. }
  induction rest as [| x rest IH]; intros done s Hxs Hs.
  - rewrite app_nil_r in Hxs. subst done. exists s.
    split; [reflexivity | exact Hs].
  - destruct (Hbody done x rest s Hxs Hs) as [s1 [H1 HP]].
    cbn. rewrite H1. cbn. apply (IH (done ++ [x])); [| exact HP].
    rewrite <- app_assoc. exact Hxs.
Qed.

Lemma for_enumerate_from_total {A S} (P : Z -> S -> Prop) (stop : Z -> bool)
    (body : Z -> A -> S -> result S) (all : list A) :
  (forall i x s, 0 <= i -> all !! Z.to_nat i = Some x -> P i s ->
     stop i = false /\ exists s', body i x s = Ok s' /\ P (i + 1) s') ->
  forall xs idx s, 0 <= idx -> xs = drop (Z.to_nat idx) all -> P idx s ->
    exists s', Py.for_enumerate_from idx xs stop body s = Ok s' /\
               P (idx + Z.of_nat (length xs)) s'.
Proof.
  intros Hbody. induction xs as [| x xs IH]; intros idx s Hidx Hxs Hs.
  - exists s. split; [reflexivity |]. cbn. rewrite Z.add_0_r. exact Hs.
  - assert (Hx : all !! Z.to_nat idx = Some x).
    { rewrite <- (Nat.add_0_r (Z.to_nat idx)), <- lookup_drop, <- Hxs.
      reflexivity. }
    destruct (Hbody idx x s Hidx Hx Hs) as [Hstop [s1 [H1 HP]]].
    cbn [Py.for_enumerate_from]. rewrite Hstop, H1. cbn [mbind result_bind].
    destruct (IH (idx + 1) s1) as [s' [Hrun HP']]; [lia | | exact HP |].
    + replace (Z.to_nat (idx + 1)) with (Z.to_nat idx + 1)%nat by lia.
      rewrite <- drop_drop, <- Hxs. reflexivity.
    + exists s'. split; [exact Hrun |].
      replace (idx + Z.of_nat (length (x :: xs)))
        with (idx + 1 + Z.of_nat (length xs)) by (cbn [length]; lia).
      exact HP'.
Qed.


(** ** File names *)

Lemma pretty_N_char_value (d : N) :
  (d < 10)%N -> (N_of_ascii (pretty_N_char d) - 48)%N = d.
Proof.
  intros Hd.
  assert (d = 0 \/ d = 1 \/ d = 2 \/ d = 3 \/ d = 4 \/ d = 5 \/ d = 6
          \/ d = 7 \/ d = 8 \/ d = 9)%N as H by lia.
  repeat (destruct H as [-> | H]; [reflexivity |]). subst d. reflexivity.
Qed.

Lemma parse_pretty_N_go (x : N) :
  forall s, parse_decimal_from 0 (pretty_N_go x s) = parse_decimal_from x s.
Proof.
  induction (N.lt_wf_0 x) as [x _ IH]. intros s.
  destruct (decide (x = 0)%N) as [-> | Hx].
  - rewrite pretty_N_go_0. reflexivity.
  - rewrite pretty_N_go_step by lia.
    rewrite IH by (apply N.div_lt; lia).
    cbn [parse_decimal_from].
    rewrite pretty_N_char_value by (apply N.mod_lt; lia).
    f_equal. pose proof (N.div_mod x 10 ltac:(lia)). lia.
Qed.

Lemma parse_pretty (n : Z) : 0 <= n -> parse_decimal (pretty n) = Z.to_N n.
Proof.
  intros Hn. destruct n as [| p | p]; [reflexivity | | lia].
  unfold parse_decimal, pretty, pretty_Z, pretty, pretty_positive, pretty,
    pretty_N.
  destruct (decide (N.pos p = 0)%N); [discriminate |].
  rewrite parse_pretty_N_go. reflexivity.
Qed.

Lemma parse_format_02d (n : Z) :
  0 <= n -> parse_decimal (Py.format_02d n) = Z.to_N n.
Proof.
  intros Hn. unfold Py.format_02d.
  destruct ((0 <=? n) && (n <? 10)).
  - change (parse_decimal ("0" +:+ pretty n)) with (parse_decimal (pretty n)).
    apply parse_pretty, Hn.
  - apply parse_pretty, Hn.
Qed.

Lemma format_02d_inj (n n' : Z) :
  0 <= n -> 0 <= n' -> Py.format_02d n = Py.format_02d n' -> n = n'.
Proof.
  intros Hn Hn' H. apply (f_equal parse_decimal) in H.
  rewrite !parse_format_02d in H by assumption. lia.
Qed.

Lemma lacks_pretty_N_go (d : ascii) (x : N) :
  (forall k, pretty_N_char k <> d) ->
  forall s, lacks d s -> lacks d (pretty_N_go x s).
Proof.
  intros Hd. induction (N.lt_wf_0 x) as [x _ IH]. intros s Hs.
  destruct (decide (x = 0)%N) as [-> | Hx].
  - rewrite pretty_N_go_0. exact Hs.
  - rewrite pretty_N_go_step by lia.
    apply IH; [apply N.div_lt; lia |]. split; [apply Hd | exact Hs].
Qed.

Lemma not_digit (d : ascii) :
  (N_of_ascii d < 48 \/ 57 < N_of_ascii d)%N -> forall k, pretty_N_char k <> d.
Proof.
  intros Hd k <-. unfold pretty_N_char in Hd.
  repeat case_match; cbn in Hd; lia.
Qed.

Lemma lacks_format_02d (d : ascii) (n : Z) :
  0 <= n -> (N_of_ascii d < 48 \/ 57 < N_of_ascii d)%N ->
  lacks d (Py.format_02d n).
Proof.
  intros Hn Hd. pose proof (not_digit d Hd) as Hk.
  assert (lacks d (pretty n)) as Hp.
  { destruct n as [| p | p]; [| | lia].
    - split; [| exact I]. apply (Hk 0%N).
    - unfold pretty, pretty_Z, pretty, pretty_positive, pretty, pretty_N.
      destruct (decide (N.pos p = 0)%N); [discriminate |].
      apply lacks_pretty_N_go; [exact Hk | exact I]. }
  unfold Py.format_02d. destruct ((0 <=? n) && (n <? 10)); [| exact Hp].
  split; [apply (Hk 0%N) | exact Hp].
Qed.

Lemma split_at (d : ascii) (a : string) :
  forall a' b b', lacks d a -> lacks d a' ->
    a +:+ String d b = a' +:+ String d b' -> a = a' /\ b = b'.
Proof.
  induction a as [| c a IH]; intros [| c' a'] b b' Ha Ha'; cbn.
  - intros [= <-]. split; reflexivity.
  - intros [= <- _]. destruct Ha' as [Hc _]. contradiction.
  - intros [= -> _]. destruct Ha as [Hc _]. contradiction.
  - intros [= <- H]. destruct Ha as [_ Ha]. destruct Ha' as [_ Ha'].
    destruct (IH a' b b' Ha Ha' H) as [-> ->]. split; reflexivity.
Qed.

Lemma frame_name_inj (row col row' col' : Z) :
  0 <= row -> 0 <= col -> 0 <= row' -> 0 <= col' ->
  frame_name row col = frame_name row' col' -> row = row' /\ col = col'.
Proof.
  intros Hr Hc Hr' Hc'. unfold frame_name. intros H.
  apply (inj (String.app "frame_")) in H.
  apply (split_at "_") in H as [Hrow H];
    [| apply lacks_format_02d; [assumption | cbn; lia] ..].
  apply (split_at ".") in H as [Hcol _];
    [| apply lacks_format_02d; [assumption | cbn; lia] ..].
  split; apply format_02d_inj; assumption.
Qed.

(** ** Row-major order *)

Lemma elem_of_range (n i : Z) : i ∈ Py.range n <-> 0 <= i < n.
Proof. unfold Py.range. rewrite elem_of_seqZ. lia. Qed.

Lemma elem_of_row_major (rows cols r c : Z) :
  (r, c) ∈ row_major rows cols <-> 0 <= r < rows /\ 0 <= c < cols.
Proof.
  unfold row_major. rewrite list_elem_of_bind. split.
  - intros [r' [Hc Hr]]. apply list_elem_of_fmap in Hc as [c' [[= -> ->] Hc]].
    apply elem_of_range in Hr, Hc. split; assumption.
  - intros [Hr Hc]. exists r. split; [| apply elem_of_range, Hr].
    apply list_elem_of_fmap. exists c.
    split; [reflexivity | apply elem_of_range, Hc].
Qed.

Lemma lookup_rows_from (cols : Z) (n : nat) :
  0 < cols ->
  forall m i, 0 <= i < Z.of_nat n * cols ->
    (seqZ m (Z.of_nat n) ≫= fun r => pair r <$> Py.range cols)
      !! Z.to_nat i = Some (m + i / cols, i mod cols).
Proof.
  intros Hc. induction n as [| n IH]; intros m i Hi; [lia |].
  rewrite seqZ_cons by lia. rewrite bind_cons.
  replace (Z.pred (Z.of_nat (S n))) with (Z.of_nat n) by lia.
  destruct (Z.lt_ge_cases i cols) as [Hlt | Hge].
  - rewrite lookup_app_l
      by (rewrite length_fmap; unfold Py.range; rewrite length_seqZ; lia).
    rewrite list_lookup_fmap. unfold Py.range.
    rewrite lookup_seqZ_lt by lia. cbn.
    rewrite Z.div_small, Z.mod_small by lia. do 2 f_equal; lia.
  - rewrite lookup_app_r
      by (rewrite length_fmap; unfold Py.range; rewrite length_seqZ; lia).
    rewrite length_fmap. unfold Py.range at 1. rewrite length_seqZ.
    replace (Z.to_nat i - Z.to_nat cols)%nat with (Z.to_nat (i - cols)) by lia.
    rewrite IH by lia.
    replace i with ((i - cols) + 1 * cols) at 3 4 by lia.
    rewrite Z.div_add, Z.mod_add by lia. do 2 f_equal; lia.
Qed.

Lemma lookup_row_major (rows cols i : Z) :
  0 < cols -> 0 <= i < rows * cols ->
  row_major rows cols !! Z.to_nat i = Some (i / cols, i mod cols).
Proof.
  intros Hc Hi. unfold row_major.
  assert (0 <= rows) by nia.
  change (Py.range rows) with (seqZ 0 rows).
  rewrite <- (Z2Nat.id rows) by lia.
  rewrite (lookup_rows_from cols (Z.to_nat rows) Hc 0 i) by lia.
  reflexivity.
Qed.

Lemma length_rows_from (cols : Z) (n : nat) :
  0 <= cols ->
  forall m, length (seqZ m (Z.of_nat n) ≫= fun r => pair r <$> Py.range cols)
            = Z.to_nat (Z.of_nat n * cols).
Proof.
  intros Hc. induction n as [| n IH]; intros m; [reflexivity |].
  rewrite seqZ_cons by lia. rewrite bind_cons, length_app.
  replace (Z.pred (Z.of_nat (S n))) with (Z.of_nat n) by lia.
  rewrite IH, length_fmap. unfold Py.range. rewrite length_seqZ. nia.
Qed.

Lemma length_row_major (rows cols : Z) :
  0 <= rows -> 0 <= cols ->
  length (row_major rows cols) = Z.to_nat (rows * cols).
Proof.
  intros Hr Hc. unfold row_major.
  change (Py.range rows) with (seqZ 0 rows).
  rewrite <- (Z2Nat.id rows) at 1 by lia.
  rewrite length_rows_from by lia. rewrite Z2Nat.id by lia. reflexivity.
Qed.

(** ** Slicing *)

Lemma slice_cell_Ok (img : Image) (cw ch : Z) (out : Path) (row col : Z)
    (fs : FileStore) (frames : list Path) :
  1 <= cw -> 1 <= ch -> cw * ch <= 2 * PIL.MAX_IMAGE_PIXELS ->
  exists cell,
    PIL.crop img (cell_box cw ch row col) = Ok cell /\
    width cell = cw /\ height cell = ch /\
    slice_cell img cw ch out row col (fs, frames)
    = Ok (<[cell_path out (row, col) := cell]> fs,
          frames ++ [cell_path out (row, col)]).
Proof.
  intros Hcw Hch Hsize. unfold slice_cell, cell_box.
  rewrite crop_returns;
    [| lia | lia | rewrite !Z.add_simpl_l, !Z.max_r by lia; exact Hsize].
  eexists. split; [reflexivity |]. cbn [width height].
  split; [lia |]. split; [lia |].
  cbn [mbind result_bind]. unfold PIL.save. cbn [width height].
  destruct (Z.ltb_spec (col * cw + cw - col * cw) 1); [lia |].
  destruct (Z.ltb_spec (row * ch + ch - row * ch) 1); [lia |].
  reflexivity.
Qed.

Lemma cell_path_inj (out : Path) (rc rc' : Z * Z) :
  0 <= rc.1 -> 0 <= rc.2 -> 0 <= rc'.1 -> 0 <= rc'.2 ->
  cell_path out rc = cell_path out rc' -> rc = rc'.
Proof.
  destruct rc as [r c], rc' as [r' c']. cbn. intros ? ? ? ? H.
  unfold cell_path, path_join in H. cbn in H.
  apply app_inj_tail in H as [_ H].
  apply frame_name_inj in H as [-> ->]; auto.
Qed.

(** What the two nested loops of [slice_grid] leave behind when every cell
    has a positive extent. *)
Lemma slice_loops (img : Image) (cw ch : Z) (out : Path) (cols rows : Z)
    (fs : FileStore) :
  1 <= cw -> 1 <= ch -> cw * ch <= 2 * PIL.MAX_IMAGE_PIXELS ->
  exists fs',
    Py.for_ (Py.range rows) (fun row =>
       Py.for_ (Py.range cols) (fun col =>
         slice_cell img cw ch out row col)) (fs, [])
    = Ok (fs', cell_path out <$> row_major rows cols) /\
    forall row col, 0 <= row < rows -> 0 <= col < cols ->
      exists cell, fs' !! cell_path out (row, col) = Some cell /\
                   PIL.crop img (cell_box cw ch row col) = Ok cell.
Proof.
  intros Hcw Hch Hsize.
  rewrite (for__nested (fun row col => slice_cell img cw ch out row col)).
  fold (row_major rows cols).
  assert (Hall : forall rc, rc ∈ row_major rows cols ->
                 0 <= rc.1 /\ 0 <= rc.2).
  { intros [r c] H. apply elem_of_row_major in H. cbn. lia. }
  destruct (for__total
    (fun done (st : FileStore * list Path) =>
       st.2 = cell_path out <$> done /\
       forall rc, rc ∈ done ->
         exists cell, st.1 !! cell_path out rc = Some cell /\
                      PIL.crop img (cell_box cw ch rc.1 rc.2) = Ok cell)
    (fun rc => slice_cell img cw ch out rc.1 rc.2)
    (row_major rows cols)) with (s := (fs, @nil Path))
    as [[fs' frames] [Hrun [Hframes Hcells]]].
  - intros done [r c] rest [fs1 frames1] Hsplit [Hfr Hdone].
    cbn in Hfr. subst frames1.
    destruct (slice_cell_Ok img cw ch out r c fs1 (cell_path out <$> done)
                Hcw Hch Hsize) as [cell [Hcrop [_ [_ Hstep]]]].
    eexists. split; [exact Hstep |]. cbn [fst snd]. split.
    + rewrite fmap_app. reflexivity.
    + intros rc Hin.
      assert (Hx : (r, c) ∈ row_major rows cols).
      { rewrite Hsplit. apply elem_of_app. right. left. }
      assert (Hrc : rc ∈ row_major rows cols).
      { rewrite Hsplit. apply elem_of_app.
        apply elem_of_app in Hin as [Hin | Hin]; [left; exact Hin |].
        apply list_elem_of_singleton in Hin. subst rc. right. left. }
      destruct (decide (cell_path out (r, c) = cell_path out rc))
        as [Heq | Hne].
      * apply cell_path_inj in Heq;
          [| apply (Hall _ Hx) | apply (Hall _ Hx)
           | apply (Hall _ Hrc) | apply (Hall _ Hrc)].
        subst rc. exists cell. rewrite lookup_insert_eq.
        split; [reflexivity | exact Hcrop].
      * apply elem_of_app in Hin as [Hin | Hin].
        -- destruct (Hdone rc Hin) as [cell' [Hl Hc']]. exists cell'.
           rewrite lookup_insert_ne by exact Hne. split; assumption.
        -- apply list_elem_of_singleton in Hin. subst rc. contradiction.
  - cbn. split; [reflexivity |]. intros rc Hin. inversion Hin.
  - exists fs'. cbn in Hframes. subst frames. split; [exact Hrun |].
    intros row col Hr Hc. apply (Hcells (row, col)).
    apply elem_of_row_major. split; assumption.
Qed.

Lemma open_Ok (fs : FileStore) (path : Path) (img : Image) :
  PIL.open_ fs path = Ok img <->
  fs !! path = Some img /\ 1 <= width img /\ 1 <= height img /\
  width img * height img <= 2 * PIL.MAX_IMAGE_PIXELS.
Proof.
  unfold PIL.open_, PIL.decompression_bomb_check.
  destruct (fs !! path) as [im |];
    [| split; [discriminate | intros [[=] _]]].
  destruct (Z.leb_spec 1 (width im)); cbn [andb fst snd].
  - destruct (Z.leb_spec 1 (height im)); cbn [andb].
    + rewrite !Z.max_r by lia.
      destruct (Z.ltb_spec (2 * PIL.MAX_IMAGE_PIXELS)
                  (width im * height im)); cbn [mbind result_bind].
      * split; [discriminate | intros [[= <-] ?]; lia].
      * split; [intros [= <-]; auto | intros [[= <-] _]; reflexivity].
    + split; [discriminate | intros [[= <-] ?]; lia].
  - split; [discriminate | intros [[= <-] ?]; lia].
Qed.

Lemma crop_Ok (img cell : Image) (x0 y0 x1 y1 : Z) :
  PIL.crop img (x0, y0, x1, y1) = Ok cell ->
  width cell = x1 - x0 /\ height cell = y1 - y0 /\ mode cell = mode img /\
  forall x y, PIL.inside img (x + x0) (y + y0) = true ->
    pix cell x y = pix img (x + x0) (y + y0).
Proof.
  unfold PIL.crop. destruct (x1 <? x0); [discriminate |].
  destruct (y1 <? y0); [discriminate |].
  destruct (PIL.decompression_bomb_check _) as [[] | e]; [| discriminate].
  intros [= <-]. cbn.
  repeat split. intros x y ->. reflexivity.
Qed.

(** The cells of a grid over an image have no more pixels than the image. *)
Lemma cell_pixels_le (w h cols rows : Z) :
  0 <= w -> 0 <= h -> 1 <= cols -> 1 <= rows ->
  Z.max 1 (w / cols) * Z.max 1 (h / rows) <= Z.max 1 w * Z.max 1 h.
Proof.
  intros Hw Hh Hc Hr.
  assert (0 <= w / cols <= w).
  { split; [apply Z.div_pos; lia |].
    apply Z.div_le_upper_bound; [lia | nia]. }
  assert (0 <= h / rows <= h).
  { split; [apply Z.div_pos; lia |].
    apply Z.div_le_upper_bound; [lia | nia]. }
  apply Z.mul_le_mono_nonneg; lia.
Qed.

Lemma slice_grid_Ok (fs : FileStore) (image_path : Path) (img : Image)
    (cols rows : Z) (output_dir : Path) :
  PIL.open_ fs image_path = Ok img ->
  1 <= cols -> 1 <= rows -> cols <= width img -> rows <= height img ->
  exists fs',
    slice_grid fs image_path cols rows output_dir
    = Ok (cell_path output_dir <$> row_major rows cols, fs') /\
    forall row col, 0 <= row < rows -> 0 <= col < cols ->
      exists cell,
        fs' !! cell_path output_dir (row, col) = Some cell /\
        PIL.crop img (cell_box (width img / cols) (height img / rows) row col)
        = Ok cell.
Proof.
  intros Hopen Hc Hr Hw Hh. unfold slice_grid. rewrite Hopen.
  cbn [mbind result_bind]. rewrite !floordiv_Ok by lia.
  cbn [mbind result_bind].
  assert (Hcw : 1 <= width img / cols)
    by (apply Z.div_le_lower_bound; lia).
  assert (Hch : 1 <= height img / rows)
    by (apply Z.div_le_lower_bound; lia).
  assert (Hsize : width img / cols * (height img / rows)
                  <= 2 * PIL.MAX_IMAGE_PIXELS).
  { apply open_Ok in Hopen as (_ & ? & ? & Hlim).
    pose proof (cell_pixels_le (width img) (height img) cols rows
                  ltac:(lia) ltac:(lia) Hc Hr) as Hle.
    rewrite !Z.max_r in Hle by lia. lia. }
  destruct (slice_loops img _ _ output_dir cols rows fs Hcw Hch Hsize)
    as [fs' [Hrun Hcells]].
  rewrite Hrun. cbn [mbind result_bind]. exists fs'.
  split; [reflexivity | exact Hcells].
Qed.

Lemma slice_cell_raises (img : Image) (cw ch : Z) (out : Path) (row col : Z)
    (st : FileStore * list Path) :
  0 <= cw -> 0 <= ch -> cw < 1 \/ ch < 1 ->
  Z.max 1 cw * Z.max 1 ch <= 2 * PIL.MAX_IMAGE_PIXELS ->
  slice_cell img cw ch out row col st
  = Raise (SystemError "tile cannot extend outside image").
Proof.
  intros Hcw Hch Hsmall Hsize. destruct st as [fs frames].
  unfold slice_cell.
  rewrite crop_returns;
    [| lia | lia | rewrite !Z.add_simpl_l; exact Hsize].
  cbn [mbind result_bind]. unfold PIL.save. cbn [width height].
  destruct (Z.ltb_spec (col * cw + cw - col * cw) 1); [reflexivity |].
  destruct (Z.ltb_spec (row * ch + ch - row * ch) 1); [reflexivity |].
  lia.
Qed.

(** C10, as stated, fails in the degenerate case: slicing a 1x1 image into
    2 columns makes a cell of zero width, which cannot be saved; the call
    raises and returns no cells. *)
Lemma slice_grid_zero_extent_raises :
  (exists img, PIL.open_ Demo.store Demo.tiny = Ok img /\
               width img = 1 /\ height img = 1) /\
  slice_grid Demo.store Demo.tiny 2 1 Demo.cells
  = Raise (SystemError "tile cannot extend outside image").
Proof.
  split; [eexists; split; [reflexivity | split; reflexivity] |].
  vm_compute. reflexivity.
Qed.

(** C10, amended: for an image file of width w and height h and
    cols, rows >= 1, [slice_grid] returns exactly cols * rows cell files in
    row-major order, each w // cols wide and h // rows high and holding the
    crop of its cell, provided cols <= w and rows <= h.  When w < cols or
    h < rows the first cell has a zero extent and saving it raises, so no
    cells are returned. *)
Theorem slice_grid_cells (fs : FileStore) (image_path : Path) (img : Image)
    (cols rows : Z) (output_dir : Path) :
  PIL.open_ fs image_path = Ok img ->
  1 <= cols -> 1 <= rows ->
  (cols <= width img -> rows <= height img ->
   exists frames fs',
     slice_grid fs image_path cols rows output_dir = Ok (frames, fs') /\
     length frames = Z.to_nat (cols * rows) /\
     forall i, 0 <= i < cols * rows ->
       exists cell,
         frames !! Z.to_nat i
         = Some (path_join output_dir (frame_name (i / cols) (i mod cols))) /\
         fs' !! path_join output_dir (frame_name (i / cols) (i mod cols))
         = Some cell /\
         PIL.crop img (cell_box (width img / cols) (height img / rows)
                         (i / cols) (i mod cols)) = Ok cell /\
         width cell = width img / cols /\
         height cell = height img / rows) /\
  (width img < cols \/ height img < rows ->
   slice_grid fs image_path cols rows output_dir
   = Raise (SystemError "tile cannot extend outside image")).
Proof.
  intros Hopen Hc Hr. split.
  - intros Hw Hh.
    destruct (slice_grid_Ok fs image_path img cols rows output_dir
                Hopen Hc Hr Hw Hh) as [fs' [Hrun Hcells]].
    eexists _, fs'. split; [exact Hrun |].
    split; [rewrite length_fmap, length_row_major by lia; f_equal; lia |].
    intros i Hi.
    assert (0 <= i / cols < rows).
    { split; [apply Z.div_pos; lia | apply Z.div_lt_upper_bound; lia]. }
    pose proof (Z.mod_pos_bound i cols ltac:(lia)).
    destruct (Hcells (i / cols) (i mod cols)) as [cell [Hl Hcrop]];
      [lia | lia |].
    exists cell. rewrite list_lookup_fmap, lookup_row_major by lia.
    split; [reflexivity |]. split; [exact Hl |]. split; [exact Hcrop |].
    apply crop_Ok in Hcrop as (-> & -> & _). lia.
  - intros Hsmall. apply open_Ok in Hopen as Hext.
    destruct Hext as (_ & Hw & Hh & Hlim).
    unfold slice_grid. rewrite Hopen. cbn [mbind result_bind].
    rewrite !floordiv_Ok by lia. cbn [mbind result_bind].
    unfold Py.range. rewrite (seqZ_cons 0 rows), (seqZ_cons 0 cols) by lia.
    cbn [Py.for_]. rewrite slice_cell_raises; [reflexivity | | | |].
    + apply Z.div_pos; lia.
    + apply Z.div_pos; lia.
    + destruct Hsmall as [Hs | Hs]; [left | right];
        rewrite Z.div_small by lia; lia.
    + pose proof (cell_pixels_le (width img) (height img) cols rows
                    ltac:(lia) ltac:(lia) Hc Hr) as Hle.
      rewrite (Z.max_r 1 (width img)), (Z.max_r 1 (height img)) in Hle
        by lia.
      lia.
Qed.

Lemma slice_grid_cells_witness :
  exists frames fs',
    slice_grid Demo.store Demo.sheet 2 2 Demo.cells = Ok (frames, fs') /\
    length frames = 4%nat /\
    exists cell,
      frames !! 3%nat = Some ["out"; "cells"; "frame_01_01.png"] /\
      fs' !! ["out"; "cells"; "frame_01_01.png"] = Some cell /\
      width cell = 3 /\ height cell = 2.
Proof.
  destruct (slice_grid_cells Demo.store Demo.sheet
              (Demo.gradient RGBA 7 5 4) 2 2 Demo.cells eq_refl
              ltac:(lia) ltac:(lia)) as [Hcells _].
  destruct (Hcells ltac:(cbn; lia) ltac:(cbn; lia))
    as [frames [fs' [Hrun [Hlen Hcell]]]].
  exists frames, fs'. split; [exact Hrun |]. split; [exact Hlen |].
  destruct (Hcell 3 ltac:(lia)) as [cell (Hp & Hl & _ & Hw & Hh)].
  exists cell. repeat split; assumption.
Defined.

(** ** Composing *)

Section ComposeProperties.

Variable lanczos : Image -> Z -> Z -> Z -> Z -> Pixel.

Lemma compose_cell_size fs cols s idx frame_path (grid grid' : Image) :
  compose_cell lanczos fs cols s idx frame_path grid = Ok grid' ->
  width grid' = width grid /\ height grid' = height grid.
Proof.
  unfold compose_cell. intros H.
  apply bind_Ok in H as [row [_ H]]. apply bind_Ok in H as [col [_ H]].
  apply bind_Ok in H as [f1 [_ H]]. apply bind_Ok in H as [f2 [_ H]].
  injection H as <-. split; reflexivity.
Qed.

Lemma reference_cell_size fs cols s idx frame_path (grid grid' : Image) :
  reference_cell lanczos fs cols s idx frame_path grid = Ok grid' ->
  width grid' = width grid /\ height grid' = height grid.
Proof.
  unfold reference_cell. intros H.
  apply bind_Ok in H as [row [_ H]]. apply bind_Ok in H as [col [_ H]].
  apply bind_Ok in H as [f1 [_ H]]. apply bind_Ok in H as [f2 [_ H]].
  apply bind_Ok in H as [f3 [_ H]].
  injection H as <-. split; reflexivity.
Qed.

Lemma new_Ok m w h c (im : Image) :
  PIL.new m (w, h) c = Ok im ->
  width im = w /\ height im = h /\ 0 <= w /\ 0 <= h.
Proof.
  unfold PIL.new.
  destruct (Z.ltb_spec w 0); cbn [orb]; [discriminate |].
  destruct (Z.ltb_spec h 0); cbn [orb]; [discriminate |].
  destruct (_ || _); [discriminate |].
  destruct (_ <? w); [discriminate |].
  intros [= <-]. cbn. lia.
Qed.

(** An image of at most twice [MAX_IMAGE_PIXELS] pixels, or with an empty
    extent below that number, is within the limits of [Image.new]. *)
Lemma new_returns m w h c :
  0 <= w <= 2 * PIL.MAX_IMAGE_PIXELS -> 0 <= h <= 2 * PIL.MAX_IMAGE_PIXELS ->
  PIL.new m (w, h) c
  = Ok {| mode := m; width := w; height := h;
          pix := fun _ _ => PIL.to_mode RGBA m c |}.
Proof.
  intros Hw Hh. unfold PIL.new.
  assert (2 * PIL.MAX_IMAGE_PIXELS < PIL.INT_MAX / 4 - 1) by reflexivity.
  assert (PIL.INT_MAX / 4 - 1 < PIL.INT_MAX) by reflexivity.
  destruct (Z.ltb_spec w 0); [lia |].
  destruct (Z.ltb_spec h 0); [lia |]. cbn [orb].
  destruct (Z.ltb_spec PIL.INT_MAX w); [lia |].
  destruct (Z.ltb_spec PIL.INT_MAX h); [lia |]. cbn [orb].
  destruct (Z.ltb_spec (PIL.INT_MAX / 4 - 1) w); [lia |].
  reflexivity.
Qed.

Lemma extents_le_pixels (w h : Z) (n : Z) :
  1 <= w -> 1 <= h -> w * h <= n -> 0 <= w <= n /\ 0 <= h <= n.
Proof. intros Hw Hh Hn. nia. Qed.

Lemma compose_grid_size fs frames cols rows s (grid : Image) :
  compose_grid lanczos fs frames cols rows s = Ok grid ->
  width grid = cols * s /\ height grid = rows * s.
Proof.
  unfold compose_grid, Py.for_enumerate. intros H.
  apply bind_Ok in H as [g0 [Hnew Hloop]].
  apply new_Ok in Hnew as [Hw [Hh _]].
  revert Hloop.
  apply (for_enumerate_from_preserves
           (fun g => width g = cols * s /\ height g = rows * s));
    [| split; assumption].
  intros i x g g' [Hgw Hgh] Hcell.
  apply compose_cell_size in Hcell as [-> ->]. split; assumption.
Qed.

Lemma create_reference_grid_size fs frames cols rows resolution
    (grid : Image) :
  create_reference_grid lanczos fs frames cols rows resolution = Ok grid ->
  Z.max cols rows <> 0 /\
  width grid = resolution / Z.max cols rows * Z.max cols rows /\
  height grid = resolution / Z.max cols rows * Z.max cols rows.
Proof.
  unfold create_reference_grid, Py.for_enumerate.
  destruct frames as [| p rest]; [discriminate |]. intros H.
  apply bind_Ok in H as [c [Hc H]].
  unfold Py.floordiv in Hc.
  destruct (Z.eqb_spec (Z.max cols rows) 0) as [| Hmax]; [discriminate |].
  injection Hc as <-. split; [exact Hmax |].
  apply bind_Ok in H as [g0 [Hnew Hloop]].
  apply new_Ok in Hnew as [Hw [Hh _]].
  revert Hloop.
  apply (for_enumerate_from_preserves
           (fun g => width g = resolution / Z.max cols rows * Z.max cols rows
                     /\ height g
                        = resolution / Z.max cols rows * Z.max cols rows));
    [| split; assumption].
  intros i x g g' [Hgw Hgh] Hcell.
  apply reference_cell_size in Hcell as [-> ->]. split; assumption.
Qed.



Lemma compose_cell_returns fs cols s idx frame_path grid :
  1 <= cols -> 1 <= s -> is_Ok (PIL.open_ fs frame_path) ->
  is_Ok (compose_cell lanczos fs cols s idx frame_path grid).
Proof.
  intros Hc Hs [frame Hopen]. unfold compose_cell.
  rewrite floordiv_Ok, mod_Ok by lia. cbn [mbind result_bind].
  rewrite Hopen. cbn [mbind result_bind]. unfold PIL.resize.
  destruct (Z.ltb_spec s 1); [lia |]. cbn [orb mbind result_bind].
  eexists. reflexivity.
Qed.

Lemma reference_cell_returns fs cols s idx frame_path grid :
  1 <= cols -> 1 <= s -> is_Ok (PIL.open_ fs frame_path) ->
  is_Ok (reference_cell lanczos fs cols s idx frame_path grid).
Proof.
  intros Hc Hs [frame Hopen]. unfold reference_cell.
  rewrite floordiv_Ok, mod_Ok by lia. cbn [mbind result_bind].
  rewrite Hopen. cbn [mbind result_bind].
  apply open_Ok in Hopen as (_ & Hw & Hh & Hlim).
  destruct (center_crop_square_returns (PIL.convert frame RGB))
    as [sq ->]; [cbn; lia | cbn; lia | cbn [PIL.convert width height]; nia |].
  cbn [mbind result_bind]. unfold PIL.resize.
  destruct (Z.ltb_spec s 1); [lia |]. cbn [orb mbind result_bind].
  eexists. reflexivity.
Qed.

End ComposeProperties.

(** C5: with cols, rows >= 1 and more than cols * rows frames, both
    compositors return what they return on the first cols * rows frames
    alone (the composite, or the exception of the first frame that cannot
    be placed). *)
Theorem compose_ignores_excess
    (lanczos : Image -> Z -> Z -> Z -> Z -> Pixel) (fs : FileStore)
    (frames : list Path) (cols rows sprite_size resolution : Z) :
  1 <= cols -> 1 <= rows ->
  cols * rows < Z.of_nat (length frames) ->
  compose_grid lanczos fs frames cols rows sprite_size
  = compose_grid lanczos fs (take (Z.to_nat (cols * rows)) frames)
      cols rows sprite_size /\
  create_reference_grid lanczos fs frames cols rows resolution
  = create_reference_grid lanczos fs (take (Z.to_nat (cols * rows)) frames)
      cols rows resolution.
Proof.
  intros Hc Hr Hlen. split.
  - unfold compose_grid, Py.for_enumerate.
    destruct (PIL.new _ _ _) as [grid | e]; cbn [mbind result_bind];
      [| reflexivity].
    rewrite (for_enumerate_from_take _ (cols * rows) frames 0) by nia.
    rewrite Z.sub_0_r. reflexivity.
  - unfold create_reference_grid, Py.for_enumerate.
    destruct frames as [| p rest]; [cbn in Hlen; nia |].
    replace (Z.to_nat (cols * rows))
      with (Datatypes.S (Z.to_nat (cols * rows - 1))) by nia.
    cbn [take].
    destruct (Py.floordiv _ _) as [c | e]; cbn [mbind result_bind];
      [| reflexivity].
    destruct (PIL.new _ _ _) as [grid | e]; cbn [mbind result_bind];
      [| reflexivity].
    rewrite (for_enumerate_from_take _ (cols * rows) (p :: rest) 0) by nia.
    rewrite Z.sub_0_r.
    replace (Z.to_nat (cols * rows))
      with (Datatypes.S (Z.to_nat (cols * rows - 1))) by nia.
    reflexivity.
Qed.

Lemma compose_ignores_excess_witness :
  compose_grid Demo.nearest Demo.store
    [Demo.frame_a; Demo.frame_b; Demo.frame_c] 1 2 64
  = compose_grid Demo.nearest Demo.store [Demo.frame_a; Demo.frame_b] 1 2 64
  /\
  create_reference_grid Demo.nearest Demo.store
    [Demo.frame_a; Demo.frame_b; Demo.frame_c] 1 2 128
  = create_reference_grid Demo.nearest Demo.store
      [Demo.frame_a; Demo.frame_b] 1 2 128.
Proof.
  exact (compose_ignores_excess Demo.nearest Demo.store
           [Demo.frame_a; Demo.frame_b; Demo.frame_c] 1 2 64 128
           ltac:(lia) ltac:(lia) ltac:(cbn; lia)).
Defined.




(** C4: on an empty frame sequence [create_reference_grid] raises
    [ValueError] and produces no composite.  [compose_grid] has no such
    check: it returns the blank canvas, e.g. a fully transparent 1024x1024
    image for a 2x2 grid of 512-pixel cells. *)
Theorem compose_empty_frames
    (lanczos : Image -> Z -> Z -> Z -> Z -> Pixel) (fs : FileStore)
    (cols rows resolution sprite_size : Z) :
  create_reference_grid lanczos fs [] cols rows resolution
  = Raise (ValueError "No frames provided") /\
  compose_grid lanczos fs [] cols rows sprite_size
  = PIL.new RGBA (cols * sprite_size, rows * sprite_size) (0, 0, 0, 0) /\
  exists grid,
    compose_grid lanczos fs [] 2 2 512 = Ok grid /\
    width grid = 1024 /\ height grid = 1024 /\
    forall x y, pix grid x y = (0, 0, 0, 0).
Proof.
  split; [reflexivity |]. split.
  - unfold compose_grid.
    destruct (PIL.new _ _ _); reflexivity.
  - eexists. split; [reflexivity |]. cbn. repeat split.
Qed.





(** ** The sheet extent and squaring *)

(** X1: for cols, rows >= 1 and resolution >= 0 the sheet extent
    [calculate_grid_resolution] gives for the cell size of
    [calculate_sprite_size] fits the resolution: width and height lie in
    [0, resolution], the longer side is cell size * max(cols, rows) and
    falls short of the resolution by less than max(cols, rows); and it is
    the extent of every sheet [compose_grid] returns for that cell size. *)
Theorem grid_resolution_fits (resolution cols rows s : Z) :
  1 <= cols -> 1 <= rows -> 0 <= resolution ->
  calculate_sprite_size resolution cols rows = Ok s ->
  let w := (calculate_grid_resolution s cols rows).1 in
  let h := (calculate_grid_resolution s cols rows).2 in
  0 <= w <= resolution /\ 0 <= h <= resolution /\
  Z.max w h = s * Z.max cols rows /\
  resolution - Z.max cols rows < Z.max w h /\
  forall lanczos fs frames sheet,
    compose_grid lanczos fs frames cols rows s = Ok sheet ->
    (width sheet, height sheet) = calculate_grid_resolution s cols rows.
Proof.
  intros Hc Hr Hres Hs w h. unfold calculate_sprite_size in Hs.
  rewrite floordiv_Ok in Hs by lia. injection Hs as Hs.
  pose proof (Z.div_mod resolution (Z.max cols rows) ltac:(lia)) as Hdm.
  pose proof (Z.mod_pos_bound resolution (Z.max cols rows) ltac:(lia)) as Hm.
  rewrite Hs in Hdm.
  assert (0 <= s) by (subst s; apply Z.div_pos; lia).
  subst w h. cbn [calculate_grid_resolution fst snd].
  assert (Hcm : s * cols <= s * Z.max cols rows)
    by (apply Z.mul_le_mono_nonneg_l; lia).
  assert (Hrm : s * rows <= s * Z.max cols rows)
    by (apply Z.mul_le_mono_nonneg_l; lia).
  assert (Hmax : Z.max (s * cols) (s * rows) = s * Z.max cols rows).
  { apply Z.mul_max_distr_nonneg_l. lia. }
  assert (0 <= s * cols) by nia. assert (0 <= s * rows) by nia.
  split; [lia |]. split; [lia |]. split; [exact Hmax |].
  split; [rewrite Hmax; lia |].
  intros lanczos fs frames sheet Hsheet.
  apply compose_grid_size in Hsheet as [-> ->].
  unfold calculate_grid_resolution. f_equal; apply Z.mul_comm.
Qed.

Lemma grid_resolution_fits_witness :
  0 <= 333 * 3 <= 1000 /\ 0 <= 333 * 2 <= 1000 /\
  Z.max (333 * 3) (333 * 2) = 333 * Z.max 3 2 /\
  1000 - Z.max 3 2 < Z.max (333 * 3) (333 * 2).
Proof.
  destruct (grid_resolution_fits 1000 3 2 333 ltac:(lia) ltac:(lia) ltac:(lia)
              eq_refl) as (Hw & Hh & Hmax & Hlow & _).
  split; [exact Hw |]. split; [exact Hh |]. split; [exact Hmax | exact Hlow].
Defined.



Lemma center_crop_square_of_square (image : Image) :
  0 < width image -> width image = height image ->
  width image * height image <= 2 * PIL.MAX_IMAGE_PIXELS ->
  exists sq,
    center_crop_square image = Ok sq /\
    mode sq = mode image /\
    width sq = width image /\ height sq = height image /\
    forall x y, PIL.getpixel sq x y = PIL.getpixel image x y.
Proof.
  intros Hw Hsq Hsize. unfold center_crop_square, center_crop_box.
  rewrite <- Hsq in Hsize |- *. rewrite Z.min_id, Z.sub_diag.
  change (0 / 2) with 0. rewrite !Z.add_0_l.
  rewrite crop_returns;
    [| lia | lia | rewrite !Z.sub_0_r, !Z.max_r by lia; exact Hsize].
  eexists. split; [reflexivity |]. cbn [mode width height].
  split; [reflexivity |]. split; [lia |]. split; [lia |].
  intros x y. unfold PIL.getpixel, PIL.inside at 1. cbn [width height pix].
  rewrite !Z.sub_0_r, !Z.add_0_r. unfold PIL.inside. rewrite <- Hsq.
  destruct ((0 <=? x) && (x <? width image) && (0 <=? y)
            && (y <? width image)); reflexivity.
Qed.

Lemma pad_to_square_size (image : Image) (fill_color : Pixel) :
  0 <= width image -> 0 <= height image ->
  Z.max (width image) (height image) * Z.max (width image) (height image)
  <= 2 * PIL.MAX_IMAGE_PIXELS ->
  exists padded,
    pad_to_square image fill_color = Ok padded /\
    width padded = Z.max (width image) (height image) /\
    height padded = Z.max (width image) (height image).
Proof.
  intros Hw Hh Hsize. unfold pad_to_square.
  rewrite new_returns by nia.
  cbn [mbind result_bind]. eexists. split; [reflexivity |].
  split; reflexivity.
Qed.

(** X3: squaring is idempotent.  The centre crop of an image with positive
    extent is a square that [center_crop_square] returns unchanged (same
    size, same pixels), and so is what [pad_to_square] returns; each for a
    square of at most twice [MAX_IMAGE_PIXELS] pixels. *)
Theorem center_crop_square_idempotent (image : Image) (fill_color : Pixel) :
  0 < width image -> 0 < height image ->
  let side := Z.min (width image) (height image) in
  let size := Z.max (width image) (height image) in
  (side * side <= 2 * PIL.MAX_IMAGE_PIXELS ->
   exists sq sq',
     center_crop_square image = Ok sq /\
     center_crop_square sq = Ok sq' /\
     width sq' = width sq /\ height sq' = height sq /\
     (forall x y, PIL.getpixel sq' x y = PIL.getpixel sq x y)) /\
  (size * size <= 2 * PIL.MAX_IMAGE_PIXELS ->
   exists padded padded',
     pad_to_square image fill_color = Ok padded /\
     center_crop_square padded = Ok padded' /\
     width padded' = width padded /\ height padded' = height padded /\
     (forall x y, PIL.getpixel padded' x y = PIL.getpixel padded x y)).
Proof.
  intros Hw Hh side size. split.
  - intros Hsize.
    destruct (center_crop_square_returns image Hw Hh Hsize) as [sq Hsq].
    pose proof Hsq as Hbox.
    unfold center_crop_square, center_crop_box in Hbox.
    apply crop_Ok in Hbox as (Hsw & Hsh & _).
    destruct (center_crop_square_of_square sq)
      as (sq' & Hsq' & _ & Hw' & Hh' & Hpix).
    { rewrite Hsw. lia. }
    { rewrite Hsw, Hsh. lia. }
    { rewrite Hsw, Hsh, !Z.add_simpl_l. exact Hsize. }
    exists sq, sq'. repeat split; assumption.
  - intros Hsize.
    destruct (pad_to_square_size image fill_color ltac:(lia) ltac:(lia)
                Hsize) as (padded & Hpad & Hpw & Hph).
    destruct (center_crop_square_of_square padded)
      as (padded' & Hpad' & _ & Hpw' & Hph' & Hppix).
    { rewrite Hpw. lia. }
    { rewrite Hpw, Hph. reflexivity. }
    { rewrite Hpw, Hph. exact Hsize. }
    exists padded, padded'. repeat split; assumption.
Qed.

(** ** The compositors, cell by cell *)

Lemma in_cell_inj (cols s i j X Y : Z) :
  1 <= cols -> 1 <= s -> in_cell cols s i X Y -> in_cell cols s j X Y -> i = j.
Proof.
  intros Hc Hs [Hix Hiy] [Hjx Hjy].
  pose proof (Z.mod_pos_bound i cols ltac:(lia)).
  pose proof (Z.mod_pos_bound j cols ltac:(lia)).
  pose proof (Z.div_mod i cols ltac:(lia)).
  pose proof (Z.div_mod j cols ltac:(lia)).
  assert (i mod cols = j mod cols) by nia.
  assert (i / cols = j / cols) by nia.
  congruence.
Qed.

Lemma paste_in_cell (grid src : Image) (cols s i x y : Z) :
  width src = s -> height src = s -> 0 <= x < s -> 0 <= y < s ->
  pix (PIL.paste grid src (i mod cols * s, i / cols * s))
      (i mod cols * s + x) (i / cols * s + y)
  = PIL.to_mode (mode src) (mode grid) (pix src x y).
Proof.
  intros Hw Hh Hx Hy. cbn [PIL.paste pix]. unfold PIL.inside. rewrite Hw, Hh.
  replace (i mod cols * s + x - i mod cols * s) with x by lia.
  replace (i / cols * s + y - i / cols * s) with y by lia.
  destruct (Z.leb_spec 0 x); [| lia]. destruct (Z.ltb_spec x s); [| lia].
  destruct (Z.leb_spec 0 y); [| lia]. destruct (Z.ltb_spec y s); [| lia].
  reflexivity.
Qed.

Lemma paste_out_of_cell (grid src : Image) (cols s i X Y : Z) :
  width src = s -> height src = s -> ~ in_cell cols s i X Y ->
  pix (PIL.paste grid src (i mod cols * s, i / cols * s)) X Y = pix grid X Y.
Proof.
  intros Hw Hh Hout. cbn [PIL.paste pix]. unfold PIL.inside. rewrite Hw, Hh.
  destruct (Z.leb_spec 0 (X - i mod cols * s)); cbn [andb]; [| reflexivity].
  destruct (Z.ltb_spec (X - i mod cols * s) s); cbn [andb]; [| reflexivity].
  destruct (Z.leb_spec 0 (Y - i / cols * s)); cbn [andb]; [| reflexivity].
  destruct (Z.ltb_spec (Y - i / cols * s) s); cbn [andb]; [| reflexivity].
  exfalso. apply Hout. unfold in_cell. lia.
Qed.

(** Pasting frame [k] into cell [k] extends [composed] from [k] to
    [k + 1]. *)
Lemma composed_paste (m : Mode) (w h : Z) (background : Pixel)
    (content : Z -> Z -> Z -> option Pixel) (cols s k : Z)
    (grid src : Image) :
  1 <= cols -> 1 <= s -> 0 <= k ->
  width src = s -> height src = s ->
  (forall x y p, 0 <= x < s -> 0 <= y < s -> content k x y = Some p ->
     p = PIL.to_mode (mode src) m (pix src x y)) ->
  composed m w h background content cols s k grid ->
  composed m w h background content cols s (k + 1)
    (PIL.paste grid src (k mod cols * s, k / cols * s)).
Proof.
  intros Hc Hs Hk Hsw Hsh Hsrc (Hmode & Hw & Hh & Hcells & Hback).
  split; [exact Hmode |]. split; [exact Hw |]. split; [exact Hh |]. split.
  - intros i x y p Hi Hx Hy Hp.
    destruct (decide (i = k)) as [-> | Hne].
    + rewrite paste_in_cell by assumption. rewrite Hmode.
      symmetry. apply Hsrc; assumption.
    + rewrite paste_out_of_cell; [| assumption | assumption |].
      * apply Hcells; try assumption. lia.
      * intros Hin. apply Hne. symmetry.
        apply (in_cell_inj cols s k i _ _ Hc Hs Hin).
        unfold in_cell. lia.
  - intros X Y Hout.
    rewrite paste_out_of_cell; [| assumption | assumption | apply Hout; lia].
    apply Hback. intros i Hi. apply Hout. lia.
Qed.

Lemma lookup_take_Z {A} (l : list A) (n i : Z) (x : A) :
  0 <= i -> take (Z.to_nat n) l !! Z.to_nat i = Some x ->
  i < n /\ i < Z.of_nat (length l) /\ l !! Z.to_nat i = Some x.
Proof.
  intros Hi H. apply lookup_take_Some in H as [Hl Hlt].
  apply lookup_lt_Some in Hl as Hlen. split; [lia |]. split; [lia | exact Hl].
Qed.

Lemma length_take_Z {A} (l : list A) (n : Z) :
  0 <= n ->
  Z.of_nat (length (take (Z.to_nat n) l)) = Z.min (Z.of_nat (length l)) n.
Proof. intros Hn. rewrite length_take. lia. Qed.

Section ComposedGrids.

Variable lanczos : Image -> Z -> Z -> Z -> Z -> Pixel.


Lemma reference_cell_composed fs frames cols side s k frame_path grid :
  1 <= cols -> 1 <= s -> 0 <= k ->
  frames !! Z.to_nat k = Some frame_path ->
  is_Ok (PIL.open_ fs frame_path) ->
  composed RGB side side (255, 255, 255, 255)
    (reference_content lanczos fs frames s) cols s k grid ->
  exists grid',
    reference_cell lanczos fs cols s k frame_path grid = Ok grid' /\
    composed RGB side side (255, 255, 255, 255)
      (reference_content lanczos fs frames s) cols s (k + 1) grid'.
Proof.
  intros Hc Hs Hk Hframe [frame Hopen] Hgrid. unfold reference_cell.
  rewrite floordiv_Ok, mod_Ok by lia. cbn [mbind result_bind].
  rewrite Hopen. cbn [mbind result_bind].
  apply open_Ok in Hopen as Hext. destruct Hext as (_ & Hfw & Hfh & Hlim).
  destruct (center_crop_square_returns (PIL.convert frame RGB))
    as [sq Hsq];
    [cbn; lia | cbn; lia | cbn [PIL.convert width height]; nia |].
  rewrite Hsq. cbn [mbind result_bind].
  assert (Hmode : mode sq = RGB).
  { unfold center_crop_square, center_crop_box in Hsq.
    apply crop_Ok in Hsq as (_ & _ & Hm & _). exact Hm. }
  unfold PIL.resize.
  destruct (Z.ltb_spec s 1); [lia |]. cbn [orb mbind result_bind].
  eexists. split; [reflexivity |].
  apply composed_paste; try assumption; try reflexivity.
  intros x y p Hx Hy. unfold reference_content.
  rewrite Hframe, Hopen, Hsq. intros [= <-]. cbn [mode pix].
  rewrite Hmode. reflexivity.
Qed.

Lemma new_composed m w h background content cols s :
  0 <= w <= 2 * PIL.MAX_IMAGE_PIXELS -> 0 <= h <= 2 * PIL.MAX_IMAGE_PIXELS ->
  exists grid,
    PIL.new m (w, h) background = Ok grid /\
    composed m w h (PIL.to_mode RGBA m background) content cols s 0 grid.
Proof.
  intros Hw Hh. rewrite new_returns by assumption.
  eexists. split; [reflexivity |].
  repeat split; try reflexivity. intros i x y p Hi. lia.
Qed.


Lemma create_reference_grid_composed fs frames cols rows resolution :
  1 <= cols -> 1 <= rows -> Z.max cols rows <= resolution ->
  resolution * resolution <= 2 * PIL.MAX_IMAGE_PIXELS ->
  frames <> [] ->
  Forall (fun p => is_Ok (PIL.open_ fs p))
    (take (Z.to_nat (cols * rows)) frames) ->
  let s := resolution / Z.max cols rows in
  exists grid,
    create_reference_grid lanczos fs frames cols rows resolution = Ok grid /\
    composed RGB (s * Z.max cols rows) (s * Z.max cols rows)
      (255, 255, 255, 255)
      (reference_content lanczos fs frames s) cols s
      (Z.min (Z.of_nat (length frames)) (cols * rows)) grid.
Proof.
  intros Hc Hr Hres Hsize Hne Hopen s.
  assert (Hs : 1 <= s) by (apply Z.div_le_lower_bound; lia).
  assert (Hside : s * Z.max cols rows <= resolution)
    by (rewrite Z.mul_comm; apply Z.mul_div_le; lia).
  unfold create_reference_grid, Py.for_enumerate.
  destruct frames as [| p0 rest] eqn:Hframes; [contradiction |].
  rewrite <- Hframes in *. clear Hframes Hne.
  rewrite floordiv_Ok by lia. cbn [mbind result_bind]. fold s.
  destruct (new_composed RGB (s * Z.max cols rows) (s * Z.max cols rows)
              (255, 255, 255, 255)
              (reference_content lanczos fs frames s) cols s)
    as [grid0 [-> Hgrid0]]; [nia | nia |].
  cbn [mbind result_bind].
  rewrite (for_enumerate_from_take _ (cols * rows) frames 0) by nia.
  rewrite Z.sub_0_r, <- length_take_Z by nia.
  apply (for_enumerate_from_total
           (composed RGB (s * Z.max cols rows) (s * Z.max cols rows)
              (255, 255, 255, 255)
              (reference_content lanczos fs frames s) cols s)
           _ _ (take (Z.to_nat (cols * rows)) frames)).
  - intros i p g Hi Hp Hg.
    pose proof (lookup_take_Z _ _ _ _ Hi Hp) as (Hlt & _ & Hfr).
    split; [rewrite Z.geb_leb; apply Z.leb_gt; lia |].
    apply (reference_cell_composed fs frames cols _ s i p g);
      try assumption.
    rewrite Forall_forall in Hopen. apply Hopen.
    eapply list_elem_of_lookup_2, Hp.
  - lia.
  - reflexivity.
  - exact Hgrid0.
Qed.

End ComposedGrids.

Lemma in_cell_bounds (cols rows s i X Y : Z) :
  1 <= cols -> 1 <= s -> 0 <= i < cols * rows -> in_cell cols s i X Y ->
  0 <= X < cols * s /\ 0 <= Y < rows * s.
Proof.
  intros Hc Hs Hi [HX HY].
  pose proof (Z.mod_pos_bound i cols ltac:(lia)).
  assert (0 <= i / cols < rows).
  { split; [apply Z.div_pos; lia | apply Z.div_lt_upper_bound; lia]. }
  split; nia.
Qed.

Lemma in_own_cell (cols s i x y : Z) :
  0 <= x < s -> 0 <= y < s ->
  in_cell cols s i (i mod cols * s + x) (i / cols * s + y).
Proof. intros Hx Hy. unfold in_cell. lia. Qed.

Lemma getpixel_inside (im : Image) (x y : Z) :
  0 <= x < width im -> 0 <= y < height im ->
  PIL.getpixel im x y = Some (pix im x y).
Proof.
  intros Hx Hy. unfold PIL.getpixel, PIL.inside.
  destruct (Z.leb_spec 0 x); [| lia].
  destruct (Z.ltb_spec x (width im)); [| lia].
  destruct (Z.leb_spec 0 y); [| lia].
  destruct (Z.ltb_spec y (height im)); [| lia]. reflexivity.
Qed.



(** X5: reference mode, cell by cell.  For cols, rows >= 1, a resolution
    of at least max(cols, rows) whose square has at most twice
    [MAX_IMAGE_PIXELS] pixels, and a non-empty list of decodable frames,
    [create_reference_grid] returns an RGB canvas in which cell i holds the
    centre crop of frame i (converted to RGB) resampled to the cell size;
    the cells beyond the last frame and the part of the square canvas
    outside the cols x rows cells are white. *)
Theorem create_reference_grid_cells
    (lanczos : Image -> Z -> Z -> Z -> Z -> Pixel) (fs : FileStore)
    (frames : list Path) (cols rows resolution : Z) :
  1 <= cols -> 1 <= rows -> Z.max cols rows <= resolution ->
  resolution * resolution <= 2 * PIL.MAX_IMAGE_PIXELS ->
  frames <> [] ->
  Forall (fun p => is_Ok (PIL.open_ fs p))
    (take (Z.to_nat (cols * rows)) frames) ->
  let s := resolution / Z.max cols rows in
  exists grid,
    create_reference_grid lanczos fs frames cols rows resolution = Ok grid /\
    mode grid = RGB /\
    (forall i frame_path frame sq x y,
       0 <= i < cols * rows ->
       frames !! Z.to_nat i = Some frame_path ->
       PIL.open_ fs frame_path = Ok frame ->
       center_crop_square (PIL.convert frame RGB) = Ok sq ->
       0 <= x < s -> 0 <= y < s ->
       PIL.getpixel grid (i mod cols * s + x) (i / cols * s + y)
       = Some (PIL.to_mode RGB RGB (lanczos sq s s x y))) /\
    (forall j x y,
       Z.of_nat (length frames) <= j < cols * rows ->
       0 <= x < s -> 0 <= y < s ->
       PIL.getpixel grid (j mod cols * s + x) (j / cols * s + y)
       = Some (255, 255, 255, 255)) /\
    (forall X Y,
       0 <= X < width grid -> 0 <= Y < height grid ->
       cols * s <= X \/ rows * s <= Y ->
       PIL.getpixel grid X Y = Some (255, 255, 255, 255)).
Proof.
  intros Hc Hr Hres Hsize Hne Hopen s.
  assert (Hs : 1 <= s) by (apply Z.div_le_lower_bound; lia).
  destruct (create_reference_grid_composed lanczos fs frames cols rows
              resolution Hc Hr Hres Hsize Hne Hopen)
    as (grid & Hgrid & Hmode & Hw & Hh & Hcells & Hback).
  fold s in Hw, Hh, Hcells, Hback.
  assert (Hcm : cols * s <= s * Z.max cols rows) by nia.
  assert (Hrm : rows * s <= s * Z.max cols rows) by nia.
  exists grid. split; [exact Hgrid |]. split; [exact Hmode |].
  split; [| split].
  - intros i frame_path frame sq x y Hi Hframe Hopened Hsq Hx Hy.
    pose proof (in_cell_bounds cols rows s i _ _ Hc Hs Hi
                  (in_own_cell cols s i x y Hx Hy)) as [HX HY].
    rewrite getpixel_inside by lia. f_equal.
    apply Hcells; try assumption.
    + apply lookup_lt_Some in Hframe. lia.
    + unfold reference_content. rewrite Hframe, Hopened, Hsq. reflexivity.
  - intros j x y Hj Hx Hy.
    pose proof (in_cell_bounds cols rows s j _ _ Hc Hs ltac:(lia)
                  (in_own_cell cols s j x y Hx Hy)) as [HX HY].
    rewrite getpixel_inside by lia. f_equal.
    apply Hback. intros i Hi Hin.
    assert (i = j); [| lia].
    apply (in_cell_inj cols s i j _ _ Hc Hs Hin).
    apply in_own_cell; assumption.
  - intros X Y HX HY Hmargin.
    rewrite getpixel_inside by lia. f_equal.
    apply Hback. intros i Hi Hin.
    apply (in_cell_bounds cols rows s i X Y Hc Hs) in Hin; lia.
Qed.

Lemma create_reference_grid_cells_witness :
  exists grid,
    create_reference_grid Demo.nearest Demo.store
      [Demo.frame_a; Demo.frame_b] 4 2 32 = Ok grid /\
    PIL.getpixel grid 9 1 = Some (140, 60, 2, 255) /\
    PIL.getpixel grid 17 1 = Some (255, 255, 255, 255) /\
    PIL.getpixel grid 1 17 = Some (255, 255, 255, 255).
Proof.
  destruct (create_reference_grid_cells Demo.nearest Demo.store
              [Demo.frame_a; Demo.frame_b] 4 2 32
              ltac:(lia) ltac:(lia) ltac:(cbn; lia)
              ltac:(vm_compute; discriminate) ltac:(discriminate))
    as (grid & Hgrid & _ & Hcells & Hback & Hmargin).
  { repeat constructor; eexists; reflexivity. }
  exists grid. split; [exact Hgrid |]. split; [| split].
  - destruct (center_crop_square_returns
                (PIL.convert (Demo.gradient RGB 640 480 2) RGB))
      as [sq Hsq]; [cbn; lia | cbn; lia | vm_compute; discriminate |].
    pose proof (Hcells 1 Demo.frame_b (Demo.gradient RGB 640 480 2) sq 1 1
                  ltac:(lia) eq_refl eq_refl Hsq
                  ltac:(change (0 <= 1 < 8); lia)
                  ltac:(change (0 <= 1 < 8); lia)) as Hpix.
    injection Hsq as <-. exact Hpix.
  - exact (Hback 2 1 1 ltac:(cbn; lia) ltac:(change (0 <= 1 < 8); lia)
             ltac:(change (0 <= 1 < 8); lia)).
  - apply (Hmargin 1 17).
    + apply create_reference_grid_size in Hgrid as (_ & -> & _).
      change (0 <= 1 < 32). lia.
    + apply create_reference_grid_size in Hgrid as (_ & _ & ->).
      change (0 <= 17 < 32). lia.
    + right. change (2 * 8 <= 17). lia.
Defined.

(** ** The compositors on bad input *)

(** A loop whose iterations before [j] return and whose iteration [j]
    raises, raises. *)
Lemma for_enumerate_from_raises {A S} (stop : Z -> bool)
    (body : Z -> A -> S -> result S) (all : list A) (j : Z) (xj : A)
    (e : exn) :
  all !! Z.to_nat j = Some xj ->
  (forall i, 0 <= i <= j -> stop i = false) ->
  (forall i x s, 0 <= i < j -> all !! Z.to_nat i = Some x ->
     is_Ok (body i x s)) ->
  (forall s, body j xj s = Raise e) ->
  forall xs idx s, 0 <= idx <= j -> xs = drop (Z.to_nat idx) all ->
    Py.for_enumerate_from idx xs stop body s = Raise e.
Proof.
  intros Hj Hstop Hbefore Hat.
  induction xs as [| x xs IH]; intros idx s Hidx Hxs.
  - symmetry in Hxs. apply drop_nil_inv in Hxs.
    apply lookup_lt_Some in Hj. lia.
  - assert (Hx : all !! Z.to_nat idx = Some x).
    { rewrite <- (Nat.add_0_r (Z.to_nat idx)), <- lookup_drop, <- Hxs.
      reflexivity. }
    cbn [Py.for_enumerate_from]. rewrite Hstop by lia.
    destruct (decide (idx = j)) as [-> | Hne].
    + rewrite Hj in Hx. injection Hx as <-. rewrite Hat. reflexivity.
    + destruct (Hbefore idx x s ltac:(lia) Hx) as [s' ->].
      cbn [mbind result_bind]. apply IH; [lia |].
      replace (Z.to_nat (idx + 1)) with (Z.to_nat idx + 1)%nat by lia.
      rewrite <- drop_drop, <- Hxs. reflexivity.
Qed.

Lemma open_missing (fs : FileStore) (path : Path) :
  fs !! path = None -> PIL.open_ fs path = Raise FileNotFoundError.
Proof. intros H. unfold PIL.open_. rewrite H. reflexivity. Qed.

(** X8: a frame file that does not exist, at an index below cols * rows
    and after frames that decode, makes both compositors raise
    [FileNotFoundError]: neither skips the frame.  This for a sheet, and a
    resolution-by-resolution canvas, of at most twice [MAX_IMAGE_PIXELS]
    pixels. *)
Theorem compose_missing_frame
    (lanczos : Image -> Z -> Z -> Z -> Z -> Pixel) (fs : FileStore)
    (frames : list Path) (cols rows s resolution j : Z) (missing : Path) :
  1 <= cols -> 1 <= rows -> 1 <= s -> Z.max cols rows <= resolution ->
  cols * s * (rows * s) <= 2 * PIL.MAX_IMAGE_PIXELS ->
  resolution * resolution <= 2 * PIL.MAX_IMAGE_PIXELS ->
  0 <= j < cols * rows ->
  frames !! Z.to_nat j = Some missing ->
  fs !! missing = None ->
  (forall i p, 0 <= i < j -> frames !! Z.to_nat i = Some p ->
     is_Ok (PIL.open_ fs p)) ->
  compose_grid lanczos fs frames cols rows s = Raise FileNotFoundError /\
  create_reference_grid lanczos fs frames cols rows resolution
  = Raise FileNotFoundError.
Proof.
  intros Hc Hr Hs Hres Hsheet Hcanvas Hj Hframe Hmissing Hbefore.
  assert (Hstop : forall i, 0 <= i <= j -> (i >=? cols * rows) = false).
  { intros i Hi. rewrite Z.geb_leb. apply Z.leb_gt. lia. }
  split.
  - unfold compose_grid, Py.for_enumerate.
    destruct (extents_le_pixels (cols * s) (rows * s) _
                ltac:(nia) ltac:(nia) Hsheet) as [Hcs Hrs].
    rewrite new_returns by assumption.
    cbn [mbind result_bind].
    apply (for_enumerate_from_raises _ _ frames j missing);
      try assumption; try lia; try reflexivity.
    + intros i x g Hi Hx. apply compose_cell_returns; try assumption.
      apply (Hbefore i x Hi Hx).
    + intros g. unfold compose_cell.
      rewrite floordiv_Ok, mod_Ok by lia. cbn [mbind result_bind].
      rewrite open_missing by assumption. reflexivity.
  - assert (Hcell : 1 <= resolution / Z.max cols rows)
      by (apply Z.div_le_lower_bound; lia).
    unfold create_reference_grid, Py.for_enumerate.
    destruct frames as [| p0 rest] eqn:Hframes;
      [rewrite lookup_nil in Hframe; discriminate |].
    rewrite <- Hframes in *.
    rewrite floordiv_Ok by lia. cbn [mbind result_bind].
    assert (Hside : resolution / Z.max cols rows * Z.max cols rows
                    <= resolution).
    { rewrite Z.mul_comm. apply Z.mul_div_le. lia. }
    rewrite new_returns by nia.
    cbn [mbind result_bind].
    apply (for_enumerate_from_raises _ _ frames j missing);
      try assumption; try lia; try reflexivity.
    + intros i x g Hi Hx. apply reference_cell_returns; try assumption.
      apply (Hbefore i x Hi Hx).
    + intros g. unfold reference_cell.
      rewrite floordiv_Ok, mod_Ok by lia. cbn [mbind result_bind].
      rewrite open_missing by assumption. reflexivity.
Qed.

Lemma compose_missing_frame_witness :
  compose_grid Demo.nearest Demo.store
    [Demo.frame_a; ["frames"; "gone.png"]; Demo.frame_b] 2 2 8
  = Raise FileNotFoundError /\
  create_reference_grid Demo.nearest Demo.store
    [Demo.frame_a; ["frames"; "gone.png"]; Demo.frame_b] 2 2 16
  = Raise FileNotFoundError.
Proof.
  apply (compose_missing_frame Demo.nearest Demo.store
           [Demo.frame_a; ["frames"; "gone.png"]; Demo.frame_b]
           2 2 8 16 1 ["frames"; "gone.png"]);
    try lia; try reflexivity; try (vm_compute; discriminate).
  intros i p Hi. replace i with 0 by lia.
  intros [= <-]. eexists. reflexivity.
Defined.

(** X9: a resolution below max(cols, rows) gives the cell size 0, and with
    it both compositors fail on the first frame, at the resize, with
    [ValueError] (height and width must be > 0). *)
Theorem zero_cell_size_raises
    (lanczos : Image -> Z -> Z -> Z -> Z -> Pixel) (fs : FileStore)
    (frame_path : Path) (rest : list Path) (cols rows resolution : Z) :
  1 <= cols -> 1 <= rows -> 0 <= resolution < Z.max cols rows ->
  is_Ok (PIL.open_ fs frame_path) ->
  calculate_sprite_size resolution cols rows = Ok 0 /\
  create_reference_grid lanczos fs (frame_path :: rest) cols rows resolution
  = Raise (ValueError "height and width must be > 0") /\
  compose_grid lanczos fs (frame_path :: rest) cols rows 0
  = Raise (ValueError "height and width must be > 0").
Proof.
  intros Hc Hr Hres [frame Hopen].
  assert (Hzero : resolution / Z.max cols rows = 0)
    by (apply Z.div_small; lia).
  assert (Hstop : (0 >=? cols * rows) = false).
  { rewrite Z.geb_leb. apply Z.leb_gt. nia. }
  split; [| split].
  - unfold calculate_sprite_size. rewrite floordiv_Ok by lia.
    rewrite Hzero. reflexivity.
  - unfold create_reference_grid, Py.for_enumerate.
    rewrite floordiv_Ok by lia. rewrite Hzero. cbn [mbind result_bind].
    rewrite Z.mul_0_l, new_returns by (split; [lia | discriminate]).
    cbn [mbind result_bind].
    cbn [Py.for_enumerate_from]. rewrite Hstop.
    unfold reference_cell. rewrite floordiv_Ok, mod_Ok by lia.
    cbn [mbind result_bind]. rewrite Hopen. cbn [mbind result_bind].
    apply open_Ok in Hopen as (_ & Hw & Hh & Hlim).
    destruct (center_crop_square_returns (PIL.convert frame RGB))
      as [sq ->];
      [cbn; lia | cbn; lia | cbn [PIL.convert width height]; nia |].
    reflexivity.
  - unfold compose_grid, Py.for_enumerate.
    rewrite !Z.mul_0_r, new_returns by (split; [lia | discriminate]).
    cbn [mbind result_bind].
    cbn [Py.for_enumerate_from]. rewrite Hstop.
    unfold compose_cell. rewrite floordiv_Ok, mod_Ok by lia.
    cbn [mbind result_bind]. rewrite Hopen. reflexivity.
Qed.

Lemma zero_cell_size_raises_witness :
  calculate_sprite_size 3 4 2 = Ok 0 /\
  create_reference_grid Demo.nearest Demo.store [Demo.frame_a] 4 2 3
  = Raise (ValueError "height and width must be > 0").
Proof.
  destruct (zero_cell_size_raises Demo.nearest Demo.store Demo.frame_a []
              4 2 3 ltac:(lia) ltac:(lia) ltac:(cbn; lia))
    as (Hsize & Href & _).
  { eexists. reflexivity. }
  split; [exact Hsize | exact Href].
Defined.

(** ** The files the slicer writes *)

Lemma NoDup_cell_paths (out : Path) (rows cols : Z) :
  1 <= cols -> 0 <= rows ->
  NoDup (cell_path out <$> row_major rows cols).
Proof.
  intros Hc Hr. apply NoDup_alt. intros i j p Hi Hj.
  assert (Hlen : forall k q, (cell_path out <$> row_major rows cols) !! k
                             = Some q -> 0 <= Z.of_nat k < rows * cols).
  { intros k q Hk. apply lookup_lt_Some in Hk.
    rewrite length_fmap, length_row_major in Hk by lia. lia. }
  pose proof (Hlen i p Hi) as Hil. pose proof (Hlen j p Hj) as Hjl.
  rewrite list_lookup_fmap in Hi, Hj.
  rewrite <- (Nat2Z.id i) in Hi. rewrite <- (Nat2Z.id j) in Hj.
  rewrite lookup_row_major in Hi, Hj by lia.
  cbn in Hi, Hj. injection Hi as Hi. injection Hj as Hj.
  rewrite <- Hj in Hi.
  pose proof (Z.mod_pos_bound (Z.of_nat i) cols ltac:(lia)).
  pose proof (Z.mod_pos_bound (Z.of_nat j) cols ltac:(lia)).
  apply cell_path_inj in Hi; cbn;
    [| apply Z.div_pos; lia | lia | apply Z.div_pos; lia | lia].
  injection Hi as Hdiv Hmod.
  pose proof (Z.div_mod (Z.of_nat i) cols ltac:(lia)).
  pose proof (Z.div_mod (Z.of_nat j) cols ltac:(lia)).
  assert (Z.of_nat i = Z.of_nat j) by congruence. lia.
Qed.

(** The nested loops of [slice_grid] write to the cell files only. *)
Lemma slice_loops_frame (img : Image) (cw ch : Z) (out : Path)
    (cols rows : Z) (fs fs' : FileStore) (frames : list Path) :
  Py.for_ (Py.range rows) (fun row =>
     Py.for_ (Py.range cols) (fun col =>
       slice_cell img cw ch out row col)) (fs, [])
  = Ok (fs', frames) ->
  forall p, p ∉ cell_path out <$> row_major rows cols -> fs' !! p = fs !! p.
Proof.
  rewrite (for__nested (fun row col => slice_cell img cw ch out row col)).
  fold (row_major rows cols).
  generalize (row_major rows cols) as cells. intros cells.
  assert (Hgen : forall (done rest : list (Z * Z)) st st',
    Py.for_ rest (fun rc => slice_cell img cw ch out rc.1 rc.2) st = Ok st' ->
    (forall p, p ∉ cell_path out <$> done -> st.1 !! p = fs !! p) ->
    forall p, p ∉ cell_path out <$> (done ++ rest) -> st'.1 !! p = fs !! p).
  { intros done rest. revert done.
    induction rest as [| [r c] rest IH]; intros done st st' Hrun Hst p Hp.
    - injection Hrun as <-. rewrite app_nil_r in Hp. apply Hst, Hp.
    - cbn [Py.for_] in Hrun. apply bind_Ok in Hrun as [st1 [Hstep Hrun]].
      apply (IH (done ++ [(r, c)]) st1 st' Hrun);
        [| rewrite <- app_assoc; exact Hp].
      intros q Hq. destruct st as [fs0 frames0]. cbn [fst snd] in Hstep.
      unfold slice_cell in Hstep.
      apply bind_Ok in Hstep as [cell [_ Hstep]].
      apply bind_Ok in Hstep as [fs1 [Hsave Hstep]].
      injection Hstep as <-. cbn [fst].
      unfold PIL.save in Hsave.
      destruct ((width cell <? 1) || (height cell <? 1)); [discriminate |].
      injection Hsave as <-.
      rewrite fmap_app, elem_of_app in Hq.
      rewrite lookup_insert_ne.
      + apply Hst. intros Hin. apply Hq. left. exact Hin.
      + intros Heq. apply Hq. right. cbn. rewrite <- Heq. left. }
  intros Hrun p Hp.
  apply (Hgen [] cells (fs, []) (fs', frames) Hrun); [| exact Hp].
  intros q _. reflexivity.
Qed.

(** X6: the files [slice_grid] writes.  On an image of at least cols by
    rows pixels (cols, rows >= 1) the returned paths are pairwise distinct
    files of the output directory, each of them exists afterwards, and no
    other file of the store is touched. *)
Theorem slice_grid_files (fs : FileStore) (image_path : Path) (img : Image)
    (cols rows : Z) (output_dir : Path) :
  PIL.open_ fs image_path = Ok img ->
  1 <= cols -> 1 <= rows -> cols <= width img -> rows <= height img ->
  exists frames fs',
    slice_grid fs image_path cols rows output_dir = Ok (frames, fs') /\
    NoDup frames /\
    (forall p, p ∈ frames ->
       exists name, p = path_join output_dir name /\ is_Some (fs' !! p)) /\
    (forall p, p ∉ frames -> fs' !! p = fs !! p).
Proof.
  intros Hopen Hc Hr Hw Hh.
  destruct (slice_grid_Ok fs image_path img cols rows output_dir
              Hopen Hc Hr Hw Hh) as [fs' [Hrun Hcells]].
  exists (cell_path output_dir <$> row_major rows cols), fs'.
  split; [exact Hrun |]. split; [apply NoDup_cell_paths; lia |]. split.
  - intros p Hp. apply list_elem_of_fmap in Hp as [[r c] [-> Hrc]].
    apply elem_of_row_major in Hrc as [Hrow Hcol].
    exists (frame_name r c). split; [reflexivity |].
    destruct (Hcells r c Hrow Hcol) as [cell [-> _]]. eexists. reflexivity.
  - unfold slice_grid in Hrun. rewrite Hopen in Hrun.
    cbn [mbind result_bind] in Hrun.
    rewrite !floordiv_Ok in Hrun by lia. cbn [mbind result_bind] in Hrun.
    apply bind_Ok in Hrun as [[fs1 frames1] [Hloops Hret]].
    injection Hret as _ <-.
    apply (slice_loops_frame _ _ _ _ _ _ _ _ _ Hloops).
Qed.

Lemma slice_grid_files_witness :
  exists frames fs',
    slice_grid Demo.store Demo.sheet 2 2 Demo.cells = Ok (frames, fs') /\
    NoDup frames /\
    fs' !! Demo.frame_a = Demo.store !! Demo.frame_a.
Proof.
  destruct (slice_grid_files Demo.store Demo.sheet
              (Demo.gradient RGBA 7 5 4) 2 2 Demo.cells eq_refl
              ltac:(lia) ltac:(lia) ltac:(cbn; lia) ltac:(cbn; lia))
    as (frames & fs' & Hrun & Hnodup & Hin & Hout).
  exists frames, fs'. split; [exact Hrun |]. split; [exact Hnodup |].
  apply Hout. intros Hp. destruct (Hin _ Hp) as [name [Hname _]].
  vm_compute in Hname. discriminate Hname.
Defined.

Lemma for__skip {A S} (xs : list A) (s : S) :
  Py.for_ xs (fun _ s' => Ok s') s = Ok s.
Proof. induction xs as [| x xs IH]; [reflexivity | exact IH]. Qed.

Lemma range_nonpos (n : Z) : n <= 0 -> Py.range n = [].
Proof.
  intros Hn. unfold Py.range, seqZ.
  replace (Z.to_nat n) with 0%nat by lia. reflexivity.
Qed.

(** X7: [slice_grid] on bad input.  A missing image file raises
    [FileNotFoundError]; with an image that opens, cols = 0 or rows = 0
    raises [ZeroDivisionError]; and with both non-zero but one negative it
    returns no frames and writes nothing. *)
Theorem slice_grid_edge_cases (fs : FileStore) (image_path : Path)
    (cols rows : Z) (output_dir : Path) :
  (fs !! image_path = None ->
   slice_grid fs image_path cols rows output_dir = Raise FileNotFoundError) /\
  (is_Ok (PIL.open_ fs image_path) -> cols = 0 \/ rows = 0 ->
   slice_grid fs image_path cols rows output_dir = Raise ZeroDivisionError) /\
  (is_Ok (PIL.open_ fs image_path) -> cols <> 0 -> rows <> 0 ->
   cols < 0 \/ rows < 0 ->
   slice_grid fs image_path cols rows output_dir = Ok ([], fs)).
Proof.
  split; [| split].
  - intros Hnone. unfold slice_grid. rewrite open_missing by assumption.
    reflexivity.
  - intros [img Hopen] Hzero. unfold slice_grid. rewrite Hopen.
    cbn [mbind result_bind]. unfold Py.floordiv.
    destruct (Z.eqb_spec cols 0); [reflexivity |].
    cbn [mbind result_bind].
    destruct (Z.eqb_spec rows 0); [reflexivity | lia].
  - intros [img Hopen] Hc Hr Hneg. unfold slice_grid. rewrite Hopen.
    cbn [mbind result_bind]. rewrite !floordiv_Ok by assumption.
    cbn [mbind result_bind].
    destruct (Z.lt_ge_cases rows 0) as [Hrows | Hrows].
    + rewrite (range_nonpos rows) by lia. reflexivity.
    + rewrite (range_nonpos cols) by lia. cbn [Py.for_].
      rewrite for__skip. reflexivity.
Qed.

Lemma slice_grid_edge_cases_witness :
  slice_grid Demo.store ["out"; "gone.png"] 2 2 Demo.cells
  = Raise FileNotFoundError /\
  slice_grid Demo.store Demo.sheet 0 2 Demo.cells = Raise ZeroDivisionError /\
  slice_grid Demo.store Demo.sheet (-2) 2 Demo.cells = Ok ([], Demo.store).
Proof.
  destruct (slice_grid_edge_cases Demo.store ["out"; "gone.png"] 2 2
              Demo.cells) as [H1 _].
  destruct (slice_grid_edge_cases Demo.store Demo.sheet 0 2 Demo.cells)
    as [_ [H2 _]].
  destruct (slice_grid_edge_cases Demo.store Demo.sheet (-2) 2 Demo.cells)
    as [_ [_ H3]].
  split; [exact (H1 eq_refl) |]. split.
  - apply H2; [eexists; reflexivity | left; reflexivity].
  - apply H3; [eexists; reflexivity | lia | lia | left; lia].
Defined.

(** ** Frame extraction *)

Lemma parse_zero_pad (n : nat) (s : string) :
  parse_decimal (zero_pad n s) = parse_decimal s.
Proof. induction n as [| n IH]; [reflexivity | exact IH]. Qed.

Lemma parse_format_04d (n : Z) :
  0 <= n -> parse_decimal (format_04d n) = Z.to_N n.
Proof.
  intros Hn. unfold format_04d. destruct (Z.ltb_spec n 0); [lia |].
  rewrite parse_zero_pad. apply parse_pretty, Hn.
Qed.

Lemma string_length_app (a b : string) :
  String.length (a +:+ b) = (String.length a + String.length b)%nat.
Proof.
  induction a as [| c a IH]; simpl; [reflexivity | f_equal; exact IH].
Qed.

Lemma app_inv_tail_string (a b t : string) : a +:+ t = b +:+ t -> a = b.
Proof.
  revert b. induction a as [| c a IH]; intros [| d b] Hab; simpl in Hab.
  - reflexivity.
  - apply (f_equal String.length) in Hab. simpl in Hab.
    rewrite !string_length_app in Hab. simpl in Hab. exfalso. lia.
  - apply (f_equal String.length) in Hab. simpl in Hab.
    rewrite !string_length_app in Hab. simpl in Hab. exfalso. lia.
  - injection Hab as -> Hab. f_equal. apply IH, Hab.
Qed.

Lemma batch_path_inj (dir : Path) (i j : Z) :
  0 <= i -> 0 <= j ->
  path_join dir ("frame_" +:+ format_04d i +:+ ".png")
  = path_join dir ("frame_" +:+ format_04d j +:+ ".png") -> i = j.
Proof.
  intros Hi Hj H. unfold path_join in H. apply app_inj_tail in H as [_ H].
  apply (inj (String.app "frame_")) in H.
  apply app_inv_tail_string in H. apply (f_equal parse_decimal) in H.
  rewrite !parse_format_04d in H by assumption. lia.
Qed.

Section VideoProperties.

Variable ffmpeg : FileStore -> Path -> Float.float -> Path -> option FileStore.
Variable format_3f : Float.float -> string.
Variable stem : Path -> string.
Variable frames_dir : Path.

Lemma extract_frames_from_paths fs video_path dir times :
  forall idx frames paths fs',
    extract_frames_from ffmpeg format_3f stem frames_dir fs video_path dir
      idx times frames
    = Some (paths, fs') ->
    paths = frames ++
      ((fun i => path_join dir ("frame_" +:+ format_04d i +:+ ".png"))
       <$> seqZ idx (Z.of_nat (length times))).
Proof.
  revert fs. induction times as [| t times IH]; intros fs idx frames paths fs'.
  - cbn. intros [= <- <-]. rewrite app_nil_r. reflexivity.
  - cbn [extract_frames_from]. unfold extract_frame.
    destruct (ffmpeg fs video_path t _) as [fs1 |]; [| discriminate].
    cbn. intros H. apply IH in H. rewrite H, <- app_assoc. f_equal.
    rewrite (seqZ_cons idx) by (cbn [length]; lia).
    cbn [length]. rewrite Nat2Z.inj_succ, Z.pred_succ.
    replace (Z.succ idx) with (idx + 1) by lia.
    rewrite fmap_cons. cbn [app]. reflexivity.
Qed.

Lemma extract_frames_from_returns fs video_path dir times :
  (forall fs0 t output, is_Some (ffmpeg fs0 video_path t output)) ->
  forall idx frames,
    is_Some (extract_frames_from ffmpeg format_3f stem frames_dir fs
               video_path dir idx times frames).
Proof.
  intros Hrun. revert fs.
  induction times as [| t times IH]; intros fs idx frames.
  - eexists. reflexivity.
  - cbn [extract_frames_from]. unfold extract_frame.
    destruct (Hrun fs t (path_join dir
                           ("frame_" +:+ format_04d idx +:+ ".png")))
      as [fs1 ->].
    cbn. apply IH.
Qed.

End VideoProperties.

(** X10: [extract_frames_batch] names its outputs by position.  If every
    ffmpeg run succeeds it returns; and whenever it returns, there is one
    path per timestamp, path i is [frame_{i:04d}.png] in the output
    directory (by default [frames_dir / video_path.stem]), and the paths
    are pairwise distinct. *)
Theorem extract_frames_batch_paths
    (ffmpeg : FileStore -> Path -> Float.float -> Path -> option FileStore)
    (format_3f : Float.float -> string) (stem : Path -> string)
    (frames_dir : Path)
    (fs : FileStore) (video_path : Path) (times : list Float.float)
    (output_dir : option Path) :
  let dir := default (path_join frames_dir (stem video_path)) output_dir in
  let batch :=
    extract_frames_batch ffmpeg format_3f stem frames_dir fs video_path
      times output_dir in
  ((forall fs0 t output, is_Some (ffmpeg fs0 video_path t output)) ->
   is_Some batch) /\
  forall paths fs',
    batch = Some (paths, fs') ->
    length paths = length times /\
    (forall i, 0 <= i < Z.of_nat (length times) ->
       paths !! Z.to_nat i
       = Some (path_join dir ("frame_" +:+ format_04d i +:+ ".png"))) /\
    NoDup paths.
Proof.
  intros dir batch. subst batch. split.
  - intros Hrun. unfold extract_frames_batch.
    apply extract_frames_from_returns, Hrun.
  - intros paths fs' H. unfold extract_frames_batch in H.
    apply extract_frames_from_paths in H. cbn [app] in H.
    assert (Hdir : dir = match output_dir with
                         | Some output_dir0 => output_dir0
                         | None => path_join frames_dir (stem video_path)
                         end) by (destruct output_dir; reflexivity).
    rewrite <- Hdir in H. subst paths.
    split; [rewrite length_fmap, length_seqZ; lia |].
    assert (Hlook : forall i, 0 <= i < Z.of_nat (length times) ->
      ((fun i => path_join dir ("frame_" +:+ format_04d i +:+ ".png"))
         <$> seqZ 0 (Z.of_nat (length times))) !! Z.to_nat i
      = Some (path_join dir ("frame_" +:+ format_04d i +:+ ".png"))).
    { intros i Hi. rewrite list_lookup_fmap, lookup_seqZ_lt by lia.
      rewrite Z2Nat.id, Z.add_0_l by lia. reflexivity. }
    split; [exact Hlook |].
    apply NoDup_alt. intros i j p Hi Hj.
    assert (Hil : Z.of_nat i < Z.of_nat (length times)).
    { apply lookup_lt_Some in Hi.
      rewrite length_fmap, length_seqZ in Hi. lia. }
    assert (Hjl : Z.of_nat j < Z.of_nat (length times)).
    { apply lookup_lt_Some in Hj.
      rewrite length_fmap, length_seqZ in Hj. lia. }
    rewrite <- (Nat2Z.id i) in Hi. rewrite <- (Nat2Z.id j) in Hj.
    rewrite Hlook in Hi by lia. rewrite Hlook in Hj by lia.
    rewrite <- Hj in Hi. injection Hi as Hi.
    assert (Z.of_nat i = Z.of_nat j); [| lia].
    apply (batch_path_inj dir); [lia | lia | exact Hi].
Qed.

(** ** The video player *)

Lemma time_label_fields (position_ms : Z) :
  0 <= position_ms ->
  let secs := position_ms / 1000 in
  0 <= secs / 60 / 60 /\ 0 <= secs / 60 mod 60 < 60 /\
  0 <= secs mod 60 < 60 /\
  secs / 60 / 60 * 3600 + secs / 60 mod 60 * 60 + secs mod 60 = secs.
Proof.
  intros Hp secs.
  assert (0 <= secs) by (apply Z.div_pos; lia).
  assert (0 <= secs / 60) by (apply Z.div_pos; lia).
  assert (0 <= secs / 60 / 60) by (apply Z.div_pos; lia).
  pose proof (Z.mod_pos_bound secs 60 ltac:(lia)).
  pose proof (Z.mod_pos_bound (secs / 60) 60 ltac:(lia)).
  pose proof (Z.div_mod secs 60 ltac:(lia)).
  pose proof (Z.div_mod (secs / 60) 60 ltac:(lia)).
  lia.
Qed.

(** X11: the time label.  For a position p >= 0 in milliseconds the label
    reads HH:MM:SS (two digits at least each) with 0 <= MM, SS < 60 and
    HH * 3600 + MM * 60 + SS = p // 1000; two positions get the same label
    exactly when they lie in the same second. *)
Theorem time_label_spec (p q : Z) :
  0 <= p -> 0 <= q ->
  (exists h m s,
     update_time_label p
     = Py.format_02d h +:+ ":" +:+ Py.format_02d m +:+ ":"
       +:+ Py.format_02d s /\
     0 <= h /\ 0 <= m < 60 /\ 0 <= s < 60 /\
     h * 3600 + m * 60 + s = p / 1000) /\
  (update_time_label p = update_time_label q <-> p / 1000 = q / 1000).
Proof.
  intros Hp Hq.
  pose proof (time_label_fields p Hp) as (Hph & Hpm & Hps & Hpsum).
  pose proof (time_label_fields q Hq) as (Hqh & Hqm & Hqs & Hqsum).
  cbv zeta in *. split.
  - exists (p / 1000 / 60 / 60), (p / 1000 / 60 mod 60), (p / 1000 mod 60).
    split; [reflexivity |]. lia.
  - split.
    + unfold update_time_label. intros H.
      apply (split_at ":") in H as [Hh H];
        [| apply lacks_format_02d; [assumption | cbn; lia] ..].
      apply (split_at ":") in H as [Hm Hs];
        [| apply lacks_format_02d; [lia | cbn; lia] ..].
      apply format_02d_inj in Hh; [| assumption ..].
      apply format_02d_inj in Hm; [| lia ..].
      apply format_02d_inj in Hs; [| lia ..].
      lia.
    + intros H. unfold update_time_label. rewrite H. reflexivity.
Qed.

Lemma time_label_spec_witness :
  update_time_label 3725999 = "01:02:05" /\
  (update_time_label 3725999 = update_time_label 3725000 <->
   3725999 / 1000 = 3725000 / 1000).
Proof.
  destruct (time_label_spec 3725999 3725000 ltac:(lia) ltac:(lia))
    as [_ Hsame].
  split; [reflexivity | exact Hsame].
Defined.

Lemma positive_sign (x : Float.float) :
  Float.positive x = true -> has_sign false x /\ Float.is_zero x = false.
Proof.
  destruct x as [s | s | | s m e]; try discriminate.
  - destruct s; [discriminate |]. split; reflexivity.
  - destruct s; [discriminate |]. split; reflexivity.
Qed.

Lemma int_nonneg (x : Float.float) (n : Z) :
  has_sign false x -> Float.int_ x = Ok n -> 0 <= n.
Proof.
  destruct x as [s | s | | s m e]; try discriminate.
  - intros _ [= <-]. lia.
  - cbn. intros -> [= <-]. destruct e.
    + apply Z.shiftl_nonneg. lia.
    + apply Z.shiftl_nonneg. lia.
    + apply Z.shiftr_nonneg. lia.
Qed.

(** X12: frame stepping with fps > 0.  The target frame is
    current + count clamped to [0, frame_count - 1] (0 when the video has
    no frame); stepping to or before frame 0 pauses the player and seeks to
    position 0; and whenever a step returns, the player is paused at a
    position >= 0, namely int(frame_to_time(target, fps) * 1000). *)
Theorem step_frames_clamps (metadata : VideoMetadata.t)
    (current_frame count : Z) (player : MediaPlayer) :
  Float.positive (VideoMetadata.fps metadata) = true ->
  let target :=
    Z.max 0 (Z.min (current_frame + count)
                   (VideoMetadata.frame_count metadata - 1)) in
  0 <= target /\
  (1 <= VideoMetadata.frame_count metadata ->
   target <= VideoMetadata.frame_count metadata - 1) /\
  (0 <= current_frame + count <= VideoMetadata.frame_count metadata - 1 ->
   target = current_frame + count) /\
  (VideoMetadata.frame_count metadata <= 0 -> target = 0) /\
  (current_frame + count <= 0 ->
   step_frames (Some metadata) current_frame player count
   = Ok {| playing := false; position := 0 |}) /\
  forall player',
    step_frames (Some metadata) current_frame player count = Ok player' ->
    playing player' = false /\ 0 <= position player' /\
    exists t k,
      frame_to_time target (VideoMetadata.fps metadata) = Ok t /\
      Float.of_int 1000 = Ok k /\
      Float.int_ (Float.mul t k) = Ok (position player').
Proof.
  intros Hfps target.
  destruct (positive_sign _ Hfps) as [Hsign Hnz].
  split; [lia |]. split; [lia |]. split; [lia |]. split; [lia |]. split.
  - intros Hle. unfold step_frames.
    replace (Z.max 0 _) with 0 by lia.
    unfold frame_to_time, Float.truediv. rewrite Hnz.
    destruct (VideoMetadata.fps metadata) as [s | s | | s m e];
      try discriminate; cbn in Hsign; subst s; reflexivity.
  - intros player'. unfold step_frames. fold target.
    destruct (frame_to_time target _) as [t |] eqn:Ht; [| discriminate].
    cbn [mbind result_bind].
    destruct (Float.of_int 1000) as [k |] eqn:Hk; [| discriminate].
    cbn [mbind result_bind].
    destruct (Float.int_ (Float.mul t k)) as [time_ms |] eqn:Hms;
      [| discriminate].
    cbn [mbind result_bind]. intros [= <-]. cbn [playing position].
    split; [reflexivity |]. split; [| exists t, k; auto].
    apply int_nonneg in Hms; [exact Hms |].
    change false with (xorb (xorb false false) false).
    apply mul_sign; [| eapply of_int_sign; [| exact Hk]; lia].
    unfold frame_to_time in Ht.
    destruct (Float.of_int target) as [x |] eqn:Hx; [| discriminate].
    cbn [mbind result_bind] in Ht. unfold Float.truediv in Ht.
    rewrite Hnz in Ht. injection Ht as <-.
    apply div_sign; [| exact Hsign].
    eapply of_int_sign; [| exact Hx]. lia.
Qed.

(** ** Grid texts and the frame selector *)

Lemma split_lacks (sep : ascii) (a : string) :
  lacks sep a -> Str.split sep a = (a, []).
Proof.
  induction a as [| c a IH]; cbn; [reflexivity |].
  intros [Hc Ha]. rewrite (IH Ha).
  destruct (decide (c = sep)); [contradiction | reflexivity].
Qed.

Lemma split_app (sep : ascii) (a b : string) :
  lacks sep a ->
  Str.split sep (a +:+ String sep b)
  = (a, (Str.split sep b).1 :: (Str.split sep b).2).
Proof.
  induction a as [| c a IH].
  - intros _. change (EmptyString +:+ String sep b) with (String sep b).
    cbn [Str.split]. destruct (Str.split sep b) as [p ps].
    destruct (decide (sep = sep)); [reflexivity | contradiction].
  - intros [Hc Ha].
    change (String c a +:+ String sep b)
      with (String c (a +:+ String sep b)).
    cbn [Str.split]. rewrite (IH Ha).
    destruct (decide (c = sep)); [contradiction | reflexivity].
Qed.

Lemma split_inv (sep : ascii) (s : string) :
  forall p ps, Str.split sep s = (p, ps) ->
    lacks sep p /\
    match ps with
    | [] => s = p
    | q :: qs => exists rest, s = p +:+ String sep rest /\
                              Str.split sep rest = (q, qs)
    end.
Proof.
  induction s as [| c s IH]; cbn; intros p ps.
  - intros [= <- <-]. split; [exact I | reflexivity].
  - destruct (Str.split sep s) as [p' ps'] eqn:Hs.
    destruct (IH p' ps' eq_refl) as [Hp' Hps'].
    destruct (decide (c = sep)) as [-> | Hc]; intros [= <- <-].
    + split; [exact I |]. exists s. split; [reflexivity | exact Hs].
    + split; [split; assumption |].
      destruct ps' as [| q qs]; [congruence |].
      destruct Hps' as [rest [-> Hrest]]. exists rest.
      split; [reflexivity | exact Hrest].
Qed.

Lemma lacks_pretty (d : ascii) (n : Z) :
  0 <= n -> (N_of_ascii d < 48 \/ 57 < N_of_ascii d)%N -> lacks d (pretty n).
Proof.
  intros Hn Hd. pose proof (not_digit d Hd) as Hk.
  destruct n as [| p | p]; [| | lia].
  - split; [| exact I]. apply (Hk 0%N).
  - unfold pretty, pretty_Z, pretty, pretty_positive, pretty, pretty_N.
    destruct (decide (N.pos p = 0)%N); [discriminate |].
    apply lacks_pretty_N_go; [exact Hk | exact I].
Qed.

(** X13: the grid text.  [_get_grid_size] returns (cols, rows) exactly for
    the texts [a x b] with no further x in which [int] turns a into cols
    and b into rows; so it reads back the text [f"{cols}x{rows}"] built for
    the combo box, for cols, rows >= 0 whose decimal form [int] reads
    back.  [_get_resolution] converts what stands before the first x. *)
Theorem get_grid_size_spec (int_of_str : string -> result Z)
    (text : string) (cols rows : Z) :
  (get_grid_size int_of_str text = Ok (cols, rows) <->
   exists a b, text = a +:+ "x" +:+ b /\ lacks "x" a /\ lacks "x" b /\
               int_of_str a = Ok cols /\ int_of_str b = Ok rows) /\
  (0 <= cols -> 0 <= rows ->
   int_of_str (pretty cols) = Ok cols -> int_of_str (pretty rows) = Ok rows ->
   get_grid_size int_of_str (grid_text cols rows) = Ok (cols, rows)) /\
  (forall a b, lacks "x" a ->
     get_resolution int_of_str (a +:+ "x" +:+ b) = int_of_str a).
Proof.
  assert (Hback : forall a b, lacks "x" a -> lacks "x" b ->
            int_of_str a = Ok cols -> int_of_str b = Ok rows ->
            get_grid_size int_of_str (a +:+ "x" +:+ b) = Ok (cols, rows)).
  { intros a b Ha Hb Hca Hcb. unfold get_grid_size.
    change (a +:+ "x" +:+ b) with (a +:+ String "x" b).
    rewrite (split_app _ _ _ Ha), (split_lacks _ _ Hb). cbn [fst snd].
    rewrite Hca, Hcb. reflexivity. }
  split; [split | split].
  - unfold get_grid_size.
    destruct (Str.split "x" text) as [a ps] eqn:Hsplit.
    apply split_inv in Hsplit as [Ha Hps].
    destruct ps as [| b [| c ps]].
    + destruct (int_of_str a); discriminate.
    + destruct Hps as [rest [-> Hrest]].
      apply split_inv in Hrest as [Hb ->].
      destruct (int_of_str a) as [x |] eqn:Hx; [| discriminate].
      destruct (int_of_str b) as [y |] eqn:Hy; [| discriminate].
      intros [= <- <-]. exists a, b. auto.
    + destruct (int_of_str a); [| discriminate].
      destruct (int_of_str b); [| discriminate].
      destruct (int_of_str c); discriminate.
  - intros (a & b & -> & Ha & Hb & Hca & Hcb). apply Hback; assumption.
  - intros Hc Hr Hic Hir. apply Hback; [| | assumption ..];
      apply lacks_pretty; (assumption || (cbn; lia)).
  - intros a b Ha. unfold get_resolution.
    change (a +:+ "x" +:+ b) with (a +:+ String "x" b).
    rewrite (split_app _ _ _ Ha). reflexivity.
Qed.

Section SelectorProperties.

Variable int_of_str : string -> result Z.

Lemma rebuild_grid_shows (cols rows : Z) (self : FrameSelector.t) :
  get_grid_size int_of_str (FrameSelector.grid_combo self) = Ok (cols, rows) ->
  exists self',
    FrameSelector.rebuild_grid int_of_str self = Ok self' /\
    FrameSelector.frames self' = FrameSelector.frames self /\
    FrameSelector.grid_combo self' = FrameSelector.grid_combo self /\
    shows cols rows self'.
Proof.
  intros Hsize. unfold FrameSelector.rebuild_grid. rewrite Hsize.
  cbn [mbind result_bind].
  set (frames := FrameSelector.frames self).
  set (body := fun (idx : Z) '(thumbs, layout) => _).
  destruct (for__total
    (fun done (s : list (Z * Path) * list (Z * Z * FrameSelector.Slot)) =>
       s.2 = (fun idx => (idx / cols, idx mod cols, slot_of frames idx))
             <$> done /\
       s.1 = omap (fun idx => pair idx <$> frames !! Z.to_nat idx) done)
    body (Py.range (cols * rows)))
    with (@nil (Z * Path), @nil (Z * Z * FrameSelector.Slot))
    as [[thumbs layout] [Hloop [Hl Ht]]].
  - intros done idx rest [thumbs layout] Hxs [Hl Ht]. cbn [fst snd] in Hl, Ht.
    assert (Hidx : 0 <= idx < cols * rows).
    { apply elem_of_range. rewrite Hxs. apply elem_of_app. right. left. }
    assert (Hcols : cols <> 0) by nia.
    subst body. cbn beta iota.
    rewrite (floordiv_Ok _ _ Hcols), (mod_Ok _ _ Hcols).
    cbn [mbind result_bind].
    rewrite fmap_app, omap_app. cbn [fmap list_fmap omap list_omap].
    unfold slot_of.
    destruct (Z.ltb_spec idx (Z.of_nat (length frames))) as [Hlt | Hge].
    + destruct (lookup_lt_is_Some_2 frames (Z.to_nat idx) ltac:(lia))
        as [path Hpath].
      rewrite (nth_lookup_Some _ _ _ _ Hpath), Hpath.
      eexists. split; [reflexivity |].
      cbn [fst snd fmap option_fmap option_map].
      subst layout thumbs. split; reflexivity.
    + rewrite (lookup_ge_None_2 frames (Z.to_nat idx)) by lia.
      eexists. split; [reflexivity |].
      cbn [fst snd fmap option_fmap option_map].
      rewrite app_nil_r. subst layout thumbs. split; reflexivity.
  - split; reflexivity.
  - rewrite Hloop. cbn [mbind result_bind fst snd] in *.
    unfold FrameSelector.update_frame_count. cbn [FrameSelector.grid_combo].
    rewrite Hsize. cbn [mbind result_bind].
    eexists. split; [reflexivity |]. cbn.
    split; [reflexivity |]. split; [reflexivity |].
    unfold shows. cbn. fold frames.
    split; [exact Hl |]. split; [exact Ht |]. split; [reflexivity |].
    apply bool_decide_ext.
    destruct frames as [| f fs]; cbn [length]; split; intros H;
      try lia; congruence.
Qed.

End SelectorProperties.

(** X14: the frame selector stays in step with its grid.  From a state in
    which the grid text parses to cols x rows, the frames fit the grid and
    the widgets show them, each of [add_frame], [_on_thumbnail_clicked] and
    [clear_frames] returns such a state again: [add_frame] appends the path
    if a cell is free and changes nothing otherwise, a click on a thumbnail
    removes exactly its frame (an index out of range changes nothing), and
    clearing leaves no frame. *)
Theorem selector_stays_consistent (int_of_str : string -> result Z)
    (cols rows : Z) (self : FrameSelector.t) (path : Path)
    (frame_num index : Z) :
  consistent int_of_str cols rows self ->
  let frames := FrameSelector.frames self in
  let n := Z.of_nat (length frames) in
  (exists self',
     FrameSelector.add_frame int_of_str self path frame_num = Ok self' /\
     consistent int_of_str cols rows self' /\
     FrameSelector.frames self'
     = if n <? cols * rows then frames ++ [path] else frames) /\
  (exists self',
     FrameSelector.on_thumbnail_clicked int_of_str self index = Ok self' /\
     consistent int_of_str cols rows self' /\
     FrameSelector.frames self'
     = if (0 <=? index) && (index <? n) then delete (Z.to_nat index) frames
       else frames) /\
  (exists self',
     FrameSelector.clear_frames int_of_str self = Ok self' /\
     consistent int_of_str cols rows self' /\
     FrameSelector.frames self' = []).
Proof.
  intros (Hsize & Hfit & Hshows) frames n. split; [| split].
  - unfold FrameSelector.add_frame. rewrite Hsize. cbn [mbind result_bind].
    fold frames. fold n. destruct (Z.ltb_spec n (cols * rows)) as [Hlt | Hge].
    + destruct (rebuild_grid_shows int_of_str cols rows
                  (FrameSelector.with_frames self (frames ++ [path])) Hsize)
        as (self' & Hre & Hfr & Hcombo & Hsh).
      exists self'. split; [exact Hre |]. cbn in Hfr, Hcombo.
      split; [| exact Hfr]. split; [rewrite Hcombo; exact Hsize |].
      split; [| exact Hsh]. rewrite Hfr, length_app. cbn [length]. lia.
    + exists self. split; [reflexivity |]. split; [| reflexivity].
      split; [exact Hsize |]. split; assumption.
  - unfold FrameSelector.on_thumbnail_clicked. fold frames. fold n.
    destruct ((0 <=? index) && (index <? n)) eqn:Hin.
    + destruct (rebuild_grid_shows int_of_str cols rows
                  (FrameSelector.with_frames self
                     (delete (Z.to_nat index) frames)) Hsize)
        as (self' & Hre & Hfr & Hcombo & Hsh).
      exists self'. split; [exact Hre |]. cbn in Hfr, Hcombo.
      split; [| exact Hfr]. split; [rewrite Hcombo; exact Hsize |].
      split; [| exact Hsh]. rewrite Hfr.
      apply andb_prop in Hin as [H0 H1].
      apply Z.leb_le in H0. apply Z.ltb_lt in H1.
      destruct (lookup_lt_is_Some_2 frames (Z.to_nat index) ltac:(lia))
        as [p Hp].
      pose proof (length_delete frames (Z.to_nat index)
                    (mk_is_Some _ _ Hp)) as Hlen.
      fold frames n in Hfit. unfold n in *. lia.
    + exists self. split; [reflexivity |]. split; [| reflexivity].
      split; [exact Hsize |]. split; assumption.
  - unfold FrameSelector.clear_frames.
    destruct (rebuild_grid_shows int_of_str cols rows
                (FrameSelector.with_frames self []) Hsize)
      as (self' & Hre & Hfr & Hcombo & Hsh).
    exists self'. split; [exact Hre |]. cbn in Hfr, Hcombo.
    split; [| exact Hfr]. split; [rewrite Hcombo; exact Hsize |].
    split; [| exact Hsh]. rewrite Hfr. cbn. lia.
Qed.

(** ** The image generation client *)

Lemma save_response_image_skips (fs : FileStore) (out : Path)
    (pre rest : list GenAI.Part) :
  Forall skipped pre ->
  GenAI.save_response_image fs (pre ++ rest) out
  = GenAI.save_response_image fs rest out.
Proof.
  induction 1 as [| part pre [Htext | Himg] _ IH]; [reflexivity | |].
  - cbn. destruct (GenAI.text part); [exact IH | contradiction].
  - cbn. rewrite Himg. destruct (GenAI.text part); exact IH.
Qed.

Lemma save_response_image_Ok (fs fs' : FileStore) (out p : Path)
    (parts : list GenAI.Part) :
  GenAI.save_response_image fs parts out = Ok (p, fs') ->
  p = out /\
  exists pre part post image,
    parts = pre ++ part :: post /\ Forall skipped pre /\
    GenAI.text part = None /\ GenAI.as_image part = Some image /\
    fs' = <[out := image]> fs.
Proof.
  induction parts as [| part parts IH]; [discriminate |].
  cbn. destruct (GenAI.text part) eqn:Htext.
  - intros H. destruct (IH H) as [-> (pre & q & post & image & -> & Hpre & Hq)].
    split; [reflexivity |]. exists (part :: pre), q, post, image.
    split; [reflexivity |]. split; [| exact Hq].
    constructor; [| exact Hpre]. left. rewrite Htext. discriminate.
  - destruct (GenAI.as_image part) as [image |] eqn:Himg.
    + intros [= <- <-]. split; [reflexivity |].
      exists [], part, parts, image. repeat split; auto.
    + intros H.
      destruct (IH H) as [-> (pre & q & post & image & -> & Hpre & Hq)].
      split; [reflexivity |]. exists (part :: pre), q, post, image.
      split; [reflexivity |]. split; [| exact Hq].
      constructor; [| exact Hpre]. right. exact Himg.
Qed.

(** X15: [_save_response_image] saves the first image of the response.
    The first part without text that holds an image is written to the
    output path, whatever follows it; if every part has text or holds no
    image it raises [ValueError] (No image in response); and when it
    returns, it returns the output path, the file exists and no other file
    has changed. *)
Theorem save_response_image_first (fs : FileStore) (out : Path)
    (parts : list GenAI.Part) :
  (forall pre part post image,
     parts = pre ++ part :: post -> Forall skipped pre ->
     GenAI.text part = None -> GenAI.as_image part = Some image ->
     GenAI.save_response_image fs parts out
     = Ok (out, <[out := image]> fs)) /\
  (Forall skipped parts ->
   GenAI.save_response_image fs parts out
   = Raise (ValueError "No image in response")) /\
  (forall p fs',
     GenAI.save_response_image fs parts out = Ok (p, fs') ->
     p = out /\ is_Some (fs' !! out) /\
     forall q, q <> out -> fs' !! q = fs !! q).
Proof.
  split; [| split].
  - intros pre part post image -> Hpre Htext Himg.
    rewrite (save_response_image_skips _ _ _ _ Hpre). cbn.
    rewrite Htext, Himg. reflexivity.
  - intros Hall. rewrite <- (app_nil_r parts).
    rewrite (save_response_image_skips _ _ _ _ Hall). reflexivity.
  - intros p fs' H.
    apply save_response_image_Ok in H
      as [-> (pre & part & post & image & _ & _ & _ & _ & ->)].
    split; [reflexivity |]. split.
    + rewrite lookup_insert_eq. eauto.
    + intros q Hq. apply lookup_insert_ne. congruence.
Qed.

Lemma save_response_image_returns (fs : FileStore) (out : Path)
    (parts : list GenAI.Part) :
  ~ Forall skipped parts -> is_Ok (GenAI.save_response_image fs parts out).
Proof.
  induction parts as [| part parts IH]; intros Hnot.
  - contradiction Hnot. constructor.
  - cbn. destruct (GenAI.text part) eqn:Htext.
    + apply IH. intros Hall. apply Hnot. constructor; [| exact Hall].
      left. rewrite Htext. discriminate.
    + destruct (GenAI.as_image part) as [image |] eqn:Himg.
      * eexists. reflexivity.
      * apply IH. intros Hall. apply Hnot. constructor; [| exact Hall].
        right. exact Himg.
Qed.

(** X16: [generate_template] end to end.  Without frames it raises
    [ValueError] (No frames provided).  When it returns, it returns the
    given output path, or [TEMPLATES_DIR / template_{cols}x{rows}_{res}.png]
    by default; that file exists, the reference grid of
    [create_reference_grid] is in [WORKSPACE / temp / reference_grid.png]
    (if that is not the output path) and no other file has changed.  And
    it does return for cols, rows >= 1, a resolution of at least
    max(cols, rows) whose square has at most twice [MAX_IMAGE_PIXELS]
    pixels, decodable frames, a decodable generic character and a response
    that holds an image. *)
Theorem generate_template_spec
    (lanczos : Image -> Z -> Z -> Z -> Z -> Pixel) (WORKSPACE : Path)
    (generate_content :
       string -> string -> Image -> Image -> string
       -> result (list GenAI.Part))
    (fs : FileStore) (source_frames : list Path) (generic_character : Path)
    (cols rows resolution : Z) (prompt_override : option string)
    (output_path : option Path) :
  let reference_path :=
    path_join (path_join WORKSPACE "temp") "reference_grid.png" in
  let out :=
    default (path_join (GenAI.TEMPLATES_DIR WORKSPACE)
                       (GenAI.template_name cols rows resolution))
            output_path in
  let run :=
    GenAI.generate_template lanczos WORKSPACE generate_content fs
      source_frames generic_character (cols, rows) resolution
      prompt_override output_path in
  (source_frames = [] -> run = Raise (ValueError "No frames provided")) /\
  (forall p fs',
     run = Ok (p, fs') ->
     p = out /\ is_Some (fs' !! out) /\
     (out <> reference_path ->
      exists grid,
        create_reference_grid lanczos fs source_frames cols rows resolution
        = Ok grid /\
        fs' !! reference_path = Some grid) /\
     forall q, q <> out -> q <> reference_path -> fs' !! q = fs !! q) /\
  (1 <= cols -> 1 <= rows -> Z.max cols rows <= resolution ->
   resolution * resolution <= 2 * PIL.MAX_IMAGE_PIXELS ->
   source_frames <> [] ->
   Forall (fun p => is_Ok (PIL.open_ fs p))
     (take (Z.to_nat (cols * rows)) source_frames) ->
   generic_character <> reference_path ->
   is_Ok (PIL.open_ fs generic_character) ->
   (forall model prompt grid img res,
      exists parts, generate_content model prompt grid img res = Ok parts /\
                    ~ Forall skipped parts) ->
   is_Ok run).
Proof.
  intros reference_path out run. split; [| split].
  - intros ->. reflexivity.
  - intros p fs'. unfold run, GenAI.generate_template.
    fold reference_path. intros H.
    apply bind_Ok in H as [grid [Hgrid H]].
    apply bind_Ok in H as [fs1 [Hsave H]].
    apply bind_Ok in H as [img [_ H]].
    apply bind_Ok in H as [parts [_ H]].
    apply save_response_image_Ok in H
      as [-> (pre & part & post & image & _ & _ & _ & _ & ->)].
    unfold PIL.save in Hsave.
    destruct ((width grid <? 1) || (height grid <? 1)); [discriminate |].
    injection Hsave as <-.
    assert (Hout : match output_path with
                   | Some p => p
                   | None => path_join (GenAI.TEMPLATES_DIR WORKSPACE)
                               (GenAI.template_name cols rows resolution)
                   end = out) by (destruct output_path; reflexivity).
    rewrite Hout. split; [reflexivity |]. split; [| split].
    + rewrite lookup_insert_eq. eauto.
    + intros Hne. exists grid. split; [exact Hgrid |].
      rewrite lookup_insert_ne by congruence. apply lookup_insert_eq.
    + intros q Hq Hq'. rewrite !lookup_insert_ne by congruence. reflexivity.
  - intros Hc Hr Hres Hsize Hne Hopen Hgen [img Himg] Hapi.
    unfold run, GenAI.generate_template. fold reference_path.
    destruct (create_reference_grid_composed lanczos fs source_frames cols
                rows resolution Hc Hr Hres Hsize Hne Hopen)
      as [grid [Hgrid _]].
    rewrite Hgrid. cbn [mbind result_bind].
    apply create_reference_grid_size in Hgrid as (_ & Hw & Hh).
    assert (Hs : 1 <= resolution / Z.max cols rows)
      by (apply Z.div_le_lower_bound; lia).
    unfold PIL.save.
    destruct (Z.ltb_spec (width grid) 1) as [Hlt |]; [nia |].
    destruct (Z.ltb_spec (height grid) 1) as [Hlt |]; [nia |].
    cbn [orb mbind result_bind].
    assert (Hopen' : PIL.open_ (<[reference_path := grid]> fs)
                       generic_character = Ok img).
    { unfold PIL.open_ in *. rewrite lookup_insert_ne by congruence.
      exact Himg. }
    rewrite Hopen'. cbn [mbind result_bind].
    destruct (Hapi GenAI.MODEL
                match prompt_override with
                | Some p => if decide (p = "")
                            then GenAI.template_prompt cols rows else p
                | None => GenAI.template_prompt cols rows
                end grid img
                (default "2K" (GenAI.RESOLUTION_MAP !! resolution)))
      as [parts [-> Hparts]].
    cbn [mbind result_bind]. apply save_response_image_returns, Hparts.
Qed.

(** ** The properties above at sample inputs, and the template names *)

Lemma center_crop_square_idempotent_witness :
  exists sq sq',
    center_crop_square (Demo.gradient RGB 640 480 2) = Ok sq /\
    center_crop_square sq = Ok sq' /\
    width sq' = width sq /\
    PIL.getpixel sq' 10 20 = PIL.getpixel sq 10 20.
Proof.
  destruct (center_crop_square_idempotent (Demo.gradient RGB 640 480 2)
              (0, 0, 0, 0) ltac:(cbn; lia) ltac:(cbn; lia)) as [Hcrop _].
  destruct Hcrop as (sq & sq' & Hsq & Hsq' & Hw & _ & Hpix);
    [vm_compute; discriminate |].
  exists sq, sq'. split; [exact Hsq |]. split; [exact Hsq' |].
  split; [exact Hw | apply Hpix].
Defined.

Lemma extract_frames_batch_paths_witness :
  exists paths fs',
    extract_frames_batch Sample.ffmpeg Sample.format_3f Sample.stem ["frames"]
      Demo.store Sample.video [Float.literal 0 1; Float.literal 1 2] None
    = Some (paths, fs') /\
    paths !! 1%nat = Some ["frames"; "clip"; "frame_0001.png"].
Proof.
  destruct (extract_frames_batch_paths Sample.ffmpeg Sample.format_3f
              Sample.stem ["frames"] Demo.store Sample.video
              [Float.literal 0 1; Float.literal 1 2] None)
    as [Hruns Hpaths].
  destruct Hruns as [[paths fs'] Hbatch].
  { intros fs0 t output. eexists. reflexivity. }
  exists paths, fs'. split; [exact Hbatch |].
  destruct (Hpaths paths fs' Hbatch) as (_ & Hnames & _).
  exact (Hnames 1 ltac:(cbn; lia)).
Defined.

Lemma step_frames_clamps_witness :
  step_frames (Some Sample.metadata) 3 Sample.player (-10)
  = Ok {| playing := false; position := 0 |}.
Proof.
  destruct (step_frames_clamps Sample.metadata 3 (-10) Sample.player
              ltac:(reflexivity)) as (_ & _ & _ & _ & Hstart & _).
  apply Hstart. lia.
Defined.

Lemma get_grid_size_spec_witness :
  get_grid_size Sample.int_decimal (grid_text 4 6) = Ok (4, 6).
Proof.
  destruct (get_grid_size_spec Sample.int_decimal "4x6" 4 6)
    as (_ & Hround & _).
  apply Hround; [lia | lia | reflexivity | reflexivity].
Defined.

Lemma sample_selector_consistent :
  consistent Sample.int_decimal 2 2 Sample.selector.
Proof.
  split; [reflexivity |]. split; [cbn; lia |].
  repeat split; reflexivity.
Qed.

Lemma selector_stays_consistent_witness :
  exists self',
    FrameSelector.add_frame Sample.int_decimal Sample.selector Demo.frame_a 0
    = Ok self' /\
    consistent Sample.int_decimal 2 2 self' /\
    FrameSelector.frames self' = [Demo.frame_a].
Proof.
  destruct (selector_stays_consistent Sample.int_decimal 2 2 Sample.selector
              Demo.frame_a 0 0 sample_selector_consistent)
    as [(self' & Hadd & Hcons & Hframes) _].
  exists self'. split; [exact Hadd |]. split; [exact Hcons | exact Hframes].
Defined.

Lemma save_response_image_first_witness :
  GenAI.save_response_image Demo.store Sample.response Demo.sheet
  = Ok (Demo.sheet, <[Demo.sheet := Demo.gradient RGB 32 32 9]> Demo.store).
Proof.
  destruct (save_response_image_first Demo.store Demo.sheet Sample.response)
    as [Hfirst _].
  apply (Hfirst [ {| GenAI.text := Some "Here is the template.";
                     GenAI.as_image := None |} ]
                {| GenAI.text := None;
                   GenAI.as_image := Some (Demo.gradient RGB 32 32 9) |} []).
  - reflexivity.
  - constructor; [left; discriminate | constructor].
  - reflexivity.
  - reflexivity.
Defined.

Lemma generate_template_spec_witness :
  is_Ok (GenAI.generate_template Demo.nearest Sample.workspace
           Sample.generate_content Demo.store [Demo.frame_a; Demo.frame_b]
           Demo.frame_c (4, 2) 32 None None).
Proof.
  destruct (generate_template_spec Demo.nearest Sample.workspace
              Sample.generate_content Demo.store [Demo.frame_a; Demo.frame_b]
              Demo.frame_c 4 2 32 None None) as (_ & _ & Hruns).
  apply Hruns.
  - lia.
  - lia.
  - cbn. lia.
  - vm_compute. discriminate.
  - discriminate.
  - repeat constructor; eexists; reflexivity.
  - discriminate.
  - eexists. reflexivity.
  - intros model prompt grid img res. exists Sample.response.
    split; [reflexivity |]. intros Hall.
    apply Forall_cons in Hall as [_ Hall].
    apply Forall_cons in Hall as [[Htext | Himg] _];
      [apply Htext; reflexivity | discriminate].
Defined.

Lemma pretty_nonneg_inj (a b : Z) :
  0 <= a -> 0 <= b -> pretty a = pretty b -> a = b.
Proof.
  intros Ha Hb H. apply (f_equal parse_decimal) in H.
  rewrite !parse_pretty in H by assumption. lia.
Qed.

(** X17: the default template names of [generate_template] tell the
    settings apart: for non-negative values, different (cols, rows,
    resolution) give different file names. *)
Theorem template_names_differ
    (cols rows resolution cols' rows' resolution' : Z) :
  0 <= cols -> 0 <= rows -> 0 <= resolution ->
  0 <= cols' -> 0 <= rows' -> 0 <= resolution' ->
  (cols, rows, resolution) <> (cols', rows', resolution') ->
  GenAI.template_name cols rows resolution
  <> GenAI.template_name cols' rows' resolution'.
Proof.
  intros Hc Hr Hs Hc' Hr' Hs' Hne. unfold GenAI.template_name.
  cbn [String.append]. intros [= H]. apply Hne.
  apply (split_at "x") in H as [Hcols H];
    [| apply lacks_pretty; (assumption || (cbn; lia)) ..].
  apply (split_at "_") in H as [Hrows H];
    [| apply lacks_pretty; (assumption || (cbn; lia)) ..].
  apply (split_at ".") in H as [Hres _];
    [| apply lacks_pretty; (assumption || (cbn; lia)) ..].
  apply pretty_nonneg_inj in Hcols, Hrows, Hres; try assumption.
  congruence.
Qed.

Lemma template_names_differ_witness :
  GenAI.template_name 4 6 2048 <> GenAI.template_name 4 6 1024.
Proof.
  apply (template_names_differ 4 6 2048 4 6 1024); try lia. discriminate.
Defined.
